(** * A shallow embedding of [part12/models.py]

    The module is a small in-memory search engine over sonnets: a suffix
    stripping stemmer, an inverted index with postings, per-document search
    results that are merged by [combine_with], a multi-word searcher and a
    highlighter.

    Conventions of the embedding.
    - A Python [str] is a list of code points; code points are the 256
      values of [ascii], read as the first 256 Unicode code points.
    - A Python [int] is a [Z].
    - A Python [dict] is an association list in insertion order whose keys
      are pairwise distinct: [dict_set] overwrites in place or appends.
    - Code that can raise ([KeyError], [IndexError]) returns a [result]. *)

From Stdlib Require Import Ascii String.
From Stdlib Require Import List ZArith Lia Bool Permutation Sorted.
Import ListNotations.
Open Scope Z_scope.
Open Scope list_scope.

(** ** Python built-ins used by the module *)

Module Py.

Definition str := list ascii.

Definition lit (s : string) : str := list_ascii_of_string s.
Arguments lit s%_string.

Fixpoint str_eqb (a b : str) : bool :=
  match a, b with
  | [], [] => true
  | x :: a', y :: b' => Ascii.eqb x y && str_eqb a' b'
  | _, _ => false
  end.

(** [len(s)] *)
Definition len {A} (l : list A) : Z := Z.of_nat (length l).

(** Normalisation of one slice bound against a sequence of length [n]:
    a negative bound counts from the end, and every bound is clamped. *)
Definition norm_index (n i : Z) : Z :=
  if i <? 0 then Z.max (n + i) 0 else Z.min i n.

(** [l[lo:hi]]; a missing bound is [None]. *)
Definition slice {A} (l : list A) (lo hi : option Z) : list A :=
  let n := len l in
  let a := match lo with None => 0 | Some i => norm_index n i end in
  let b := match hi with None => n | Some j => norm_index n j end in
  skipn (Z.to_nat a) (firstn (Z.to_nat b) l).

(** [l[:j]], [l[i:]] and [l[i:j]] *)
Definition slice_upto {A} (l : list A) (j : Z) := slice l None (Some j).
Definition slice_from {A} (l : list A) (i : Z) := slice l (Some i) None.
Definition slice_range {A} (l : list A) (i j : Z) := slice l (Some i) (Some j).

(** [s.lower()] on code points below 256: the ASCII capitals and the
    Latin-1 capitals (U+00C0 to U+00DE without the multiplication sign
    U+00D7) move up by 32, every other code point stays. *)
Definition lower_char (c : ascii) : ascii :=
  let n := N_of_ascii c in
  if ((65 <=? n) && (n <=? 90) ||
      (192 <=? n) && (n <=? 222) && negb (n =? 215))%N
  then ascii_of_N (n + 32) else c.

Definition lower (s : str) : str := map lower_char s.

(** [c.isspace()] on code points below 256, which is also the class [\s]
    of [re] on a [str] pattern. *)
Definition isspace (c : ascii) : bool :=
  let n := N_of_ascii c in
  ((9 <=? n) && (n <=? 13) || (28 <=? n) && (n <=? 32) ||
   (n =? 133) || (n =? 160))%N.

Fixpoint startswith (s prefix : str) : bool :=
  match prefix, s with
  | [], _ => true
  | p :: prefix', c :: s' => Ascii.eqb p c && startswith s' prefix'
  | _ :: _, [] => false
  end.

(** [s.endswith(suffix)] *)
Definition endswith (s suffix : str) : bool :=
  (length suffix <=? length s)%nat &&
  str_eqb (skipn (length s - length suffix) s) suffix.

(** [s.replace(old, new)] for a non-empty [old]: occurrences are found
    from the left and do not overlap.  [skip] counts the characters of an
    occurrence that are still to be passed over. *)
Fixpoint replace_from (old new : str) (skip : nat) (s : str) : str :=
  match s with
  | [] => []
  | c :: s' =>
      match skip with
      | S k => replace_from old new k s'
      | O =>
          if startswith s old
          then new ++ replace_from old new (length old - 1) s'
          else c :: replace_from old new 0 s'
      end
  end.

Definition replace (s old new : str) : str := replace_from old new 0 s.

End Py.

Import Py.

(** ** The stemmer (class [PorterStemmer], [normalize], [stem]) *)

Module PorterStemmer.

Definition stem (word : str) : str :=
  let word := lower word in
  (* step 1a - handle plurals *)
  let word :=
    if endswith word (lit "sses") then slice_upto word (-2)
    else if endswith word (lit "ies") then slice_upto word (-2)
    else if endswith word (lit "ss") then word
    else if endswith word (lit "s") then slice_upto word (-1)
    else word in
  (* step 1b - handle past tense and gerunds *)
  let word :=
    if endswith word (lit "eed") then
      if len word >? 4 then slice_upto word (-1) else word
    else if endswith word (lit "ed") then
      if len word >? 4 then slice_upto word (-2) else word
    else if endswith word (lit "ing") then
      if len word >? 5 then slice_upto word (-3) else word
    else word in
  (* step 2 - handle common suffixes *)
  let word :=
    if endswith word (lit "ational") then slice_upto word (-5) ++ lit "e"
    else if endswith word (lit "tion") then slice_upto word (-4) ++ lit "t"
    else if endswith word (lit "ness") then slice_upto word (-4)
    else if endswith word (lit "ment") then slice_upto word (-4)
    else if endswith word (lit "able") then slice_upto word (-4)
    else if endswith word (lit "ible") then slice_upto word (-4)
    else if endswith word (lit "ful") then slice_upto word (-3)
    else if endswith word (lit "ous") then slice_upto word (-3)
    else if endswith word (lit "ive") then slice_upto word (-3)
    else if endswith word (lit "ly") then slice_upto word (-2)
    else word in
  word.

End PorterStemmer.

(** [normalize]: remove apostrophe, comma, dot; then lowercase. *)
Definition normalize (token : str) : str :=
  let result :=
    replace (replace (replace token (lit "'") (lit "")) (lit ",") (lit ""))
            (lit ".") (lit "") in
  lower result.

Definition stem (token : str) : str :=
  let normalized := normalize token in
  PorterStemmer.stem normalized.

(** *** The stemming pipeline as the specification words it

    Three passes over the normalised token; every pass is a table of rules
    (suffix, guard, transformation) of which the first applicable one is
    applied, and a word to which no rule applies passes unchanged. *)

Module StemSpec.

Record rule := mk_rule {
  suffix : str;
  guard : str -> bool;
  action : str -> str
}.

Definition drop_last (n : nat) (w : str) : str := firstn (length w - n) w.

Definition longer_than (n : nat) (w : str) : bool := (n <? length w)%nat.

Definition always (_ : str) : bool := true.

Fixpoint first_match (rules : list rule) (w : str) : str :=
  match rules with
  | [] => w
  | r :: rules' =>
      if endswith w (suffix r) && guard r w then action r w
      else first_match rules' w
  end.

Definition pass1 : list rule :=
  [ mk_rule (lit "sses") always (drop_last 2);
    mk_rule (lit "ies") always (drop_last 2);
    mk_rule (lit "ss") always (fun w => w);
    mk_rule (lit "s") always (drop_last 1) ].

Definition pass2 : list rule :=
  [ mk_rule (lit "eed") (longer_than 4) (drop_last 1);
    mk_rule (lit "ed") (longer_than 4) (drop_last 2);
    mk_rule (lit "ing") (longer_than 5) (drop_last 3) ].

Definition pass3 : list rule :=
  [ mk_rule (lit "ational") always (fun w => drop_last 5 w ++ lit "e");
    mk_rule (lit "tion") always (fun w => drop_last 4 w ++ lit "t");
    mk_rule (lit "ness") always (drop_last 4);
    mk_rule (lit "ment") always (drop_last 4);
    mk_rule (lit "able") always (drop_last 4);
    mk_rule (lit "ible") always (drop_last 4);
    mk_rule (lit "ful") always (drop_last 3);
    mk_rule (lit "ous") always (drop_last 3);
    mk_rule (lit "ive") always (drop_last 3);
    mk_rule (lit "ly") always (drop_last 2) ].

Definition is_stripped (c : ascii) : bool :=
  Ascii.eqb c "'" || Ascii.eqb c "," || Ascii.eqb c ".".

Definition normalize (token : str) : str :=
  lower (filter (fun c => negb (is_stripped c)) token).

Definition stem (token : str) : str :=
  first_match pass3 (first_match pass2 (first_match pass1 (normalize token))).

End StemSpec.

(** ** More built-ins: exceptions, indexing, dictionaries, sorting *)

Module PyData.

(** The exceptions of interest: a failed dictionary lookup, a failed list
    index, and [ValueError], Python's exception for an invalid argument. *)
Inductive exn := KeyError | IndexError | ValueError.

Inductive result (A : Type) :=
| Ok (a : A)
| Raise (e : exn).
Arguments Ok {A} a.
Arguments Raise {A} e.

Definition bind {A B} (m : result A) (f : A -> result B) : result B :=
  match m with
  | Ok a => f a
  | Raise e => Raise e
  end.

(** A [for] loop whose body may raise. *)
Fixpoint for_each {A S} (body : S -> A -> result S) (l : list A) (st : S)
  : result S :=
  match l with
  | [] => Ok st
  | x :: l' => bind (body st x) (for_each body l')
  end.

(** [l[i]] *)
Definition getitem {A} (l : list A) (i : Z) : result A :=
  let j := if i <? 0 then i + len l else i in
  if (0 <=? j) && (j <? len l) then
    match nth_error l (Z.to_nat j) with
    | Some x => Ok x
    | None => Raise IndexError
    end
  else Raise IndexError.

(** [enumerate(l, start)] *)
Fixpoint enumerate {A} (l : list A) (start : Z) : list (Z * A) :=
  match l with
  | [] => []
  | x :: l' => (start, x) :: enumerate l' (start + 1)
  end.

(** Keys of dictionaries: [int] and [str]. *)
Class Key (K : Type) := key_eqb : K -> K -> bool.
#[export] Instance Z_Key : Key Z := Z.eqb.
#[export] Instance str_Key : Key str := str_eqb.

Section Dict.
Context {K V : Type} `{Key K}.

Definition dict := list (K * V).

(** [d.get(k)] *)
Fixpoint dict_get (d : dict) (k : K) : option V :=
  match d with
  | [] => None
  | (k', v) :: d' => if key_eqb k' k then Some v else dict_get d' k
  end.

(** [k in d] *)
Definition dict_mem (d : dict) (k : K) : bool :=
  match dict_get d k with Some _ => true | None => false end.

(** [d[k]] *)
Definition dict_getitem (d : dict) (k : K) : result V :=
  match dict_get d k with
  | Some v => Ok v
  | None => Raise KeyError
  end.

(** [d[k] = v]: a present key keeps its place, a new one goes last. *)
Fixpoint dict_set (d : dict) (k : K) (v : V) : dict :=
  match d with
  | [] => [(k, v)]
  | (k', v') :: d' =>
      if key_eqb k' k then (k', v) :: d' else (k', v') :: dict_set d' k v
  end.

Definition dict_keys (d : dict) : list K := map fst d.
Definition dict_values (d : dict) : list V := map snd d.

(** [not d] *)
Definition dict_is_empty (d : dict) : bool :=
  match d with [] => true | _ :: _ => false end.
End Dict.
Arguments dict K V : clear implicits.

(** [sorted]: the stable sort, here by insertion from the right, so that
    of two elements that compare equal the one that came first stays
    first. *)
Section Sorted.
Context {A : Type} (leb : A -> A -> bool).

Fixpoint insert_sorted (x : A) (l : list A) : list A :=
  match l with
  | [] => [x]
  | y :: l' => if leb x y then x :: l else y :: insert_sorted x l'
  end.

Definition sorted (l : list A) : list A := fold_right insert_sorted [] l.
End Sorted.

(** [sorted(l, key=f)] with integer keys *)
Definition sorted_by_int {A} (key : A -> Z) : list A -> list A :=
  sorted (fun x y => key x <=? key y).

(** [a <= b] on [str]: lexicographic on code points *)
Fixpoint str_leb (a b : str) : bool :=
  match a, b with
  | [], _ => true
  | _ :: _, [] => false
  | x :: a', y :: b' =>
      if (N_of_ascii x <? N_of_ascii y)%N then true
      else if (N_of_ascii y <? N_of_ascii x)%N then false
      else str_leb a' b'
  end.

(** [sorted(l, key=f)] with [str] keys *)
Definition sorted_by_str {A} (key : A -> str) : list A -> list A :=
  sorted (fun x y => str_leb (key x) (key y)).

(** The maximal runs of non-space characters of [s] with the offset of
    their first character: [re.finditer(r"\S+", s)].  [i] is the offset of
    the head of [s], [cur] the run being read (reversed) and its start. *)
Fixpoint runs_from (i : Z) (cur : option (str * Z)) (s : str)
  : list (str * Z) :=
  let flush :=
    match cur with
    | Some (tok, start) => [(rev tok, start)]
    | None => []
    end in
  match s with
  | [] => flush
  | c :: s' =>
      if isspace c then flush ++ runs_from (i + 1) None s'
      else
        match cur with
        | Some (tok, start) => runs_from (i + 1) (Some (c :: tok, start)) s'
        | None => runs_from (i + 1) (Some ([c], i)) s'
        end
  end.

(** [s.split()] *)
Definition split (s : str) : list str := map fst (runs_from 0 None s).

End PyData.

Import PyData.

Notation "x <- m ;; k" := (bind m (fun x => k))
  (at level 61, m at next level, right associativity).

(** ** The result model: spans, [LineMatch], [SearchResult] *)

Definition Span := (Z * Z)%type.

(** Tuples of integers compare lexicographically. *)
Definition span_leb (a b : Span) : bool :=
  (fst a <? fst b) || ((fst a =? fst b) && (snd a <=? snd b)).

Module LineMatch.

Record t := mk {
  line_no : Z;
  text : str;
  spans : list Span
}.

Definition copy (self : t) : t := mk (line_no self) (text self) (spans self).

Definition set_spans (self : t) (v : list Span) : t :=
  mk (line_no self) (text self) v.

End LineMatch.

Module Posting.

Record t := mk {
  line_no : option Z;   (* [None] for the title *)
  position : Z;
  token_length : Z
}.

End Posting.

Module SearchResult.

Record t := mk {
  title : str;
  title_spans : list Span;
  line_matches : list LineMatch.t;
  matches : Z
}.

Definition copy (self : t) : t :=
  mk (title self) (title_spans self)
     (map LineMatch.copy (line_matches self)) (matches self).

Definition set_matches (self : t) (v : Z) : t :=
  mk (title self) (title_spans self) (line_matches self) v.
Definition set_title_spans (self : t) (v : list Span) : t :=
  mk (title self) v (line_matches self) (matches self).
Definition set_line_matches (self : t) (v : list LineMatch.t) : t :=
  mk (title self) (title_spans self) v (matches self).

(** The dictionary [lines_by_no] of [combine_with]: first the copies of
    the own line matches, then the other side's, appended to an entry of
    the same line or added as a copy. *)
Definition own_lines (lms : list LineMatch.t) : dict Z LineMatch.t :=
  fold_left
    (fun d lm => dict_set d (LineMatch.line_no lm) (LineMatch.copy lm))
    lms [].

Definition add_line (lines_by_no : dict Z LineMatch.t) (lm : LineMatch.t)
  : dict Z LineMatch.t :=
  let ln := LineMatch.line_no lm in
  match dict_get lines_by_no ln with
  | Some cur =>
      dict_set lines_by_no ln
        (LineMatch.set_spans cur (LineMatch.spans cur ++ LineMatch.spans lm))
  | None => dict_set lines_by_no ln (LineMatch.copy lm)
  end.

Definition combine_with (self other : t) : t :=
  let combined := copy self in
  let combined := set_matches combined (matches self + matches other) in
  let combined :=
    set_title_spans combined
      (sorted span_leb (title_spans self ++ title_spans other)) in
  let lines_by_no := own_lines (line_matches self) in
  let lines_by_no := fold_left add_line (line_matches other) lines_by_no in
  let combined :=
    set_line_matches combined
      (sorted_by_int LineMatch.line_no (dict_values lines_by_no)) in
  combined.

(** The merging loop of [ansi_highlight] over the sorted spans. *)
Definition merge_step (st : list Span * Z * Z) (span : Span)
  : list Span * Z * Z :=
  let '(merged, current_start, current_end) := st in
  let '(s, e) := span in
  if s <=? current_end then (merged, current_start, Z.max current_end e)
  else (merged ++ [(current_start, current_end)], s, e).

Definition merge_spans (spans : list Span) : list Span :=
  match spans with
  | [] => []
  | (s0, e0) :: rest =>
      let '(merged, current_start, current_end) :=
        fold_left merge_step rest ([], s0, e0) in
      merged ++ [(current_start, current_end)]
  end.

Definition esc : ascii := ascii_of_nat 27.
Definition ansi_default : str := esc :: lit "[43m" ++ esc :: lit "[30m".
Definition ansi_green : str := esc :: lit "[1;92m".
Definition ansi_reset : str := esc :: lit "[0m".

(** The output loop of [ansi_highlight]: the pieces of the output. *)
Definition emit_step (text ansi_sequence : str) (st : list str * Z)
  (span : Span) : list str * Z :=
  let '(out, i) := st in
  let '(s, e) := span in
  (out ++ [slice_range text i s; ansi_sequence; slice_range text s e;
           ansi_reset], e).

Definition emit (text ansi_sequence : str) (merged : list Span) : list str :=
  let '(out, i) := fold_left (emit_step text ansi_sequence) merged ([], 0) in
  out ++ [slice_from text i].

Definition ansi_highlight (text : str) (spans : list Span)
  (highlight_mode : str) : str :=
  match spans with
  | [] => text
  | _ :: _ =>
      let spans := sorted span_leb spans in
      let merged := merge_spans spans in
      let ansi_sequence :=
        if str_eqb highlight_mode (lit "DEFAULT") then ansi_default
        else ansi_green in
      concat (emit text ansi_sequence merged)
  end.

End SearchResult.

(** ** Sonnets, the inverted index and the searcher *)

Module Sonnet.

(** A constructed sonnet; [id] is the number read from the title. *)
Record t := mk {
  title : str;
  lines : list str;
  id : Z
}.

(** [range(n)] *)
Definition range (n : Z) : list Z := map Z.of_nat (seq 0 (Z.to_nat n)).

(** [find_spans]: the spans of all occurrences of [pattern] in [text],
    overlapping ones too. *)
Definition find_spans (text pattern : str) : list Span :=
  let spans := [] in
  match pattern with
  | [] => spans
  | _ :: _ =>
      fold_left
        (fun spans i =>
           if str_eqb (slice_range text i (i + len pattern)) pattern
           then spans ++ [(i, i + len pattern)]
           else spans)
        (range (len text - len pattern + 1)) spans
  end.

(** [Sonnet.search_for]: the substring search of one sonnet. *)
Definition search_for (self : t) (query : str) : SearchResult.t :=
  let title_raw := title self in
  let lines_raw := lines self in
  let q := lower query in
  let title_spans := find_spans (lower title_raw) q in
  let line_matches :=
    fold_left
      (fun line_matches '(idx, line_raw) =>
         let spans := find_spans (lower line_raw) q in
         match spans with
         | [] => line_matches
         | _ :: _ => line_matches ++ [LineMatch.mk idx line_raw spans]
         end)
      (enumerate lines_raw 1) [] in
  let total :=
    len title_spans +
    fold_left (fun acc lm => acc + len (LineMatch.spans lm)) line_matches 0 in
  SearchResult.mk title_raw title_spans line_matches total.

End Sonnet.

Module Index.

Definition postings := dict Z (list Posting.t).

Record t := mk {
  sonnets : dict Z Sonnet.t;
  dictionary : dict str postings
}.

Definition tokenize (text : str) : list (str * Z) := runs_from 0 None text.

(** [_add_token] on the attribute [dictionary] *)
Definition _add_token (dictionary : dict str postings) (doc_id : Z)
  (token : str) (line_no : option Z) (position token_length : Z)
  : dict str postings :=
  let postings_list :=
    match dict_get dictionary token with
    | Some pl => pl
    | None => []
    end in
  let doc_postings :=
    match dict_get postings_list doc_id with
    | Some ps => ps
    | None => []
    end in
  dict_set dictionary token
    (dict_set postings_list doc_id
       (doc_postings ++ [Posting.mk line_no position token_length])).

Definition add_text (doc_id : Z) (line_no : option Z)
  (dictionary : dict str postings) (text : str) : dict str postings :=
  fold_left
    (fun dictionary '(token, position) =>
       let stemmed := stem token in
       _add_token dictionary doc_id stemmed line_no position (len token))
    (tokenize text) dictionary.

Definition add_sonnet (dictionary : dict str postings) (sonnet : Sonnet.t)
  : dict str postings :=
  let dictionary :=
    add_text (Sonnet.id sonnet) None dictionary (Sonnet.title sonnet) in
  fold_left
    (fun dictionary '(line_no, line) =>
       add_text (Sonnet.id sonnet) (Some line_no) dictionary line)
    (enumerate (Sonnet.lines sonnet) 1) dictionary.

(** [Index.__init__] *)
Definition init (sonnets : list Sonnet.t) : t :=
  mk (fold_left (fun d sonnet => dict_set d (Sonnet.id sonnet) sonnet)
                sonnets [])
     (fold_left add_sonnet sonnets []).

(** The result for one posting, as the inner loop body of [search_for]
    builds it. *)
Definition posting_result (self : t) (doc_id : Z) (posting : Posting.t)
  : result SearchResult.t :=
  sonnet <- dict_getitem (sonnets self) doc_id ;;
  match Posting.line_no posting with
  | None =>
      let title_spans :=
        [(Posting.position posting,
          Posting.position posting + Posting.token_length posting)] in
      Ok (SearchResult.mk (Sonnet.title sonnet) title_spans [] 1)
  | Some line_no =>
      line_text <- getitem (Sonnet.lines sonnet) (line_no - 1) ;;
      let span :=
        (Posting.position posting,
         Posting.position posting + Posting.token_length posting) in
      Ok (SearchResult.mk (Sonnet.title sonnet) []
            [LineMatch.mk line_no line_text [span]] 1)
  end.

Definition add_posting (self : t) (doc_id : Z)
  (results : dict Z SearchResult.t) (posting : Posting.t)
  : result (dict Z SearchResult.t) :=
  r <- posting_result self doc_id posting ;;
  match dict_get results doc_id with
  | None => Ok (dict_set results doc_id r)
  | Some cur => Ok (dict_set results doc_id (SearchResult.combine_with cur r))
  end.

Definition search_for (self : t) (token : str)
  : result (dict Z SearchResult.t) :=
  let results := [] in
  let stemmed_token := stem token in
  match dict_get (dictionary self) stemmed_token with
  | Some postings_list =>
      for_each
        (fun results '(doc_id, ps) =>
           for_each (add_posting self doc_id) ps results)
        postings_list results
  | None => Ok results
  end.

End Index.

Module Searcher.

Record t := mk { index : Index.t }.

Definition init (sonnets : list Sonnet.t) : t := mk (Index.init sonnets).

(** The [AND] branch: the documents of the running set that the new
    results have too. *)
Definition and_step (combined_results results : dict Z SearchResult.t)
  : dict Z SearchResult.t :=
  fold_left
    (fun new_combined '(doc_id, cur) =>
       match dict_get results doc_id with
       | Some r => dict_set new_combined doc_id (SearchResult.combine_with cur r)
       | None => new_combined
       end)
    combined_results [].

(** The [OR] branch: the running set updated with the new results. *)
Definition or_step (combined_results results : dict Z SearchResult.t)
  : dict Z SearchResult.t :=
  fold_left
    (fun combined_results '(doc_id, r) =>
       match dict_get combined_results doc_id with
       | Some cur =>
           dict_set combined_results doc_id (SearchResult.combine_with cur r)
       | None => dict_set combined_results doc_id r
       end)
    results combined_results.

(** The body of the loop over the words. *)
Definition word_step (self : t) (search_mode : str)
  (combined_results : dict Z SearchResult.t) (word : str)
  : result (dict Z SearchResult.t) :=
  results <- Index.search_for (index self) word ;;
  if dict_is_empty combined_results then Ok results
  else if str_eqb search_mode (lit "AND") then
    Ok (and_step combined_results results)
  else if str_eqb search_mode (lit "OR") then
    Ok (or_step combined_results results)
  else Ok combined_results.

(** The dictionary [combined_results] after the loop. *)
Definition combined (self : t) (query search_mode : str)
  : result (dict Z SearchResult.t) :=
  let words := split query in
  for_each (word_step self search_mode) words [].

Definition search (self : t) (query search_mode : str)
  : result (list SearchResult.t) :=
  combined_results <- combined self query search_mode ;;
  let results := dict_values combined_results in
  Ok (sorted_by_str SearchResult.title results).

End Searcher.

(** ** The corpus of the specification's scenario *)

Module Scenario.

Definition doc1 : Sonnet.t :=
  Sonnet.mk (lit "Sonnet 1: Test")
    [lit "From fairest creatures we desire increase"] 1.

Definition doc2 : Sonnet.t :=
  Sonnet.mk (lit "Sonnet 2: Other")
    [lit "Thy beauty's image dost thou rose increase"] 2.

Definition searcher : Searcher.t := Searcher.init [doc1; doc2].

(** Three partial results about one document. *)
Definition res_a : SearchResult.t :=
  SearchResult.mk (lit "Sonnet 2: Other") [(0, 6)]
    [LineMatch.mk 1 (lit "Thy beauty's image dost thou rose increase") [(29, 33)]]
    2.

Definition res_b : SearchResult.t :=
  SearchResult.mk (lit "Sonnet 2: Other") []
    [LineMatch.mk 1 (lit "Thy beauty's image dost thou rose increase") [(34, 42)]]
    1.

Definition res_c : SearchResult.t :=
  SearchResult.mk (lit "Sonnet 2: Other") [(10, 15)] [] 1.

End Scenario.

(** ** Vocabulary of the properties *)

(** The line numbers of a list of line matches, the spans recorded for one
    line, and all (line number, span) pairs. *)
Definition line_numbers (lms : list LineMatch.t) : list Z :=
  map LineMatch.line_no lms.

Definition spans_at (ln : Z) (lms : list LineMatch.t) : list Span :=
  flat_map LineMatch.spans
    (filter (fun lm => LineMatch.line_no lm =? ln) lms).

Definition line_span_pairs (lms : list LineMatch.t) : list (Z * Span) :=
  flat_map (fun lm => map (pair (LineMatch.line_no lm)) (LineMatch.spans lm))
    lms.

(** The data model's condition on a result: at most one [LineMatch] per line
    number. *)
Definition one_entry_per_line (r : SearchResult.t) : Prop :=
  NoDup (line_numbers (SearchResult.line_matches r)).

(** The number of spans a result holds, and the invariant that relates it
    to the match count. *)
Definition span_total (r : SearchResult.t) : Z :=
  len (SearchResult.title_spans r) +
  fold_right (fun lm acc => len (LineMatch.spans lm) + acc) 0
    (SearchResult.line_matches r).

Definition count_invariant (r : SearchResult.t) : Prop :=
  SearchResult.matches r = span_total r.

(** A key type whose test decides equality. *)
Class KeyLaws (K : Type) `{Key K} :=
  key_eqb_spec : forall a b : K, reflect (a = b) (key_eqb a b).

(** Every entry of [lines_by_no] sits under its own line number, and the
    keys are pairwise distinct. *)
Definition keyed (d : dict Z LineMatch.t) : Prop :=
  NoDup (dict_keys d) /\
  Forall (fun kv => LineMatch.line_no (snd kv) = fst kv) d.

(** The spans held under a line number of [lines_by_no]. *)
Definition entry_spans (d : dict Z LineMatch.t) (ln : Z) : list Span :=
  match dict_get d ln with
  | Some lm => LineMatch.spans lm
  | None => []
  end.

(** Two results agree in their numeric and membership effects: the same
    match count, the same multiset of title spans, the same multiset of
    (line number, span) pairs. *)
Definition same_effect (x y : SearchResult.t) : Prop :=
  SearchResult.matches x = SearchResult.matches y /\
  Permutation (SearchResult.title_spans x) (SearchResult.title_spans y) /\
  Permutation (line_span_pairs (SearchResult.line_matches x))
              (line_span_pairs (SearchResult.line_matches y)).

(** Tuple order on spans: by start, then by end. *)
Definition span_le (x y : Span) : Prop :=
  fst x < fst y \/ (fst x = fst y /\ snd x <= snd y).

(** Line matches in strictly ascending order of line number. *)
Definition ascending_lines (lms : list LineMatch.t) : Prop :=
  StronglySorted (fun x y => LineMatch.line_no x < LineMatch.line_no y) lms.

(** A posting fits a sonnet when its line number, if any, is one of the
    sonnet's lines. *)
Definition posting_ok (s : Sonnet.t) (p : Posting.t) : Prop :=
  match Posting.line_no p with
  | None => True
  | Some n => 1 <= n <= len (Sonnet.lines s)
  end.

(** The postings of a dictionary all refer to stored sonnets and to lines
    these have; the documents of one posting list are pairwise distinct. *)
Definition dictionary_ok (sonnets : dict Z Sonnet.t)
  (dictionary : dict str Index.postings) : Prop :=
  forall token pl, dict_get dictionary token = Some pl ->
    NoDup (dict_keys pl) /\
    forall doc_id ps, In (doc_id, ps) pl ->
      exists s, dict_get sonnets doc_id = Some s /\ Forall (posting_ok s) ps.

Definition index_ok (idx : Index.t) : Prop :=
  dictionary_ok (Index.sonnets idx) (Index.dictionary idx).

(** The span a posting stands for, the title postings of a list, and the
    (line number, span) pairs of its line postings. *)
Definition posting_span (p : Posting.t) : Span :=
  (Posting.position p, Posting.position p + Posting.token_length p).

Definition title_postings (ps : list Posting.t) : list Posting.t :=
  filter (fun p => match Posting.line_no p with None => true | Some _ => false end)
    ps.

Definition line_posting_pairs (ps : list Posting.t) : list (Z * Span) :=
  flat_map
    (fun p => match Posting.line_no p with
              | Some n => [(n, posting_span p)]
              | None => []
              end) ps.

(** The result [posting_result] builds for a posting that fits the sonnet. *)
Definition minimal_result (s : Sonnet.t) (p : Posting.t) : SearchResult.t :=
  match Posting.line_no p with
  | None => SearchResult.mk (Sonnet.title s) [posting_span p] [] 1
  | Some n =>
      SearchResult.mk (Sonnet.title s) []
        [LineMatch.mk n (nth (Z.to_nat (n - 1)) (Sonnet.lines s) [])
           [posting_span p]] 1
  end.

(** The inner loop of [search_for] on results that are already built. *)
Definition add_results (doc_id : Z) (rs : list SearchResult.t)
  (results : dict Z SearchResult.t) : dict Z SearchResult.t :=
  fold_left
    (fun results r =>
       match dict_get results doc_id with
       | None => dict_set results doc_id r
       | Some cur => dict_set results doc_id (SearchResult.combine_with cur r)
       end) rs results.

(** The entries [search_for] produces for a posting list: per document
    with at least one posting, the results of its postings combined from the
    left. *)
Definition doc_entries (sonnets : dict Z Sonnet.t) (pl : Index.postings)
  : dict Z SearchResult.t :=
  flat_map
    (fun '(doc_id, ps) =>
       match dict_get sonnets doc_id with
       | Some s =>
           match map (minimal_result s) ps with
           | [] => []
           | r0 :: rs => [(doc_id, fold_left SearchResult.combine_with rs r0)]
           end
       | None => []
       end) pl.

(** What the searcher maintains for every result it holds. *)
Definition good (r : SearchResult.t) : Prop :=
  count_invariant r /\ one_entry_per_line r.

Definition all_good (d : dict Z SearchResult.t) : Prop :=
  Forall (fun kv => good (snd kv)) d.

(** A call signals an invalid argument when it raises [ValueError]. *)
Definition signals_invalid_argument {A} (r : result A) : Prop :=
  r = Raise ValueError.

(** ** Vocabulary of the highlighter *)

(** A span is a half-open interval [start, end) of character positions. *)
Definition wf_span (sp : Span) : Prop := 0 <= fst sp <= snd sp.

Definition covers (sp : Span) (k : Z) : Prop := fst sp <= k < snd sp.

(** Regions in ascending order with a gap between neighbours. *)
Definition separated (regions : list Span) : Prop :=
  Sorted (fun a b => snd a < fst b) regions.

Definition by_start (spans : list Span) : Prop :=
  StronglySorted (fun a b => fst a <= fst b) spans.

(** The merging loop as a recursion on the remaining spans. *)
Fixpoint merge_from (current_start current_end : Z) (rest : list Span)
  : list Span :=
  match rest with
  | [] => [(current_start, current_end)]
  | (s, e) :: rest' =>
      if s <=? current_end
      then merge_from current_start (Z.max current_end e) rest'
      else (current_start, current_end) :: merge_from s e rest'
  end.

(** The output loop as a recursion: the pairs (text before a region, text
    of the region), and the position after the last region. *)
Fixpoint pieces_from (text : str) (i : Z) (merged : list Span)
  : list (str * str) :=
  match merged with
  | [] => []
  | (s, e) :: merged' =>
      (slice_range text i s, slice_range text s e) :: pieces_from text e merged'
  end.

Definition last_end (i : Z) (merged : list Span) : Z :=
  fold_left (fun _ sp => snd sp) merged i.

(** A text with markers around some pieces, and the same without them. *)
Definition render (ansi_sequence : str) (pieces : list (str * str))
  (rest : str) : str :=
  concat
    (map (fun ph => fst ph ++ ansi_sequence ++ snd ph ++ SearchResult.ansi_reset)
       pieces) ++ rest.

Definition unmarked (pieces : list (str * str)) (rest : str) : str :=
  concat (map (fun ph => fst ph ++ snd ph) pieces) ++ rest.

Definition ansi_sequence_of (highlight_mode : str) : str :=
  if str_eqb highlight_mode (lit "DEFAULT") then SearchResult.ansi_default
  else SearchResult.ansi_green.

(** ** [combine_with] on objects in a store

    For the question of what [combine_with] mutates, the results are
    objects in a store.  A location holds a list of spans, a [LineMatch], a
    list of [LineMatch] references or a [SearchResult]; attributes that
    hold lists or objects hold their locations, so that aliasing is
    visible.  The dictionary [lines_by_no] is local to the call and maps
    line numbers to locations. *)

Module Heap.

Definition loc := nat.

Inductive obj :=
| OSpans (items : list Span)
| OLineMatch (line_no : Z) (text : str) (spans : loc)
| OLineMatches (items : list loc)
| OSearchResult (title : str) (title_spans : loc) (line_matches : loc)
    (matches : Z).

Definition heap := list obj.

(** Computations on the store; [None] is a use of a location that does not
    hold an object of the expected class. *)
Definition M (A : Type) := heap -> option (A * heap).

Definition ret {A} (a : A) : M A := fun h => Some (a, h).

Definition bind {A B} (m : M A) (f : A -> M B) : M B :=
  fun h => match m h with
           | Some (a, h') => f a h'
           | None => None
           end.

Definition fail {A} : M A := fun _ => None.

Notation "x <~ m ;; k" := (bind m (fun x => k))
  (at level 61, m at next level, right associativity).

(** A new object. *)
Definition alloc (o : obj) : M loc := fun h => Some (length h, h ++ [o]).

Definition read (l : loc) : M obj :=
  fun h => match nth_error h l with
           | Some o => Some (o, h)
           | None => None
           end.

Fixpoint update (h : heap) (l : loc) (o : obj) : heap :=
  match h, l with
  | [], _ => []
  | _ :: h', O => o :: h'
  | x :: h', S l' => x :: update h' l' o
  end.

Definition write (l : loc) (o : obj) : M unit :=
  fun h => match nth_error h l with
           | Some _ => Some (tt, update h l o)
           | None => None
           end.

Fixpoint for_each {A S} (body : S -> A -> M S) (l : list A) (st : S) : M S :=
  match l with
  | [] => ret st
  | x :: l' => st' <~ body st x ;; for_each body l' st'
  end.

(** A list comprehension. *)
Fixpoint map_each {A B} (f : A -> M B) (l : list A) : M (list B) :=
  match l with
  | [] => ret []
  | x :: l' => y <~ f x ;; ys <~ map_each f l' ;; ret (y :: ys)
  end.

(** The items of the two kinds of list objects. *)
Definition span_items (l : loc) : M (list Span) :=
  o <~ read l ;; match o with OSpans s => ret s | _ => fail end.

Definition ref_items (l : loc) : M (list loc) :=
  o <~ read l ;; match o with OLineMatches r => ret r | _ => fail end.

(** Attribute reads. *)
Definition lm_line_no (self : loc) : M Z :=
  o <~ read self ;; match o with OLineMatch ln _ _ => ret ln | _ => fail end.
Definition lm_text (self : loc) : M str :=
  o <~ read self ;; match o with OLineMatch _ t _ => ret t | _ => fail end.
Definition lm_spans (self : loc) : M loc :=
  o <~ read self ;; match o with OLineMatch _ _ sp => ret sp | _ => fail end.

Definition sr_title (self : loc) : M str :=
  o <~ read self ;; match o with OSearchResult t _ _ _ => ret t | _ => fail end.
Definition sr_title_spans (self : loc) : M loc :=
  o <~ read self ;; match o with OSearchResult _ ts _ _ => ret ts | _ => fail end.
Definition sr_line_matches (self : loc) : M loc :=
  o <~ read self ;; match o with OSearchResult _ _ lms _ => ret lms | _ => fail end.
Definition sr_matches (self : loc) : M Z :=
  o <~ read self ;; match o with OSearchResult _ _ _ m => ret m | _ => fail end.

(** Attribute assignments. *)
Definition lm_set_spans (self v : loc) : M unit :=
  o <~ read self ;;
  match o with
  | OLineMatch ln t _ => write self (OLineMatch ln t v)
  | _ => fail
  end.

Definition sr_set_matches (self : loc) (v : Z) : M unit :=
  o <~ read self ;;
  match o with
  | OSearchResult t ts lms _ => write self (OSearchResult t ts lms v)
  | _ => fail
  end.

Definition sr_set_title_spans (self v : loc) : M unit :=
  o <~ read self ;;
  match o with
  | OSearchResult t _ lms m => write self (OSearchResult t v lms m)
  | _ => fail
  end.

Definition sr_set_line_matches (self v : loc) : M unit :=
  o <~ read self ;;
  match o with
  | OSearchResult t ts _ m => write self (OSearchResult t ts v m)
  | _ => fail
  end.

(** [list(x)], [x + y] and [sorted(x)] on lists of spans: each is a new
    list. *)
Definition list_copy (x : loc) : M loc :=
  a <~ span_items x ;; alloc (OSpans a).

Definition list_concat (x y : loc) : M loc :=
  a <~ span_items x ;; b <~ span_items y ;; alloc (OSpans (a ++ b)).

Definition list_sorted (x : loc) : M loc :=
  a <~ span_items x ;; alloc (OSpans (sorted span_leb a)).

(** [LineMatch.copy] *)
Definition LineMatch_copy (self : loc) : M loc :=
  ln <~ lm_line_no self ;;
  t <~ lm_text self ;;
  sp <~ lm_spans self ;;
  sp' <~ list_copy sp ;;
  alloc (OLineMatch ln t sp').

(** [SearchResult.copy] *)
Definition SearchResult_copy (self : loc) : M loc :=
  t <~ sr_title self ;;
  ts <~ sr_title_spans self ;;
  ts' <~ list_copy ts ;;
  lms <~ sr_line_matches self ;;
  refs <~ ref_items lms ;;
  refs' <~ map_each LineMatch_copy refs ;;
  lms' <~ alloc (OLineMatches refs') ;;
  m <~ sr_matches self ;;
  alloc (OSearchResult t ts' lms' m).

(** The two loops that fill [lines_by_no]. *)
Definition own_line (lines_by_no : dict Z loc) (lm : loc) : M (dict Z loc) :=
  ln <~ lm_line_no lm ;;
  c <~ LineMatch_copy lm ;;
  ret (dict_set lines_by_no ln c).

Definition add_line (lines_by_no : dict Z loc) (lm : loc) : M (dict Z loc) :=
  ln <~ lm_line_no lm ;;
  match dict_get lines_by_no ln with
  | Some cur =>
      a <~ lm_spans cur ;;
      b <~ lm_spans lm ;;
      ab <~ list_concat a b ;;
      _ <~ lm_set_spans cur ab ;;
      ret lines_by_no
  | None =>
      c <~ LineMatch_copy lm ;;
      ret (dict_set lines_by_no ln c)
  end.

(** [SearchResult.combine_with] *)
Definition combine_with (self other : loc) : M loc :=
  combined <~ SearchResult_copy self ;;
  m1 <~ sr_matches self ;;
  m2 <~ sr_matches other ;;
  _ <~ sr_set_matches combined (m1 + m2) ;;
  ts1 <~ sr_title_spans self ;;
  ts2 <~ sr_title_spans other ;;
  both <~ list_concat ts1 ts2 ;;
  in_order <~ list_sorted both ;;
  _ <~ sr_set_title_spans combined in_order ;;
  lms1 <~ sr_line_matches self ;;
  refs1 <~ ref_items lms1 ;;
  lines_by_no <~ for_each own_line refs1 [] ;;
  lms2 <~ sr_line_matches other ;;
  refs2 <~ ref_items lms2 ;;
  lines_by_no <~ for_each add_line refs2 lines_by_no ;;
  keyed <~ map_each (fun l => ln <~ lm_line_no l ;; ret (ln, l))
             (dict_values lines_by_no) ;;
  by_line <~
    alloc (OLineMatches
             (map snd (sorted (fun x y => fst x <=? fst y) keyed))) ;;
  _ <~ sr_set_line_matches combined by_line ;;
  ret combined.

(** The store holds the value [r] at [l]. *)
Definition repr_spans (h : heap) (l : loc) (s : list Span) : Prop :=
  nth_error h l = Some (OSpans s).

Definition repr_lm (h : heap) (l : loc) (lm : LineMatch.t) : Prop :=
  exists sp,
    nth_error h l =
      Some (OLineMatch (LineMatch.line_no lm) (LineMatch.text lm) sp) /\
    repr_spans h sp (LineMatch.spans lm).

Definition repr (h : heap) (l : loc) (r : SearchResult.t) : Prop :=
  exists ts lms refs,
    nth_error h l =
      Some (OSearchResult (SearchResult.title r) ts lms (SearchResult.matches r)) /\
    repr_spans h ts (SearchResult.title_spans r) /\
    nth_error h lms = Some (OLineMatches refs) /\
    Forall2 (repr_lm h) refs (SearchResult.line_matches r).

(** A store with two results that share nothing, and one in which the
    second result shares the first one's line match. *)
Definition two_results : heap :=
  [ OSpans [(0, 6)];
    OSpans [(29, 33)];
    OLineMatch 1 (lit "Thy beauty's image dost thou rose increase") 1%nat;
    OLineMatches [2%nat];
    OSearchResult (lit "Sonnet 2: Other") 0%nat 3%nat 2;
    OSpans [];
    OSpans [(34, 42)];
    OLineMatch 1 (lit "Thy beauty's image dost thou rose increase") 6%nat;
    OLineMatches [7%nat];
    OSearchResult (lit "Sonnet 2: Other") 5%nat 8%nat 1 ].

End Heap.

(** *** Vocabulary for the store *)

(** [h'] has every location of [h]; what lies below [base] is as in [h],
    and so is every object outside the class [LineMatch]. *)
Definition keeps (base : nat) (h h' : Heap.heap) : Prop :=
  (length h <= length h')%nat /\
  forall l o, nth_error h l = Some o ->
    (l < base)%nat \/ (forall ln t sp, o <> Heap.OLineMatch ln t sp) ->
    nth_error h' l = Some o.

(** The local dictionary [d] of locations stands for the dictionary [pd] of
    line matches; its locations were made after [base] and are pairwise
    distinct. *)
Definition lines_repr (base : nat) (h : Heap.heap) (d : dict Z Heap.loc)
  (pd : dict Z LineMatch.t) : Prop :=
  Forall2 (fun e pe => fst e = fst pe /\ Heap.repr_lm h (snd e) (snd pe)) d pd /\
  NoDup (dict_values d) /\
  Forall (fun e => (base <= snd e)%nat) d.

(** ** Vocabulary of the substring search *)

(** [pattern] occurs in [text] at offset [s]. *)
Definition occurs_at (text pattern : str) (s : Z) : Prop :=
  exists pre post, text = pre ++ pattern ++ post /\ len pre = s.

(** The matches the substring search reports for one line. *)
Definition line_hits (q : str) (idx_line : Z * str) : list LineMatch.t :=
  match Sonnet.find_spans (lower (snd idx_line)) q with
  | [] => []
  | sp :: spans => [LineMatch.mk (fst idx_line) (snd idx_line) (sp :: spans)]
  end.

(** ** Vocabulary of the further properties *)

(** The token without apostrophes, commas and periods. *)
Definition strip_punctuation (token : str) : str :=
  filter (fun c => negb (StemSpec.is_stripped c)) token.



(** ** Vocabulary of the tokenizer *)

(** A text that is empty or ends with a space character, and one that is
    empty or starts with one. *)
Definition space_or_start (a : str) : Prop :=
  a = [] \/ exists a' c, a = a' ++ [c] /\ isspace c = true.

Definition space_or_end (b : str) : Prop :=
  b = [] \/ exists c b', b = c :: b' /\ isspace c = true.

(** [t] is a maximal run of non-space characters of [text] at offset [p]. *)
Definition token_at (text t : str) (p : Z) : Prop :=
  t <> [] /\ Forall (fun c => isspace c = false) t /\
  exists a b,
    text = a ++ t ++ b /\ len a = p /\ space_or_start a /\ space_or_end b.

(** What [runs_from] has read so far: the run in progress, if any, ends the
    text read, and before it the text is empty or ends with a space. *)
Definition scan_state (pre : str) (cur : option (str * Z)) : Prop :=
  match cur with
  | None => space_or_start pre
  | Some (tok, start) =>
      tok <> [] /\ Forall (fun c => isspace c = false) tok /\
      exists pre0, pre = pre0 ++ rev tok /\ len pre0 = start /\
                   space_or_start pre0
  end.

(** The offset from which [runs_from] still reports tokens. *)
Definition scan_from (i : Z) (cur : option (str * Z)) : Z :=
  match cur with
  | None => i
  | Some (_, start) => start
  end.

(** Tokens in reading order with at least one character between them. *)
Definition apart (tokens : list (str * Z)) : Prop :=
  StronglySorted (fun x y => snd x + len (fst x) < snd y) tokens.

(** The run in progress ends where the scan stands. *)
Definition scan_aligned (i : Z) (cur : option (str * Z)) : Prop :=
  match cur with
  | None => True
  | Some (tok, start) => start + len tok = i
  end.

(** ** Vocabulary of the index contents *)

(** [text] is the title of the sonnet ([None]) or its line [n], counted
    from 1. *)
Definition text_at (s : Sonnet.t) (line_no : option Z) (text : str) : Prop :=
  match line_no with
  | None => text = Sonnet.title s
  | Some n => 1 <= n /\ nth_error (Sonnet.lines s) (Z.to_nat (n - 1)) = Some text
  end.

(** The posting [p] stands for a token of [text] whose stem is [k]. *)
Definition token_posting (text k : str) (p : Posting.t) : Prop :=
  exists tok,
    In (tok, Posting.position p) (Index.tokenize text) /\
    Posting.token_length p = len tok /\ stem tok = k.

(** The posting [p] under the key [k] and the document [d] stands for a
    token of a sonnet of the list with that identifier. *)
Definition occurrence (sonnets : list Sonnet.t) (k : str) (d : Z)
  (p : Posting.t) : Prop :=
  exists s text,
    In s sonnets /\ Sonnet.id s = d /\ text_at s (Posting.line_no p) text /\
    token_posting text k p.

(** The dictionary holds the posting [p] under [k] and [d]. *)
Definition has_posting (dictionary : dict str Index.postings) (k : str) (d : Z)
  (p : Posting.t) : Prop :=
  exists pl ps,
    dict_get dictionary k = Some pl /\ dict_get pl d = Some ps /\ In p ps.

(** A span of a result stands for a token of [text] with the stem of the
    query [q]. *)
Definition token_span (text q : str) (sp : Span) : Prop :=
  exists tok,
    In (tok, fst sp) (Index.tokenize text) /\ snd sp = fst sp + len tok /\
    stem tok = stem q.

(** A line match names a line of the sonnet and carries its text. *)
Definition line_of (s : Sonnet.t) (lm : LineMatch.t) : Prop :=
  text_at s (Some (LineMatch.line_no lm)) (LineMatch.text lm).

(** ** Vocabulary of the searcher's results *)

(** The result of a document under [OR] and under [AND], from its results
    for the two words. *)
Definition merge_or (a b : option SearchResult.t) : option SearchResult.t :=
  match a, b with
  | Some x, Some y => Some (SearchResult.combine_with x y)
  | Some x, None => Some x
  | None, Some y => Some y
  | None, None => None
  end.

Definition merge_and (a b : option SearchResult.t) : option SearchResult.t :=
  match a, b with
  | Some x, Some y => Some (SearchResult.combine_with x y)
  | _, _ => None
  end.

(** The result carries the title of a sonnet of the list. *)
Definition titled (sonnets : list Sonnet.t) (r : SearchResult.t) : Prop :=
  exists s, In s sonnets /\ SearchResult.title r = Sonnet.title s.

(** The sonnet with the identifier [d] has, in its title or in a line, a
    token with the stem of the word [w]. *)
Definition mentions (sonnets : list Sonnet.t) (d : Z) (w : str) : Prop :=
  exists p, occurrence sonnets (stem w) d p.

(** The index's result for the word [w] and the document [d], if any. *)
Definition found (idx : Index.t) (w : str) (d : Z) : option SearchResult.t :=
  match Index.search_for idx w with
  | Ok results => dict_get results d
  | Raise _ => None
  end.

(** [a.title <= b.title] *)
Definition title_le (a b : SearchResult.t) : Prop :=
  str_leb (SearchResult.title a) (SearchResult.title b) = true.

(** The line match at [l] and its list of spans were made after [base]. *)
Definition fresh_lm (base : nat) (h : Heap.heap) (l : Heap.loc) : Prop :=
  (base <= l)%nat /\
  exists ln t sp,
    nth_error h l = Some (Heap.OLineMatch ln t sp) /\ (base <= sp)%nat.

(** The result at [l], its list of title spans, its list of line matches,
    the line matches in it and their lists of spans were all made after
    [base]. *)
Definition fresh_result (base : nat) (h : Heap.heap) (l : Heap.loc) : Prop :=
  (base <= l)%nat /\
  exists t ts lms refs m,
    nth_error h l = Some (Heap.OSearchResult t ts lms m) /\
    (base <= ts)%nat /\ (base <= lms)%nat /\
    nth_error h lms = Some (Heap.OLineMatches refs) /\
    Forall (fresh_lm base h) refs.

(* ================================================================== *)
(** * Properties *)

(** ** Stemmer *)

Lemma slice_upto_neg (w : str) (n : nat) :
  (0 < n)%nat -> slice_upto w (- Z.of_nat n) = StemSpec.drop_last n w.
Proof.
  intros Hn. unfold slice_upto, slice, norm_index, StemSpec.drop_last, len.
  destruct (Z.ltb_spec (- Z.of_nat n) 0) as [_|H]; [|lia].
  cbn [skipn Z.to_nat]. f_equal. lia.
Qed.

Lemma replace_char_filter (c : ascii) (s : str) :
  replace s [c] [] = filter (fun x => negb (Ascii.eqb c x)) s.
Proof.
  unfold replace. induction s as [|x s IH]; [reflexivity|].
  cbn [replace_from startswith length Nat.sub filter].
  assert (Hnil : startswith s [] = true) by (destruct s; reflexivity).
  rewrite Hnil.
  destruct (Ascii.eqb c x); cbn [andb negb app]; rewrite IH; reflexivity.
Qed.

Lemma filter_filter {A} (p q : A -> bool) (l : list A) :
  filter q (filter p l) = filter (fun x => p x && q x) l.
Proof.
  induction l as [|x l IH]; [reflexivity|].
  cbn [filter]. destruct (p x); cbn [filter andb]; rewrite IH; reflexivity.
Qed.

Lemma lower_char_idem (c : ascii) : lower_char (lower_char c) = lower_char c.
Proof.
  destruct c as [[] [] [] [] [] [] [] []]; reflexivity.
Qed.

Lemma lower_idem (s : str) : lower (lower s) = lower s.
Proof.
  unfold lower. rewrite map_map. apply map_ext. exact lower_char_idem.
Qed.

Lemma normalize_spec (token : str) : normalize token = StemSpec.normalize token.
Proof.
  unfold normalize, StemSpec.normalize, lit. cbn [list_ascii_of_string].
  rewrite !replace_char_filter, !filter_filter. f_equal.
  apply filter_ext. intros c. unfold StemSpec.is_stripped.
  destruct (Ascii.eqb_spec "'" c), (Ascii.eqb_spec "," c), (Ascii.eqb_spec "." c);
    subst; try discriminate; cbn;
    repeat match goal with
    | |- context [Ascii.eqb ?a ?b] => destruct (Ascii.eqb_spec a b); subst
    end; cbn; congruence.
Qed.

(** The three blocks of conditionals of [PorterStemmer.stem], one per
    pass, each against its rule table. *)

Ltac drop_last_form :=
  change (-1) with (- Z.of_nat 1); change (-2) with (- Z.of_nat 2);
  change (-3) with (- Z.of_nat 3); change (-4) with (- Z.of_nat 4);
  change (-5) with (- Z.of_nat 5);
  rewrite ?slice_upto_neg by lia.

Ltac split_suffix_tests :=
  repeat match goal with
  | |- context [endswith ?w ?s] => destruct (endswith w s); cbn [andb]
  end.

Lemma step_1a_spec (word : str) :
  (if endswith word (lit "sses") then slice_upto word (-2)
   else if endswith word (lit "ies") then slice_upto word (-2)
   else if endswith word (lit "ss") then word
   else if endswith word (lit "s") then slice_upto word (-1)
   else word) = StemSpec.first_match StemSpec.pass1 word.
Proof.
  drop_last_form.
  cbn [StemSpec.first_match StemSpec.pass1 StemSpec.suffix StemSpec.guard
       StemSpec.action StemSpec.always].
  split_suffix_tests; reflexivity.
Qed.

Lemma longer_than_len (n : nat) (w : str) :
  (len w >? Z.of_nat n) = StemSpec.longer_than n w.
Proof.
  unfold StemSpec.longer_than, len.
  destruct (Nat.ltb_spec n (length w)); lia.
Qed.

(** In pass 2 the code selects the branch by the suffix alone and tests the
    length inside it, while the table tests suffix and length together: a
    word that fails the length test of one rule fails those of the rules
    after it too. *)
Lemma step_1b_spec (word : str) :
  (if endswith word (lit "eed") then
     if len word >? 4 then slice_upto word (-1) else word
   else if endswith word (lit "ed") then
     if len word >? 4 then slice_upto word (-2) else word
   else if endswith word (lit "ing") then
     if len word >? 5 then slice_upto word (-3) else word
   else word) = StemSpec.first_match StemSpec.pass2 word.
Proof.
  drop_last_form.
  change 4 with (Z.of_nat 4); change 5 with (Z.of_nat 5).
  rewrite !longer_than_len.
  cbn [StemSpec.first_match StemSpec.pass2 StemSpec.suffix StemSpec.guard
       StemSpec.action].
  unfold StemSpec.longer_than.
  destruct (Nat.ltb_spec 4 (length word)) as [H4|H4];
    destruct (Nat.ltb_spec 5 (length word)) as [H5|H5];
    try lia; split_suffix_tests; reflexivity.
Qed.

Lemma step_2_spec (word : str) :
  (if endswith word (lit "ational") then slice_upto word (-5) ++ lit "e"
   else if endswith word (lit "tion") then slice_upto word (-4) ++ lit "t"
   else if endswith word (lit "ness") then slice_upto word (-4)
   else if endswith word (lit "ment") then slice_upto word (-4)
   else if endswith word (lit "able") then slice_upto word (-4)
   else if endswith word (lit "ible") then slice_upto word (-4)
   else if endswith word (lit "ful") then slice_upto word (-3)
   else if endswith word (lit "ous") then slice_upto word (-3)
   else if endswith word (lit "ive") then slice_upto word (-3)
   else if endswith word (lit "ly") then slice_upto word (-2)
   else word) = StemSpec.first_match StemSpec.pass3 word.
Proof.
  drop_last_form.
  cbn [StemSpec.first_match StemSpec.pass3 StemSpec.suffix StemSpec.guard
       StemSpec.action StemSpec.always].
  split_suffix_tests; reflexivity.
Qed.

(** C3 (as the code has it): the listed outputs of [stem], where the third
    input ["beauty's"] loses its apostrophe and then, by the ['s'] rule of
    pass 1, its final [s]. *)
Theorem stem_listed_outputs :
  stem (lit "Sonnets") = lit "sonnet" /\
  stem (lit "loving") = lit "lov" /\
  stem (lit "beauty's") = lit "beauty".
Proof. repeat split; vm_compute; reflexivity. Qed.

(** C3, third listed output: [stem "beauty's"] is not ["beautys"]. *)
Lemma stem_beautys_counterexample :
  ~ (stem (lit "Sonnets") = lit "sonnet" /\
     stem (lit "loving") = lit "lov" /\
     stem (lit "beauty's") = lit "beautys").
Proof. intros (_ & _ & H). vm_compute in H. discriminate H. Qed.

(** C7: [stem] is the reference pipeline of the specification: normalise
    (strip apostrophe, comma and period everywhere, lowercase), then the
    three first-match rule tables in sequence. *)
Theorem stem_refines_spec (token : str) : stem token = StemSpec.stem token.
Proof.
  unfold stem, StemSpec.stem, PorterStemmer.stem. cbv zeta.
  rewrite normalize_spec.
  assert (Hlow : lower (StemSpec.normalize token) = StemSpec.normalize token)
    by (unfold StemSpec.normalize; apply lower_idem).
  rewrite Hlow.
  rewrite step_1a_spec, step_1b_spec, step_2_spec. reflexivity.
Qed.

(** ** Dictionaries *)

Lemma str_eqb_spec (a b : str) : reflect (a = b) (str_eqb a b).
Proof.
  revert b. induction a as [|x a IH]; intros [|y b]; cbn;
    try (constructor; congruence).
  destruct (Ascii.eqb_spec x y) as [->|Hne]; cbn.
  - destruct (IH b) as [->|Hne]; constructor; congruence.
  - constructor; congruence.
Qed.

#[export] Instance Z_KeyLaws : KeyLaws Z.
Proof. exact Z.eqb_spec. Qed.

#[export] Instance str_KeyLaws : KeyLaws str.
Proof. exact str_eqb_spec. Qed.

Section DictFacts.
Context {K V : Type} `{KeyLaws K}.
Implicit Types (d : dict K V) (k : K) (v : V).

Lemma dict_get_set_same d k v : dict_get (dict_set d k v) k = Some v.
Proof.
  induction d as [|[k' v'] d IH]; cbn.
  - destruct (key_eqb_spec k k); congruence.
  - destruct (key_eqb_spec k' k) as [->|Hne]; cbn.
    + destruct (key_eqb_spec k k); congruence.
    + destruct (key_eqb_spec k' k); congruence.
Qed.

Lemma dict_get_set_other d k k' v :
  k <> k' -> dict_get (dict_set d k v) k' = dict_get d k'.
Proof.
  intros Hne. induction d as [|[k0 v0] d IH]; cbn.
  - destruct (key_eqb_spec k k'); congruence.
  - destruct (key_eqb_spec k0 k) as [->|Hk]; cbn.
    + destruct (key_eqb_spec k k'); congruence.
    + rewrite IH. reflexivity.
Qed.

Lemma dict_get_none d k : dict_get d k = None <-> ~ In k (dict_keys d).
Proof.
  induction d as [|[k' v'] d IH]; cbn.
  - tauto.
  - destruct (key_eqb_spec k' k) as [->|Hne].
    + split; [discriminate | tauto].
    + rewrite IH. tauto.
Qed.

Lemma dict_get_some_in d k v : dict_get d k = Some v -> In (k, v) d.
Proof.
  induction d as [|[k' v'] d IH]; cbn; [discriminate|].
  destruct (key_eqb_spec k' k) as [->|Hne].
  - intros [= ->]. now left.
  - intros Hg. right. now apply IH.
Qed.

Lemma dict_in_get d k v :
  NoDup (dict_keys d) -> In (k, v) d -> dict_get d k = Some v.
Proof.
  induction d as [|[k' v'] d IH]; cbn; [tauto|].
  intros Hnd [[= -> ->]|Hin].
  - destruct (key_eqb_spec k k); congruence.
  - inversion Hnd as [|? ? Hnotin Hnd']; subst.
    destruct (key_eqb_spec k' k) as [->|Hne].
    + exfalso. apply Hnotin. change k with (fst (k, v)). now apply in_map.
    + now apply IH.
Qed.

(** Assigning to a new key appends. *)
Lemma dict_set_new d k v : dict_get d k = None -> dict_set d k v = d ++ [(k, v)].
Proof.
  induction d as [|[k' v'] d IH]; cbn; [reflexivity|].
  destruct (key_eqb_spec k' k); [discriminate|].
  intros Hg. now rewrite IH.
Qed.

(** Assigning to a present key replaces its value in place. *)
Lemma dict_set_present d k v0 v :
  dict_get d k = Some v0 ->
  exists d1 d2,
    d = d1 ++ (k, v0) :: d2 /\ dict_set d k v = d1 ++ (k, v) :: d2 /\
    ~ In k (dict_keys d1).
Proof.
  induction d as [|[k' v'] d IH]; cbn; [discriminate|].
  destruct (key_eqb_spec k' k) as [->|Hne].
  - intros [= ->]. exists [], d. cbn. tauto.
  - intros Hg. destruct (IH Hg) as (d1 & d2 & -> & -> & Hnotin).
    exists ((k', v') :: d1), d2. cbn. intuition congruence.
Qed.

Lemma dict_keys_set d k v :
  dict_keys (dict_set d k v) =
  if dict_mem d k then dict_keys d else dict_keys d ++ [k].
Proof.
  unfold dict_mem. destruct (dict_get d k) as [v0|] eqn:Hg.
  - destruct (dict_set_present d k v0 v Hg) as (d1 & d2 & -> & -> & _).
    unfold dict_keys. now rewrite !map_app.
  - rewrite dict_set_new by assumption. unfold dict_keys.
    now rewrite map_app.
Qed.

Lemma dict_set_nodup d k v :
  NoDup (dict_keys d) -> NoDup (dict_keys (dict_set d k v)).
Proof.
  intros Hnd. rewrite dict_keys_set. unfold dict_mem.
  destruct (dict_get d k) eqn:Hg; [assumption|].
  apply dict_get_none in Hg.
  apply NoDup_rev in Hnd. rewrite <- (rev_involutive (_ ++ _)).
  apply NoDup_rev. rewrite rev_app_distr. cbn.
  constructor; [|assumption]. now rewrite <- in_rev.
Qed.

End DictFacts.

(** ** Sorting *)

Section SortedFacts.
Context {A : Type} (leb : A -> A -> bool).
Hypothesis leb_total : forall x y, leb x y = true \/ leb y x = true.
Hypothesis leb_trans :
  forall x y z, leb x y = true -> leb y z = true -> leb x z = true.

Lemma insert_sorted_perm (x : A) (l : list A) :
  Permutation (insert_sorted leb x l) (x :: l).
Proof.
  induction l as [|y l IH]; cbn; [reflexivity|].
  destruct (leb x y); [reflexivity|].
  rewrite IH. apply perm_swap.
Qed.

Lemma sorted_perm (l : list A) : Permutation (sorted leb l) l.
Proof.
  induction l as [|x l IH]; cbn; [reflexivity|].
  rewrite insert_sorted_perm. now constructor.
Qed.

Lemma insert_sorted_ordered (x : A) (l : list A) :
  StronglySorted (fun a b => leb a b = true) l ->
  StronglySorted (fun a b => leb a b = true) (insert_sorted leb x l).
Proof.
  induction l as [|y l IH]; cbn; intros Hs.
  - constructor; constructor.
  - destruct (leb x y) eqn:Hxy.
    + constructor; [assumption|].
      constructor; [assumption|].
      inversion Hs as [|? ? _ Hall]; subst.
      eapply Forall_impl; [|exact Hall]. intros z Hz. eauto.
    + inversion Hs as [|? ? Hs' Hall]; subst.
      constructor; [now apply IH|].
      assert (Hyx : leb y x = true)
        by (destruct (leb_total x y); congruence).
      rewrite (Forall_forall _ _). intros z Hz.
      apply (Permutation_in _ (insert_sorted_perm x l)) in Hz.
      destruct Hz as [<-|Hz]; [assumption|].
      rewrite Forall_forall in Hall. now apply Hall.
Qed.

Lemma sorted_ordered (l : list A) :
  StronglySorted (fun a b => leb a b = true) (sorted leb l).
Proof.
  induction l as [|x l IH]; cbn; [constructor|].
  now apply insert_sorted_ordered.
Qed.

(** A list that is already in order is left as it is. *)
Lemma sorted_fixed (l : list A) :
  StronglySorted (fun a b => leb a b = true) l -> sorted leb l = l.
Proof.
  unfold sorted.
  induction 1 as [|x l Hs IH Hall]; cbn [fold_right]; [reflexivity|].
  rewrite IH. destruct l as [|y l]; cbn; [reflexivity|].
  inversion Hall as [|? ? Hxy _]; subst. now rewrite Hxy.
Qed.
End SortedFacts.

Lemma span_leb_total (a b : Span) : span_leb a b = true \/ span_leb b a = true.
Proof. unfold span_leb. destruct a, b; cbn. lia. Qed.

Lemma span_leb_trans (a b c : Span) :
  span_leb a b = true -> span_leb b c = true -> span_leb a c = true.
Proof. unfold span_leb. destruct a, b, c; cbn. lia. Qed.

Section SortedByInt.
Context {A : Type} (key : A -> Z).

Lemma sorted_by_int_perm (l : list A) : Permutation (sorted_by_int key l) l.
Proof. apply sorted_perm. Qed.

Lemma sorted_by_int_ordered (l : list A) :
  StronglySorted (fun a b => key a <= key b) (sorted_by_int key l).
Proof.
  unfold sorted_by_int.
  eapply StronglySorted_ind with
    (P := fun l => StronglySorted (fun a b => key a <= key b) l);
    [constructor | | apply sorted_ordered with (leb := fun x y => key x <=? key y)].
  - intros a l0 _ IH Hall. constructor; [assumption|].
    eapply Forall_impl; [|exact Hall]. cbn. intros; lia.
  - intros; lia.
  - intros; lia.
Qed.

(** With pairwise distinct keys the order is strict. *)
Lemma sorted_by_int_strict (l : list A) :
  NoDup (map key l) ->
  StronglySorted (fun a b => key a < key b) (sorted_by_int key l).
Proof.
  intros Hnd.
  assert (Hnd' : NoDup (map key (sorted_by_int key l))).
  { eapply Permutation_NoDup; [|exact Hnd].
    apply Permutation_map, Permutation_sym, sorted_by_int_perm. }
  pose proof (sorted_by_int_ordered l) as Hs.
  induction Hs as [|x l0 Hs IH Hall]; [constructor|].
  cbn in Hnd'. inversion Hnd' as [|? ? Hnotin Hnd0]; subst.
  constructor; [now apply IH|].
  rewrite Forall_forall in Hall |- *. intros y Hy.
  specialize (Hall y Hy).
  assert (key x <> key y) by (intros Heq; apply Hnotin; rewrite Heq; now apply in_map).
  lia.
Qed.
End SortedByInt.

(** ** [combine_with] *)

Lemma LineMatch_copy_id (lm : LineMatch.t) : LineMatch.copy lm = lm.
Proof. now destruct lm. Qed.

Lemma SearchResult_copy_id (r : SearchResult.t) : SearchResult.copy r = r.
Proof.
  destruct r as [t ts lms m]. unfold SearchResult.copy. cbn. f_equal.
  rewrite <- (map_id lms) at 2. apply map_ext. exact LineMatch_copy_id.
Qed.

Lemma keyed_set (d : dict Z LineMatch.t) (lm : LineMatch.t) :
  keyed d -> keyed (dict_set d (LineMatch.line_no lm) lm).
Proof.
  intros [Hnd Hall]. split; [now apply dict_set_nodup|].
  destruct (dict_get d (LineMatch.line_no lm)) as [v0|] eqn:Hg.
  - destruct (dict_set_present d _ v0 lm Hg) as (d1 & d2 & -> & -> & _).
    rewrite Forall_app in Hall |- *. destruct Hall as [H1 H2].
    split; [assumption|]. inversion H2; subst. now constructor.
  - rewrite dict_set_new by assumption. rewrite Forall_app. split; [assumption|].
    now repeat constructor.
Qed.

Lemma keyed_values_lines (d : dict Z LineMatch.t) :
  keyed d -> line_numbers (dict_values d) = dict_keys d.
Proof.
  intros [_ Hall]. unfold line_numbers, dict_values, dict_keys.
  rewrite map_map. apply map_ext_in. intros kv Hin.
  rewrite Forall_forall in Hall. now apply Hall.
Qed.

Lemma own_lines_keyed_from (lms : list LineMatch.t) (d : dict Z LineMatch.t) :
  keyed d ->
  keyed (fold_left
           (fun d lm => dict_set d (LineMatch.line_no lm) (LineMatch.copy lm))
           lms d).
Proof.
  revert d. induction lms as [|lm lms IH]; cbn; intros d Hd; [assumption|].
  apply IH. rewrite LineMatch_copy_id. now apply keyed_set.
Qed.

Lemma own_lines_keyed (lms : list LineMatch.t) : keyed (SearchResult.own_lines lms).
Proof. apply own_lines_keyed_from. split; constructor. Qed.

(** With one entry per line the dictionary of the own lines lists them in
    their order. *)
Lemma own_lines_from_nodup (lms : list LineMatch.t) (d : dict Z LineMatch.t) :
  NoDup (dict_keys d ++ line_numbers lms) ->
  fold_left
    (fun d lm => dict_set d (LineMatch.line_no lm) (LineMatch.copy lm)) lms d
  = d ++ map (fun lm => (LineMatch.line_no lm, lm)) lms.
Proof.
  revert d. induction lms as [|lm lms IH]; cbn; intros d Hnd.
  - now rewrite app_nil_r.
  - rewrite LineMatch_copy_id.
    assert (Hnew : dict_get d (LineMatch.line_no lm) = None).
    { apply dict_get_none. apply NoDup_remove_2 in Hnd.
      intros Hin. apply Hnd. apply in_or_app. now left. }
    rewrite dict_set_new by assumption.
    rewrite IH.
    + now rewrite <- app_assoc.
    + unfold dict_keys. rewrite map_app. cbn. now rewrite <- app_assoc.
Qed.

Lemma own_lines_nodup (lms : list LineMatch.t) :
  NoDup (line_numbers lms) ->
  dict_values (SearchResult.own_lines lms) = lms.
Proof.
  intros Hnd. unfold SearchResult.own_lines.
  rewrite own_lines_from_nodup by exact Hnd. cbn.
  unfold dict_values. rewrite map_map. cbn. apply map_id.
Qed.

Lemma add_line_keyed (d : dict Z LineMatch.t) (lm : LineMatch.t) :
  keyed d -> keyed (SearchResult.add_line d lm).
Proof.
  intros Hd. unfold SearchResult.add_line.
  destruct (dict_get d (LineMatch.line_no lm)) as [cur|] eqn:Hg.
  - assert (Hcur : LineMatch.line_no cur = LineMatch.line_no lm).
    { destruct Hd as [_ Hall]. rewrite Forall_forall in Hall.
      apply (Hall (LineMatch.line_no lm, cur)). now apply dict_get_some_in. }
    pose proof (keyed_set d
      (LineMatch.set_spans cur (LineMatch.spans cur ++ LineMatch.spans lm)) Hd)
      as Hset.
    cbn [LineMatch.set_spans LineMatch.line_no] in Hset.
    now rewrite Hcur in Hset.
  - rewrite LineMatch_copy_id. now apply keyed_set.
Qed.

Lemma fold_add_line_keyed (lms : list LineMatch.t) (d : dict Z LineMatch.t) :
  keyed d -> keyed (fold_left SearchResult.add_line lms d).
Proof.
  revert d. induction lms as [|lm lms IH]; cbn; intros d Hd; [assumption|].
  apply IH. now apply add_line_keyed.
Qed.

Lemma spans_at_cons (ln : Z) (lm : LineMatch.t) (lms : list LineMatch.t) :
  spans_at ln (lm :: lms) =
  (if LineMatch.line_no lm =? ln then LineMatch.spans lm else []) ++
  spans_at ln lms.
Proof.
  unfold spans_at. cbn [filter].
  destruct (LineMatch.line_no lm =? ln); reflexivity.
Qed.

Lemma spans_at_absent (ln : Z) (lms : list LineMatch.t) :
  ~ In ln (line_numbers lms) -> spans_at ln lms = [].
Proof.
  induction lms as [|lm lms IH]; [reflexivity|].
  cbn [line_numbers map In]. intros Hnotin. rewrite spans_at_cons.
  destruct (Z.eqb_spec (LineMatch.line_no lm) ln); [tauto|].
  apply IH. unfold line_numbers. tauto.
Qed.

Lemma entry_spans_add_line (d : dict Z LineMatch.t) (lm : LineMatch.t) (ln : Z) :
  entry_spans (SearchResult.add_line d lm) ln =
  entry_spans d ln ++
  (if LineMatch.line_no lm =? ln then LineMatch.spans lm else []).
Proof.
  unfold entry_spans, SearchResult.add_line.
  destruct (Z.eqb_spec (LineMatch.line_no lm) ln) as [<-|Hne].
  - destruct (dict_get d (LineMatch.line_no lm)) as [cur|] eqn:Hg;
      rewrite dict_get_set_same; reflexivity.
  - destruct (dict_get d (LineMatch.line_no lm)) as [cur|] eqn:Hg;
      rewrite dict_get_set_other by assumption; now rewrite app_nil_r.
Qed.

Lemma entry_spans_fold (lms : list LineMatch.t) (d : dict Z LineMatch.t) (ln : Z) :
  entry_spans (fold_left SearchResult.add_line lms d) ln =
  entry_spans d ln ++ spans_at ln lms.
Proof.
  revert d. induction lms as [|lm lms IH]; intros d; cbn [fold_left].
  - unfold spans_at. cbn. now rewrite app_nil_r.
  - rewrite IH, entry_spans_add_line, spans_at_cons. now rewrite app_assoc.
Qed.

Lemma entry_spans_own (lms : list LineMatch.t) (ln : Z) :
  NoDup (line_numbers lms) ->
  entry_spans (SearchResult.own_lines lms) ln = spans_at ln lms.
Proof.
  intros Hnd. unfold SearchResult.own_lines.
  rewrite own_lines_from_nodup by exact Hnd. cbn [app].
  unfold entry_spans.
  induction lms as [|lm lms IH]; [reflexivity|].
  cbn [map dict_get]. rewrite spans_at_cons.
  cbn [line_numbers map] in Hnd. inversion Hnd as [|? ? Hnotin Hnd']; subst.
  change (key_eqb (LineMatch.line_no lm) ln) with (LineMatch.line_no lm =? ln).
  destruct (Z.eqb_spec (LineMatch.line_no lm) ln) as [<-|Hne].
  - rewrite spans_at_absent by exact Hnotin. now rewrite app_nil_r.
  - now apply IH.
Qed.

Lemma add_line_keys (d : dict Z LineMatch.t) (lm : LineMatch.t) (k : Z) :
  In k (dict_keys (SearchResult.add_line d lm)) <->
  In k (dict_keys d) \/ k = LineMatch.line_no lm.
Proof.
  unfold SearchResult.add_line.
  destruct (dict_get d (LineMatch.line_no lm)) as [cur|] eqn:Hg;
    rewrite dict_keys_set; unfold dict_mem; rewrite Hg.
  - split; [tauto|]. intros [Hin| ->]; [assumption|].
    apply dict_get_some_in in Hg.
    change (LineMatch.line_no lm) with (fst (LineMatch.line_no lm, cur)).
    now apply in_map.
  - rewrite in_app_iff. cbn. intuition congruence.
Qed.

Lemma fold_add_line_keys (lms : list LineMatch.t) (d : dict Z LineMatch.t) (k : Z) :
  In k (dict_keys (fold_left SearchResult.add_line lms d)) <->
  In k (dict_keys d) \/ In k (line_numbers lms).
Proof.
  revert d. induction lms as [|lm lms IH]; intros d; cbn [fold_left].
  - cbn. tauto.
  - rewrite IH, add_line_keys. cbn. intuition congruence.
Qed.

(** The (line, span) pairs: an assignment into [lines_by_no] adds exactly
    the pairs of the added line match. *)
Lemma line_span_pairs_app (l1 l2 : list LineMatch.t) :
  line_span_pairs (l1 ++ l2) = line_span_pairs l1 ++ line_span_pairs l2.
Proof. unfold line_span_pairs. apply flat_map_app. Qed.

Lemma add_line_pairs (d : dict Z LineMatch.t) (lm : LineMatch.t) :
  keyed d ->
  Permutation (line_span_pairs (dict_values (SearchResult.add_line d lm)))
              (line_span_pairs (dict_values d) ++ line_span_pairs [lm]).
Proof.
  intros [_ Hall]. unfold SearchResult.add_line.
  destruct (dict_get d (LineMatch.line_no lm)) as [cur|] eqn:Hg.
  - assert (Hcur : LineMatch.line_no cur = LineMatch.line_no lm).
    { rewrite Forall_forall in Hall.
      apply (Hall (LineMatch.line_no lm, cur)). now apply dict_get_some_in. }
    destruct (dict_set_present d _ cur
               (LineMatch.set_spans cur (LineMatch.spans cur ++ LineMatch.spans lm))
               Hg) as (d1 & d2 & -> & -> & _).
    unfold dict_values. rewrite !map_app. cbn [map snd].
    rewrite !line_span_pairs_app.
    change (?x :: map snd d2) with ([x] ++ map snd d2).
    rewrite !line_span_pairs_app.
    unfold line_span_pairs at 2 5 7. cbn [flat_map LineMatch.set_spans
      LineMatch.line_no LineMatch.spans]. rewrite !app_nil_r, map_app, Hcur.
    rewrite <- !app_assoc. apply Permutation_app_head.
    apply Permutation_app_head. apply Permutation_app_comm.
  - rewrite dict_set_new by assumption. rewrite LineMatch_copy_id.
    unfold dict_values. rewrite map_app. cbn [map snd].
    now rewrite line_span_pairs_app.
Qed.

Lemma fold_add_line_pairs (lms : list LineMatch.t) (d : dict Z LineMatch.t) :
  keyed d ->
  Permutation (line_span_pairs (dict_values (fold_left SearchResult.add_line lms d)))
              (line_span_pairs (dict_values d) ++ line_span_pairs lms).
Proof.
  revert d. induction lms as [|lm lms IH]; intros d Hd; cbn [fold_left].
  - cbn. now rewrite app_nil_r.
  - rewrite IH by now apply add_line_keyed.
    rewrite add_line_pairs by assumption.
    rewrite <- app_assoc. apply Permutation_app_head.
    change (lm :: lms) with ([lm] ++ lms). now rewrite line_span_pairs_app.
Qed.

Lemma line_span_pairs_perm (l1 l2 : list LineMatch.t) :
  Permutation l1 l2 -> Permutation (line_span_pairs l1) (line_span_pairs l2).
Proof.
  induction 1; cbn.
  - reflexivity.
  - now apply Permutation_app_head.
  - rewrite !app_assoc. apply Permutation_app_tail, Permutation_app_comm.
  - etransitivity; eassumption.
Qed.

Lemma own_lines_keys (lms : list LineMatch.t) (k : Z) :
  In k (dict_keys (SearchResult.own_lines lms)) <-> In k (line_numbers lms).
Proof.
  unfold SearchResult.own_lines.
  assert (Hgen : forall d,
    In k (dict_keys (fold_left
      (fun d lm => dict_set d (LineMatch.line_no lm) (LineMatch.copy lm)) lms d))
    <-> In k (dict_keys d) \/ In k (line_numbers lms)).
  { induction lms as [|lm lms IH]; intros d; cbn [fold_left].
    - cbn. tauto.
    - rewrite IH, dict_keys_set. cbn [line_numbers map In].
      unfold dict_mem.
      destruct (dict_get d (LineMatch.line_no lm)) as [cur|] eqn:Hg.
      + split; [tauto|]. intros [Hin|[<-|Hin]]; try tauto.
        left. apply dict_get_some_in in Hg.
        change (LineMatch.line_no lm) with (fst (LineMatch.line_no lm, cur)).
        now apply in_map.
      + rewrite in_app_iff. cbn. unfold line_numbers. tauto. }
  rewrite Hgen. cbn. tauto.
Qed.

Lemma combine_with_lines_keyed (a b : SearchResult.t) :
  keyed (fold_left SearchResult.add_line (SearchResult.line_matches b)
           (SearchResult.own_lines (SearchResult.line_matches a))).
Proof. apply fold_add_line_keyed, own_lines_keyed. Qed.

Lemma combine_with_ascending (a b : SearchResult.t) :
  ascending_lines (SearchResult.line_matches (SearchResult.combine_with a b)).
Proof.
  unfold SearchResult.combine_with. cbn.
  apply sorted_by_int_strict.
  pose proof (combine_with_lines_keyed a b) as Hk.
  fold (line_numbers (dict_values
    (fold_left SearchResult.add_line (SearchResult.line_matches b)
       (SearchResult.own_lines (SearchResult.line_matches a))))).
  rewrite keyed_values_lines by exact Hk. apply Hk.
Qed.

Lemma ascending_lines_nodup (lms : list LineMatch.t) :
  ascending_lines lms -> NoDup (line_numbers lms).
Proof.
  induction 1 as [|lm lms Hs IH Hall]; cbn; constructor; [|assumption].
  intros Hin. apply in_map_iff in Hin. destruct Hin as (lm' & Heq & Hin).
  rewrite Forall_forall in Hall. specialize (Hall lm' Hin). lia.
Qed.

Lemma combine_with_one_entry (a b : SearchResult.t) :
  one_entry_per_line (SearchResult.combine_with a b).
Proof. apply ascending_lines_nodup, combine_with_ascending. Qed.

Lemma combine_with_line_numbers (a b : SearchResult.t) (ln : Z) :
  In ln (line_numbers (SearchResult.line_matches (SearchResult.combine_with a b)))
  <-> In ln (line_numbers (SearchResult.line_matches a)) \/
      In ln (line_numbers (SearchResult.line_matches b)).
Proof.
  unfold SearchResult.combine_with. cbn.
  rewrite <- own_lines_keys, <- fold_add_line_keys.
  rewrite <- (keyed_values_lines _ (combine_with_lines_keyed a b)).
  unfold line_numbers.
  split; apply Permutation_in, Permutation_map;
    [|apply Permutation_sym]; apply sorted_by_int_perm.
Qed.

Lemma combine_with_spans (a b : SearchResult.t) (lm : LineMatch.t) :
  one_entry_per_line a ->
  In lm (SearchResult.line_matches (SearchResult.combine_with a b)) ->
  LineMatch.spans lm =
  spans_at (LineMatch.line_no lm) (SearchResult.line_matches a) ++
  spans_at (LineMatch.line_no lm) (SearchResult.line_matches b).
Proof.
  intros Ha Hin. unfold SearchResult.combine_with in Hin. cbn in Hin.
  apply (Permutation_in _ (sorted_by_int_perm _ _)) in Hin.
  pose proof (combine_with_lines_keyed a b) as [Hnd Hall].
  set (d := fold_left _ _ _) in *.
  apply in_map_iff in Hin. destruct Hin as ([k v] & Hv & Hin). cbn in Hv. subst v.
  rewrite Forall_forall in Hall. pose proof (Hall _ Hin) as Hk. cbn in Hk.
  apply dict_in_get in Hin; [|assumption].
  rewrite <- entry_spans_own by exact Ha.
  rewrite <- entry_spans_fold. fold d. unfold entry_spans.
  rewrite Hk, Hin. reflexivity.
Qed.

Lemma combine_with_pairs (a b : SearchResult.t) :
  one_entry_per_line a ->
  Permutation
    (line_span_pairs (SearchResult.line_matches (SearchResult.combine_with a b)))
    (line_span_pairs (SearchResult.line_matches a) ++
     line_span_pairs (SearchResult.line_matches b)).
Proof.
  intros Ha. unfold SearchResult.combine_with. cbn.
  rewrite (line_span_pairs_perm _ _ (sorted_by_int_perm _ _)).
  rewrite fold_add_line_pairs by apply own_lines_keyed.
  now rewrite own_lines_nodup.
Qed.

Lemma combine_with_title_spans (a b : SearchResult.t) :
  Permutation (SearchResult.title_spans (SearchResult.combine_with a b))
    (SearchResult.title_spans a ++ SearchResult.title_spans b).
Proof. apply sorted_perm. Qed.

Lemma span_leb_le (x y : Span) : span_leb x y = true <-> span_le x y.
Proof. unfold span_leb, span_le. lia. Qed.

(** C5: the fields of [a.combine_with(b)].  The match counts add up; the
    title spans are the sorted concatenation, a permutation of both sides'
    spans in tuple order; the line matches are in strictly ascending line
    order, so one entry per line, for exactly the lines of either side; and
    when [a] has one entry per line, as the data model requires, the spans of
    an entry are [a]'s spans of that line followed by [b]'s. *)
Theorem combine_with_fields (a b : SearchResult.t) :
  let c := SearchResult.combine_with a b in
  SearchResult.matches c = SearchResult.matches a + SearchResult.matches b /\
  (SearchResult.title_spans c =
     sorted span_leb (SearchResult.title_spans a ++ SearchResult.title_spans b) /\
   Permutation (SearchResult.title_spans c)
     (SearchResult.title_spans a ++ SearchResult.title_spans b) /\
   StronglySorted span_le (SearchResult.title_spans c)) /\
  ascending_lines (SearchResult.line_matches c) /\
  (forall ln,
     In ln (line_numbers (SearchResult.line_matches c)) <->
     In ln (line_numbers (SearchResult.line_matches a)) \/
     In ln (line_numbers (SearchResult.line_matches b))) /\
  (one_entry_per_line a ->
   forall lm, In lm (SearchResult.line_matches c) ->
     LineMatch.spans lm =
     spans_at (LineMatch.line_no lm) (SearchResult.line_matches a) ++
     spans_at (LineMatch.line_no lm) (SearchResult.line_matches b)).
Proof.
  cbv zeta. split; [reflexivity|]. split; [|split; [|split]].
  - split; [reflexivity|]. split; [apply combine_with_title_spans|].
    cbn. 
    pose proof (sorted_ordered span_leb span_leb_total span_leb_trans
                  (SearchResult.title_spans a ++ SearchResult.title_spans b)) as Hs.
    induction Hs as [|x l Hs IH Hall]; constructor; [assumption|].
    eapply Forall_impl; [|exact Hall]. intros y. apply span_leb_le.
  - apply combine_with_ascending.
  - apply combine_with_line_numbers.
  - intros Ha lm. now apply combine_with_spans.
Qed.

Lemma combine_with_effect (a b : SearchResult.t) :
  one_entry_per_line a ->
  let c := SearchResult.combine_with a b in
  SearchResult.matches c = SearchResult.matches a + SearchResult.matches b /\
  Permutation (SearchResult.title_spans c)
    (SearchResult.title_spans a ++ SearchResult.title_spans b) /\
  Permutation (line_span_pairs (SearchResult.line_matches c))
    (line_span_pairs (SearchResult.line_matches a) ++
     line_span_pairs (SearchResult.line_matches b)).
Proof.
  intros Ha. cbv zeta. split; [reflexivity|].
  split; [apply combine_with_title_spans | now apply combine_with_pairs].
Qed.

(** C6: in match count, multiset of title spans and multiset of
    (line number, span) pairs, [combine_with] is associative and
    commutative on results that have one entry per line. *)
Theorem combine_with_assoc_comm (a b c : SearchResult.t) :
  one_entry_per_line a -> one_entry_per_line b ->
  same_effect (SearchResult.combine_with (SearchResult.combine_with a b) c)
              (SearchResult.combine_with a (SearchResult.combine_with b c)) /\
  same_effect (SearchResult.combine_with a b) (SearchResult.combine_with b a).
Proof.
  intros Ha Hb.
  pose proof (combine_with_one_entry a b) as Hab.
  destruct (combine_with_effect a b Ha) as (Hm1 & Ht1 & Hp1).
  destruct (combine_with_effect b a Hb) as (Hm2 & Ht2 & Hp2).
  destruct (combine_with_effect b c Hb) as (Hm3 & Ht3 & Hp3).
  destruct (combine_with_effect _ c Hab) as (Hm4 & Ht4 & Hp4).
  destruct (combine_with_effect a (SearchResult.combine_with b c) Ha)
    as (Hm5 & Ht5 & Hp5).
  split; (split; [|split]).
  - rewrite Hm4, Hm5, Hm1, Hm3. lia.
  - rewrite Ht4, Ht5, Ht1, Ht3. now rewrite app_assoc.
  - rewrite Hp4, Hp5, Hp1, Hp3. now rewrite app_assoc.
  - rewrite Hm1, Hm2. lia.
  - rewrite Ht1, Ht2. apply Permutation_app_comm.
  - rewrite Hp1, Hp2. apply Permutation_app_comm.
Qed.

(** ** The index *)

Section DictList.
Context {K V : Type} `{KeyLaws K}.

Lemma dict_in_set (d : dict K V) k v k' v' :
  In (k', v') (dict_set d k v) -> (k' = k /\ v' = v) \/ In (k', v') d.
Proof.
  induction d as [|[k0 v0] d IH]; cbn.
  - intros [[= -> ->]|[]]. now left.
  - destruct (key_eqb_spec k0 k) as [->|Hne]; cbn.
    + intros [[= <- <-]|Hin]; [now left | right; now right].
    + intros [Heq|Hin]; [right; now left|].
      destruct (IH Hin) as [?|?]; [now left | right; now right].
Qed.

Lemma dict_set_set (d : dict K V) k v w :
  dict_set (dict_set d k v) k w = dict_set d k w.
Proof.
  induction d as [|[k0 v0] d IH]; cbn.
  - destruct (key_eqb_spec k k); congruence.
  - destruct (key_eqb_spec k0 k) as [->|Hne]; cbn.
    + destruct (key_eqb_spec k k); congruence.
    + destruct (key_eqb_spec k0 k); [congruence|]. now rewrite IH.
Qed.

Lemma dict_set_same (d : dict K V) k v :
  dict_get d k = Some v -> dict_set d k v = d.
Proof.
  induction d as [|[k0 v0] d IH]; cbn; [discriminate|].
  destruct (key_eqb_spec k0 k) as [->|Hne].
  - now intros [= ->].
  - intros Hg. now rewrite IH.
Qed.

(** Filling a dictionary from a list with pairwise distinct keys. *)
Lemma fold_dict_set_nodup {A} (key : A -> K) (val : A -> V) (l : list A)
  (d : dict K V) :
  NoDup (dict_keys d ++ map key l) ->
  fold_left (fun d x => dict_set d (key x) (val x)) l d =
  d ++ map (fun x => (key x, val x)) l.
Proof.
  revert d. induction l as [|x l IH]; cbn; intros d Hnd.
  - now rewrite app_nil_r.
  - assert (Hnew : dict_get d (key x) = None).
    { apply dict_get_none. apply NoDup_remove_2 in Hnd.
      intros Hin. apply Hnd. apply in_or_app. now left. }
    rewrite dict_set_new by assumption. rewrite IH.
    + now rewrite <- app_assoc.
    + unfold dict_keys. rewrite map_app. cbn. now rewrite <- app_assoc.
Qed.
End DictList.

Lemma enumerate_in {A} (l : list A) (start n : Z) (x : A) :
  In (n, x) (enumerate l start) -> start <= n < start + len l.
Proof.
  revert start. induction l as [|y l IH]; cbn; intros start; [tauto|].
  unfold len in *. cbn [length]. intros [[= <- <-]|Hin]; [lia|].
  apply IH in Hin. lia.
Qed.

Lemma getitem_in_range {A} (l : list A) (i : Z) (dflt : A) :
  0 <= i < len l -> getitem l i = Ok (nth (Z.to_nat i) l dflt).
Proof.
  intros Hi. unfold getitem, len in *.
  destruct (Z.ltb_spec i 0); [lia|].
  destruct (Z.leb_spec 0 i); [|lia].
  destruct (Z.ltb_spec i (Z.of_nat (length l))); [|lia]. cbn.
  destruct (nth_error l (Z.to_nat i)) as [x|] eqn:Hn.
  - f_equal. symmetry. now apply nth_error_nth.
  - apply nth_error_None in Hn. lia.
Qed.

Lemma posting_result_ok (idx : Index.t) (doc_id : Z) (s : Sonnet.t)
  (p : Posting.t) :
  dict_get (Index.sonnets idx) doc_id = Some s -> posting_ok s p ->
  Index.posting_result idx doc_id p = Ok (minimal_result s p).
Proof.
  intros Hs Hp. unfold Index.posting_result, dict_getitem, minimal_result.
  rewrite Hs. cbn [bind]. unfold posting_ok in Hp.
  destruct (Posting.line_no p) as [n|]; [|reflexivity].
  rewrite (getitem_in_range (Sonnet.lines s) (n - 1) []) by lia. reflexivity.
Qed.

(** The inner loop over the postings of one document. *)
Lemma add_postings_ok (idx : Index.t) (doc_id : Z) (s : Sonnet.t)
  (ps : list Posting.t) (results : dict Z SearchResult.t) :
  dict_get (Index.sonnets idx) doc_id = Some s -> Forall (posting_ok s) ps ->
  for_each (Index.add_posting idx doc_id) ps results =
  Ok (add_results doc_id (map (minimal_result s) ps) results).
Proof.
  intros Hs Hps. revert results.
  induction Hps as [|p ps Hp Hps IH]; intros results; [reflexivity|].
  cbn [for_each map]. unfold add_results. cbn [fold_left].
  unfold Index.add_posting at 1.
  rewrite (posting_result_ok idx doc_id s p Hs Hp). cbn [bind].
  destruct (dict_get results doc_id); cbn [bind]; apply IH.
Qed.

Lemma add_results_present (doc_id : Z) (rs : list SearchResult.t)
  (results : dict Z SearchResult.t) (cur : SearchResult.t) :
  dict_get results doc_id = Some cur ->
  add_results doc_id rs results =
  dict_set results doc_id (fold_left SearchResult.combine_with rs cur).
Proof.
  revert results cur. induction rs as [|r rs IH]; intros results cur Hg.
  - cbn. symmetry. now apply dict_set_same.
  - unfold add_results. cbn [fold_left]. rewrite Hg.
    fold (add_results doc_id rs
            (dict_set results doc_id (SearchResult.combine_with cur r))).
    rewrite (IH _ (SearchResult.combine_with cur r))
      by apply dict_get_set_same.
    apply dict_set_set.
Qed.

(** A document that is not yet in the results gets one entry at the end:
    the results of its postings combined from the left. *)
Lemma add_results_new (doc_id : Z) (r0 : SearchResult.t)
  (rs : list SearchResult.t) (results : dict Z SearchResult.t) :
  dict_get results doc_id = None ->
  add_results doc_id (r0 :: rs) results =
  results ++ [(doc_id, fold_left SearchResult.combine_with rs r0)].
Proof.
  intros Hg. unfold add_results. cbn [fold_left]. rewrite Hg.
  fold (add_results doc_id rs (dict_set results doc_id r0)).
  rewrite (add_results_present _ _ _ r0) by apply dict_get_set_same.
  rewrite dict_set_set. now apply dict_set_new.
Qed.

Lemma doc_entries_keys_in (sonnets : dict Z Sonnet.t) (pl : Index.postings) k :
  In k (dict_keys (doc_entries sonnets pl)) -> In k (dict_keys pl).
Proof.
  induction pl as [|[d ps] pl IH]; cbn; [tauto|].
  unfold dict_keys in *. rewrite map_app, in_app_iff.
  intros [Hin|Hin]; [|right; now apply IH].
  destruct (dict_get sonnets d); [|contradiction].
  destruct (map _ ps); [contradiction|].
  cbn in Hin. left. tauto.
Qed.

(** The outer loop of [search_for] over a posting list. *)
Lemma search_loop_ok (idx : Index.t) (pl : Index.postings)
  (results : dict Z SearchResult.t) :
  NoDup (dict_keys pl) ->
  (forall doc_id ps, In (doc_id, ps) pl ->
     exists s, dict_get (Index.sonnets idx) doc_id = Some s /\
               Forall (posting_ok s) ps) ->
  (forall k, In k (dict_keys results) -> ~ In k (dict_keys pl)) ->
  for_each
    (fun results '(doc_id, ps) =>
       for_each (Index.add_posting idx doc_id) ps results) pl results =
  Ok (results ++ doc_entries (Index.sonnets idx) pl).
Proof.
  revert results. induction pl as [|[d ps] pl IH]; intros results Hnd Hok Hdis.
  - cbn. now rewrite app_nil_r.
  - cbn [for_each doc_entries flat_map].
    destruct (Hok d ps (or_introl eq_refl)) as (s & Hs & Hps).
    rewrite (add_postings_ok idx d s ps results Hs Hps). cbn [bind]. rewrite Hs.
    cbn [dict_keys map fst] in Hnd. inversion Hnd as [|? ? Hnotin Hnd']; subst.
    assert (Hnew : dict_get results d = None).
    { apply dict_get_none. intros Hin. apply (Hdis d Hin). now left. }
    destruct (map (minimal_result s) ps) as [|r0 rs] eqn:Hmap.
    + cbn [add_results fold_left app]. apply IH; [assumption| |].
      * intros d' ps' Hin. apply Hok. now right.
      * intros k Hin Hin'. apply (Hdis k Hin). now right.
    + rewrite add_results_new by assumption. rewrite IH; [| assumption | |].
      * now rewrite <- app_assoc.
      * intros d' ps' Hin. apply Hok. now right.
      * intros k Hin Hin'. unfold dict_keys in Hin. rewrite map_app in Hin.
        apply in_app_or in Hin. destruct Hin as [Hin|[<-|[]]].
        -- apply (Hdis k Hin). now right.
        -- now apply Hnotin.
Qed.

Lemma search_for_ok (idx : Index.t) (token : str) :
  index_ok idx ->
  Index.search_for idx token =
  Ok (match dict_get (Index.dictionary idx) (stem token) with
      | Some pl => doc_entries (Index.sonnets idx) pl
      | None => []
      end).
Proof.
  intros Hidx. unfold Index.search_for.
  destruct (dict_get (Index.dictionary idx) (stem token)) as [pl|] eqn:Hg;
    [|reflexivity].
  destruct (Hidx _ _ Hg) as [Hnd Hok].
  rewrite search_loop_ok; [reflexivity | assumption | assumption |].
  intros k [].
Qed.

Lemma doc_entries_nodup (sonnets : dict Z Sonnet.t) (pl : Index.postings) :
  NoDup (dict_keys pl) -> NoDup (dict_keys (doc_entries sonnets pl)).
Proof.
  induction pl as [|[d ps] pl IH]; cbn; intros Hnd; [constructor|].
  inversion Hnd as [|? ? Hnotin Hnd']; subst.
  unfold dict_keys in *. rewrite map_app.
  destruct (dict_get sonnets d); [|now apply IH].
  destruct (map _ ps); [now apply IH|]. cbn.
  constructor; [|now apply IH].
  intros Hin. apply Hnotin. now apply doc_entries_keys_in in Hin.
Qed.

Lemma doc_entries_keys (sonnets : dict Z Sonnet.t) (pl : Index.postings) :
  (forall doc_id ps, In (doc_id, ps) pl ->
     exists s, dict_get sonnets doc_id = Some s) ->
  dict_keys (doc_entries sonnets pl) =
  dict_keys (filter (fun dp => negb (Nat.eqb (length (snd dp)) 0)) pl).
Proof.
  induction pl as [|[d ps] pl IH]; intros Hok; [reflexivity|].
  cbn [doc_entries flat_map filter snd].
  destruct (Hok d ps (or_introl eq_refl)) as (s & ->).
  unfold dict_keys in *. rewrite map_app.
  fold (doc_entries sonnets pl). rewrite IH by (intros; eapply Hok; right; eassumption).
  destruct ps; reflexivity.
Qed.

Lemma doc_entries_get (sonnets : dict Z Sonnet.t) (pl : Index.postings)
  (doc_id : Z) (s : Sonnet.t) (p : Posting.t) (ps : list Posting.t) :
  NoDup (dict_keys pl) ->
  In (doc_id, p :: ps) pl -> dict_get sonnets doc_id = Some s ->
  dict_get (doc_entries sonnets pl) doc_id =
  Some (fold_left SearchResult.combine_with (map (minimal_result s) ps)
          (minimal_result s p)).
Proof.
  intros Hnd Hin Hs. apply dict_in_get; [now apply doc_entries_nodup|].
  unfold doc_entries. apply in_flat_map. exists (doc_id, p :: ps).
  split; [assumption|]. rewrite Hs. cbn. now left.
Qed.

Lemma doc_entries_in (sonnets : dict Z Sonnet.t) (pl : Index.postings)
  (doc_id : Z) (r : SearchResult.t) :
  In (doc_id, r) (doc_entries sonnets pl) ->
  exists s p ps,
    In (doc_id, p :: ps) pl /\ dict_get sonnets doc_id = Some s /\
    r = fold_left SearchResult.combine_with (map (minimal_result s) ps)
          (minimal_result s p).
Proof.
  unfold doc_entries. rewrite in_flat_map. intros ([d ps] & Hin & Hr).
  destruct (dict_get sonnets d) as [s|] eqn:Hs; [|contradiction].
  destruct ps as [|p ps]; [contradiction|].
  cbn in Hr. destruct Hr as [[= <- <-]|[]].
  exists s, p, ps. tauto.
Qed.

(** ** The count invariant *)

Lemma span_total_pairs (r : SearchResult.t) :
  span_total r =
  len (SearchResult.title_spans r) +
  len (line_span_pairs (SearchResult.line_matches r)).
Proof.
  unfold span_total. f_equal.
  induction (SearchResult.line_matches r) as [|lm lms IH]; [reflexivity|].
  cbn [fold_right line_span_pairs flat_map]. rewrite IH. unfold len.
  rewrite length_app, length_map. unfold line_span_pairs. lia.
Qed.

Lemma combine_with_count (a b : SearchResult.t) :
  one_entry_per_line a -> count_invariant a -> count_invariant b ->
  count_invariant (SearchResult.combine_with a b).
Proof.
  unfold count_invariant. intros Ha Hca Hcb.
  destruct (combine_with_effect a b Ha) as (Hm & Ht & Hp).
  rewrite Hm, Hca, Hcb, !span_total_pairs. unfold len.
  rewrite (Permutation_length Ht), (Permutation_length Hp), !length_app. lia.
Qed.

Lemma combine_with_good (a b : SearchResult.t) :
  good a -> count_invariant b -> good (SearchResult.combine_with a b).
Proof.
  intros [Hca Ha] Hcb. split.
  - now apply combine_with_count.
  - apply combine_with_one_entry.
Qed.

Lemma minimal_result_good (s : Sonnet.t) (p : Posting.t) :
  good (minimal_result s p).
Proof.
  unfold minimal_result, good, count_invariant, one_entry_per_line, span_total.
  destruct (Posting.line_no p); cbn; split; try reflexivity;
    repeat constructor; cbn; tauto.
Qed.

Lemma fold_combine_good (rs : list SearchResult.t) (r0 : SearchResult.t) :
  good r0 -> Forall good rs ->
  good (fold_left SearchResult.combine_with rs r0).
Proof.
  intros H0 Hrs. revert r0 H0.
  induction Hrs as [|r rs Hr Hrs IH]; intros r0 H0; [assumption|].
  cbn [fold_left]. apply IH. apply combine_with_good; [assumption | apply Hr].
Qed.

(** The effects of a left fold of [combine_with]. *)
Lemma fold_combine_effect (rs : list SearchResult.t) (r0 : SearchResult.t) :
  one_entry_per_line r0 ->
  let r := fold_left SearchResult.combine_with rs r0 in
  SearchResult.matches r =
    SearchResult.matches r0 +
    fold_right (fun x acc => SearchResult.matches x + acc) 0 rs /\
  Permutation (SearchResult.title_spans r)
    (SearchResult.title_spans r0 ++ flat_map SearchResult.title_spans rs) /\
  Permutation (line_span_pairs (SearchResult.line_matches r))
    (line_span_pairs (SearchResult.line_matches r0) ++
     flat_map (fun x => line_span_pairs (SearchResult.line_matches x)) rs).
Proof.
  revert r0. induction rs as [|x rs IH]; intros r0 H0; cbn [fold_left].
  - cbn. rewrite !app_nil_r. split; [lia | split; reflexivity].
  - destruct (IH (SearchResult.combine_with r0 x) (combine_with_one_entry r0 x))
      as (Hm & Ht & Hp).
    destruct (combine_with_effect r0 x H0) as (Hm0 & Ht0 & Hp0).
    cbv zeta in *. cbn [fold_right flat_map].
    split; [|split].
    + rewrite Hm, Hm0. lia.
    + rewrite Ht, Ht0. now rewrite <- app_assoc.
    + rewrite Hp, Hp0. now rewrite <- app_assoc.
Qed.

(** The same for the results of the postings of one document. *)
Lemma doc_result_effect (s : Sonnet.t) (p : Posting.t) (ps : list Posting.t) :
  let r := fold_left SearchResult.combine_with (map (minimal_result s) ps)
             (minimal_result s p) in
  SearchResult.matches r = len (p :: ps) /\
  Permutation (SearchResult.title_spans r)
    (map posting_span (title_postings (p :: ps))) /\
  Permutation (line_span_pairs (SearchResult.line_matches r))
    (line_posting_pairs (p :: ps)).
Proof.
  destruct (fold_combine_effect (map (minimal_result s) ps) (minimal_result s p))
    as (Hm & Ht & Hp); [apply minimal_result_good|].
  cbv zeta in *.
  assert (Hsum : forall l,
    fold_right (fun x acc => SearchResult.matches x + acc) 0
      (map (minimal_result s) l) = len l).
  { induction l as [|q l IHl]; [reflexivity|]. cbn [map fold_right].
    rewrite IHl. unfold len. cbn [length].
    unfold minimal_result. destruct (Posting.line_no q); cbn [SearchResult.matches]; lia. }
  assert (Hts : forall l,
    flat_map SearchResult.title_spans (map (minimal_result s) l) =
    map posting_span (title_postings l)).
  { induction l as [|q l IHl]; [reflexivity|].
    cbn [map flat_map title_postings filter]. rewrite IHl.
    unfold minimal_result. destruct (Posting.line_no q); reflexivity. }
  assert (Hps : forall l,
    flat_map (fun x => line_span_pairs (SearchResult.line_matches x))
      (map (minimal_result s) l) = line_posting_pairs l).
  { induction l as [|q l IHl]; [reflexivity|].
    cbn [map flat_map line_posting_pairs]. rewrite IHl.
    unfold minimal_result. destruct (Posting.line_no q); reflexivity. }
  split; [|split].
  - rewrite Hm, Hsum. unfold len. cbn [length].
    unfold minimal_result.
    destruct (Posting.line_no p); cbn [SearchResult.matches]; lia.
  - rewrite Ht, (Hts ps). cbn [title_postings filter].
    unfold minimal_result. destruct (Posting.line_no p); reflexivity.
  - rewrite Hp, (Hps ps). cbn [line_posting_pairs flat_map].
    unfold minimal_result. destruct (Posting.line_no p); reflexivity.
Qed.

(** ** Construction of the index *)

Lemma add_token_ok (sd : dict Z Sonnet.t) (dictionary : dict str Index.postings)
  (doc_id : Z) (s : Sonnet.t) (token : str) (line_no : option Z)
  (position token_length : Z) :
  dictionary_ok sd dictionary ->
  dict_get sd doc_id = Some s ->
  posting_ok s (Posting.mk line_no position token_length) ->
  dictionary_ok sd
    (Index._add_token dictionary doc_id token line_no position token_length).
Proof.
  intros Hd Hs Hp token' pl'. unfold Index._add_token.
  destruct (str_eqb_spec token token') as [<-|Hne].
  - rewrite dict_get_set_same. intros [= <-].
    assert (Hpl : NoDup (dict_keys
                    (match dict_get dictionary token with
                     | Some pl => pl | None => [] end)) /\
                  forall doc ps,
                    In (doc, ps) (match dict_get dictionary token with
                                  | Some pl => pl | None => [] end) ->
                    exists s0, dict_get sd doc = Some s0 /\
                               Forall (posting_ok s0) ps).
    { destruct (dict_get dictionary token) as [pl|] eqn:Hg.
      - exact (Hd _ _ Hg).
      - split; [constructor | intros ? ? []]. }
    set (pl := match dict_get dictionary token with
               | Some pl => pl | None => [] end) in *.
    destruct Hpl as [Hnd Hok]. split; [now apply dict_set_nodup|].
    intros doc ps Hin. apply dict_in_set in Hin.
    destruct Hin as [[-> ->]|Hin]; [|now apply Hok].
    exists s. split; [assumption|]. apply Forall_app. split.
    + destruct (dict_get pl doc_id) as [ps0|] eqn:Hg0; [|constructor].
      apply dict_get_some_in in Hg0. destruct (Hok _ _ Hg0) as (s0 & Hs0 & Hall).
      congruence.
    + now repeat constructor.
  - rewrite dict_get_set_other by assumption. apply Hd.
Qed.

Lemma add_text_ok (sd : dict Z Sonnet.t) (doc_id : Z) (s : Sonnet.t)
  (line_no : option Z) (text : str) (dictionary : dict str Index.postings) :
  dictionary_ok sd dictionary ->
  dict_get sd doc_id = Some s ->
  match line_no with
  | None => True
  | Some n => 1 <= n <= len (Sonnet.lines s)
  end ->
  dictionary_ok sd (Index.add_text doc_id line_no dictionary text).
Proof.
  intros Hd Hs Hln. unfold Index.add_text.
  revert dictionary Hd.
  induction (Index.tokenize text) as [|[token position] toks IH];
    intros dictionary Hd; cbn [fold_left]; [assumption|].
  apply IH. eapply add_token_ok; eassumption.
Qed.

Lemma add_sonnet_ok (sd : dict Z Sonnet.t) (s : Sonnet.t)
  (dictionary : dict str Index.postings) :
  dictionary_ok sd dictionary ->
  dict_get sd (Sonnet.id s) = Some s ->
  dictionary_ok sd (Index.add_sonnet dictionary s).
Proof.
  intros Hd Hs. unfold Index.add_sonnet.
  assert (Hlines : forall n line,
    In (n, line) (enumerate (Sonnet.lines s) 1) ->
    1 <= n <= len (Sonnet.lines s)).
  { intros n line Hin. apply enumerate_in in Hin. lia. }
  assert (Htitle : dictionary_ok sd
    (Index.add_text (Sonnet.id s) None dictionary (Sonnet.title s)))
    by (eapply add_text_ok; eauto).
  revert Hlines Htitle.
  generalize (Index.add_text (Sonnet.id s) None dictionary (Sonnet.title s)).
  induction (enumerate (Sonnet.lines s) 1) as [|[n line] rest IH];
    intros d Hlines Hok; cbn [fold_left]; [assumption|].
  apply IH.
  - intros n' line' Hin. eapply Hlines. right. eassumption.
  - eapply add_text_ok; [eassumption | eassumption |].
    eapply Hlines. left. reflexivity.
Qed.

Lemma sonnets_dict_get (sonnets : list Sonnet.t) (s : Sonnet.t) :
  NoDup (map Sonnet.id sonnets) -> In s sonnets ->
  dict_get (Index.sonnets (Index.init sonnets)) (Sonnet.id s) = Some s.
Proof.
  intros Hnd Hin. cbn [Index.init Index.sonnets].
  rewrite (fold_dict_set_nodup Sonnet.id (fun x => x)) by exact Hnd.
  cbn [app]. apply dict_in_get.
  - unfold dict_keys. rewrite map_map. exact Hnd.
  - apply in_map_iff. exists s. tauto.
Qed.

(** An index built from sonnets with pairwise distinct identifiers is well
    formed. *)
Lemma init_ok (sonnets : list Sonnet.t) :
  NoDup (map Sonnet.id sonnets) -> index_ok (Index.init sonnets).
Proof.
  intros Hnd. unfold index_ok.
  pose proof (sonnets_dict_get sonnets) as Hget.
  cbn [Index.init Index.sonnets Index.dictionary] in *.
  set (sd := fold_left (fun (d : dict Z Sonnet.t) sonnet =>
                          dict_set d (Sonnet.id sonnet) sonnet) sonnets []) in *.
  assert (Hgen : forall l d,
    (forall s, In s l -> In s sonnets) -> dictionary_ok sd d ->
    dictionary_ok sd (fold_left Index.add_sonnet l d)).
  { induction l as [|s l IH]; intros d Hsub Hd; cbn [fold_left]; [assumption|].
    apply IH; [intros; apply Hsub; now right|].
    apply add_sonnet_ok; [assumption|]. apply Hget; [assumption|].
    apply Hsub. now left. }
  apply Hgen; [tauto|]. intros token pl Hg. discriminate Hg.
Qed.

(** ** [Index.search_for] *)

(** C4: [search_for] on a built index.  A token whose stem is no key of the
    dictionary gives the empty mapping.  Otherwise the keys of the returned
    mapping are, in order, the documents of the posting list that have at
    least one posting, and the result of such a document is the results of
    its postings, one per posting, combined from the left in their order:
    its match count is the number of postings, its title spans are a
    permutation of the spans of the title postings and its (line, span)
    pairs a permutation of those of the line postings. *)
Theorem search_for_spec (sonnets : list Sonnet.t) (token : str) :
  NoDup (map Sonnet.id sonnets) ->
  let idx := Index.init sonnets in
  match dict_get (Index.dictionary idx) (stem token) with
  | None => Index.search_for idx token = Ok []
  | Some pl =>
      exists results,
        Index.search_for idx token = Ok results /\
        dict_keys results =
          dict_keys (filter (fun dp => negb (Nat.eqb (length (snd dp)) 0)) pl) /\
        forall doc_id ps,
          dict_get pl doc_id = Some ps -> ps <> [] ->
          exists r r0 rs,
            dict_get results doc_id = Some r /\
            Forall2 (fun p x => Index.posting_result idx doc_id p = Ok x)
                    ps (r0 :: rs) /\
            r = fold_left SearchResult.combine_with rs r0 /\
            SearchResult.matches r = len ps /\
            Permutation (SearchResult.title_spans r)
              (map posting_span (title_postings ps)) /\
            Permutation (line_span_pairs (SearchResult.line_matches r))
              (line_posting_pairs ps)
  end.
Proof.
  intros Hnd idx. pose proof (init_ok sonnets Hnd) as Hidx. fold idx in Hidx.
  rewrite (search_for_ok idx token Hidx).
  destruct (dict_get (Index.dictionary idx) (stem token)) as [pl|] eqn:Hg;
    [|reflexivity].
  destruct (Hidx _ _ Hg) as [Hpl Hok].
  exists (doc_entries (Index.sonnets idx) pl). split; [reflexivity|]. split.
  - apply doc_entries_keys. intros d ps Hin.
    destruct (Hok d ps Hin) as (s & Hs & _). now exists s.
  - intros doc_id ps Hps Hne. apply dict_get_some_in in Hps.
    destruct (Hok _ _ Hps) as (s & Hs & Hall).
    destruct ps as [|p ps]; [congruence|].
    exists (fold_left SearchResult.combine_with (map (minimal_result s) ps)
              (minimal_result s p)),
           (minimal_result s p), (map (minimal_result s) ps).
    split; [now apply doc_entries_get|]. split.
    + change (minimal_result s p :: map (minimal_result s) ps)
        with (map (minimal_result s) (p :: ps)).
      clear Hps Hne. induction Hall as [|q qs Hq Hqs IH]; cbn [map];
        constructor; [|assumption].
      now apply posting_result_ok.
    + split; [reflexivity|]. apply doc_result_effect.
Qed.

Lemma search_for_spec_witness :
  NoDup (map Sonnet.id [Scenario.doc1; Scenario.doc2]) /\
  let idx := Index.init [Scenario.doc1; Scenario.doc2] in
  match dict_get (Index.dictionary idx) (stem (lit "increase")) with
  | None => Index.search_for idx (lit "increase") = Ok []
  | Some pl =>
      exists results,
        Index.search_for idx (lit "increase") = Ok results /\
        dict_keys results =
          dict_keys (filter (fun dp => negb (Nat.eqb (length (snd dp)) 0)) pl) /\
        forall doc_id ps,
          dict_get pl doc_id = Some ps -> ps <> [] ->
          exists r r0 rs,
            dict_get results doc_id = Some r /\
            Forall2 (fun p x => Index.posting_result idx doc_id p = Ok x)
                    ps (r0 :: rs) /\
            r = fold_left SearchResult.combine_with rs r0 /\
            SearchResult.matches r = len ps /\
            Permutation (SearchResult.title_spans r)
              (map posting_span (title_postings ps)) /\
            Permutation (line_span_pairs (SearchResult.line_matches r))
              (line_posting_pairs ps)
  end.
Proof.
  assert (Hnd : NoDup (map Sonnet.id [Scenario.doc1; Scenario.doc2])).
  { cbn. repeat constructor; cbn; intuition discriminate. }
  split; [exact Hnd|].
  exact (search_for_spec [Scenario.doc1; Scenario.doc2] (lit "increase") Hnd).
Defined.

(** ** Instances of the combination theorems *)

Lemma res_a_one_entry : one_entry_per_line Scenario.res_a.
Proof. repeat constructor. cbn. tauto. Defined.

Lemma res_b_one_entry : one_entry_per_line Scenario.res_b.
Proof. repeat constructor. cbn. tauto. Defined.

Lemma combine_with_fields_witness :
  one_entry_per_line Scenario.res_a /\
  forall lm,
    In lm (SearchResult.line_matches
             (SearchResult.combine_with Scenario.res_a Scenario.res_b)) ->
    LineMatch.spans lm =
    spans_at (LineMatch.line_no lm) (SearchResult.line_matches Scenario.res_a) ++
    spans_at (LineMatch.line_no lm) (SearchResult.line_matches Scenario.res_b).
Proof.
  split; [exact res_a_one_entry|].
  exact (proj2 (proj2 (proj2 (proj2
           (combine_with_fields Scenario.res_a Scenario.res_b))))
         res_a_one_entry).
Defined.

Lemma combine_with_assoc_comm_witness :
  one_entry_per_line Scenario.res_a /\ one_entry_per_line Scenario.res_b /\
  same_effect
    (SearchResult.combine_with
       (SearchResult.combine_with Scenario.res_a Scenario.res_b) Scenario.res_c)
    (SearchResult.combine_with Scenario.res_a
       (SearchResult.combine_with Scenario.res_b Scenario.res_c)) /\
  same_effect (SearchResult.combine_with Scenario.res_a Scenario.res_b)
              (SearchResult.combine_with Scenario.res_b Scenario.res_a).
Proof.
  split; [exact res_a_one_entry|]. split; [exact res_b_one_entry|].
  exact (combine_with_assoc_comm Scenario.res_a Scenario.res_b Scenario.res_c
           res_a_one_entry res_b_one_entry).
Defined.

(** ** The searcher *)

Lemma all_good_set (d : dict Z SearchResult.t) (k : Z) (v : SearchResult.t) :
  all_good d -> good v -> all_good (dict_set d k v).
Proof.
  unfold all_good. rewrite !Forall_forall. intros Hd Hv [k' v'] Hin.
  apply dict_in_set in Hin. destruct Hin as [[-> ->]|Hin]; [assumption|].
  now apply Hd.
Qed.

Lemma all_good_get (d : dict Z SearchResult.t) (k : Z) (v : SearchResult.t) :
  all_good d -> dict_get d k = Some v -> good v.
Proof.
  unfold all_good. rewrite Forall_forall. intros Hd Hg.
  apply dict_get_some_in in Hg. now apply (Hd (k, v)).
Qed.

Lemma doc_entries_good (sd : dict Z Sonnet.t) (pl : Index.postings) :
  all_good (doc_entries sd pl).
Proof.
  unfold all_good. rewrite Forall_forall. intros [d r] Hin.
  apply doc_entries_in in Hin. destruct Hin as (s & p & ps & _ & _ & ->).
  cbn [snd]. apply fold_combine_good; [apply minimal_result_good|].
  rewrite Forall_forall. intros x Hx. apply in_map_iff in Hx.
  destruct Hx as (q & <- & _). apply minimal_result_good.
Qed.

Lemma search_for_good (idx : Index.t) (token : str) :
  index_ok idx ->
  exists results, Index.search_for idx token = Ok results /\ all_good results.
Proof.
  intros Hidx. rewrite (search_for_ok idx token Hidx).
  eexists. split; [reflexivity|].
  destruct (dict_get (Index.dictionary idx) (stem token));
    [apply doc_entries_good | constructor].
Qed.

Lemma and_step_good (combined_results results : dict Z SearchResult.t) :
  all_good combined_results -> all_good results ->
  all_good (Searcher.and_step combined_results results).
Proof.
  intros Hc Hr. unfold Searcher.and_step.
  assert (Hgen : forall l acc,
    all_good l -> all_good acc ->
    all_good (fold_left
      (fun new_combined '(doc_id, cur) =>
         match dict_get results doc_id with
         | Some r => dict_set new_combined doc_id (SearchResult.combine_with cur r)
         | None => new_combined
         end) l acc)).
  { induction l as [|[d cur] l IH]; intros acc Hl Hacc; cbn [fold_left];
      [assumption|].
    inversion Hl as [|? ? Hcur Hl']; subst. apply IH; [assumption|].
    destruct (dict_get results d) as [r|] eqn:Hg; [|assumption].
    apply all_good_set; [assumption|].
    apply combine_with_good; [exact Hcur|].
    apply (all_good_get _ _ _ Hr Hg). }
  apply Hgen; [assumption | constructor].
Qed.

Lemma or_step_good (combined_results results : dict Z SearchResult.t) :
  all_good combined_results -> all_good results ->
  all_good (Searcher.or_step combined_results results).
Proof.
  intros Hc Hr. unfold Searcher.or_step. revert combined_results Hc.
  induction Hr as [|[d r] results Hgood Hr IH]; intros acc Hacc;
    cbn [fold_left]; [assumption|].
  apply IH. destruct (dict_get acc d) as [cur|] eqn:Hg.
  - apply all_good_set; [assumption|].
    apply combine_with_good; [apply (all_good_get _ _ _ Hacc Hg) | apply Hgood].
  - apply all_good_set; [assumption | apply Hgood].
Qed.

Lemma word_step_good (self : Searcher.t) (search_mode word : str)
  (combined_results : dict Z SearchResult.t) :
  index_ok (Searcher.index self) -> all_good combined_results ->
  exists c, Searcher.word_step self search_mode combined_results word = Ok c /\
            all_good c.
Proof.
  intros Hidx Hc. unfold Searcher.word_step.
  destruct (search_for_good _ word Hidx) as (results & -> & Hr). cbn [bind].
  destruct (dict_is_empty combined_results); [eauto|].
  destruct (str_eqb search_mode (lit "AND")).
  - eexists. split; [reflexivity|]. now apply and_step_good.
  - destruct (str_eqb search_mode (lit "OR")); [|eauto].
    eexists. split; [reflexivity|]. now apply or_step_good.
Qed.

Lemma for_each_words_good (self : Searcher.t) (search_mode : str)
  (words : list str) (combined_results : dict Z SearchResult.t) :
  index_ok (Searcher.index self) -> all_good combined_results ->
  exists c,
    for_each (Searcher.word_step self search_mode) words combined_results = Ok c /\
    all_good c.
Proof.
  intros Hidx. revert combined_results.
  induction words as [|w words IH]; intros acc Hacc; cbn [for_each]; [eauto|].
  destruct (word_step_good self search_mode w acc Hidx Hacc) as (c & -> & Hc).
  cbn [bind]. now apply IH.
Qed.

Lemma search_good (self : Searcher.t) (query search_mode : str) :
  index_ok (Searcher.index self) ->
  exists rs, Searcher.search self query search_mode = Ok rs /\ Forall good rs.
Proof.
  intros Hidx. unfold Searcher.search, Searcher.combined.
  destruct (for_each_words_good self search_mode (split query) [] Hidx)
    as (c & -> & Hc); [constructor|].
  cbn [bind]. eexists. split; [reflexivity|].
  rewrite Forall_forall. intros r Hin.
  apply (Permutation_in _ (sorted_perm _ _)) in Hin.
  apply in_map_iff in Hin. destruct Hin as ([k v] & <- & Hin).
  unfold all_good in Hc. rewrite Forall_forall in Hc. now apply (Hc (k, v)).
Qed.

(** Whatever the index holds, a result that [search_for] or [search]
    returns is good: the loops only ever store results of postings and
    combinations of good results. *)
Lemma for_each_invariant {A S} (P : S -> Prop) (body : S -> A -> result S)
  (l : list A) (st st' : S) :
  (forall s x s', P s -> body s x = Ok s' -> P s') ->
  P st -> for_each body l st = Ok st' -> P st'.
Proof.
  intros Hbody. revert st.
  induction l as [|x l IH]; intros st Hst Hrun; cbn [for_each] in Hrun.
  - now injection Hrun as <-.
  - destruct (body st x) as [s1|e] eqn:Hb; cbn [bind] in Hrun; [|discriminate].
    apply (IH s1); [|assumption]. now apply (Hbody st x).
Qed.

Lemma posting_result_good (idx : Index.t) (doc_id : Z) (p : Posting.t)
  (r : SearchResult.t) :
  Index.posting_result idx doc_id p = Ok r -> good r.
Proof.
  unfold Index.posting_result, good, count_invariant, one_entry_per_line,
    span_total.
  destruct (dict_getitem (Index.sonnets idx) doc_id) as [s|e]; cbn [bind];
    [|discriminate].
  destruct (Posting.line_no p) as [n|].
  - destruct (getitem (Sonnet.lines s) (n - 1)) as [line|e]; cbn [bind];
      [|discriminate].
    intros [= <-]. cbn. split; [reflexivity|].
    repeat constructor. cbn. tauto.
  - intros [= <-]. cbn. split; [reflexivity | constructor].
Qed.

Lemma add_posting_all_good (idx : Index.t) (doc_id : Z) (p : Posting.t)
  (results results' : dict Z SearchResult.t) :
  all_good results -> Index.add_posting idx doc_id results p = Ok results' ->
  all_good results'.
Proof.
  intros Hres. unfold Index.add_posting.
  destruct (Index.posting_result idx doc_id p) as [r|e] eqn:Hr; cbn [bind];
    [|discriminate].
  apply posting_result_good in Hr.
  destruct (dict_get results doc_id) as [cur|] eqn:Hg; intros [= <-].
  - apply all_good_set; [assumption|].
    apply combine_with_good; [now apply (all_good_get _ _ _ Hres Hg) | apply Hr].
  - now apply all_good_set.
Qed.

Lemma search_for_all_good (idx : Index.t) (token : str)
  (results : dict Z SearchResult.t) :
  Index.search_for idx token = Ok results -> all_good results.
Proof.
  unfold Index.search_for.
  destruct (dict_get (Index.dictionary idx) (stem token)) as [pl|].
  - apply (for_each_invariant all_good); [|constructor].
    intros acc [d ps] acc' Hacc.
    apply (for_each_invariant all_good); [|assumption].
    intros s p s' Hs. now apply add_posting_all_good.
  - intros [= <-]. constructor.
Qed.

Lemma word_step_all_good (self : Searcher.t) (search_mode word : str)
  (combined_results c : dict Z SearchResult.t) :
  all_good combined_results ->
  Searcher.word_step self search_mode combined_results word = Ok c ->
  all_good c.
Proof.
  intros Hc. unfold Searcher.word_step.
  destruct (Index.search_for (Searcher.index self) word) as [results|e] eqn:Hs;
    cbn [bind]; [|discriminate].
  apply search_for_all_good in Hs.
  destruct (dict_is_empty combined_results); [now intros [= <-]|].
  destruct (str_eqb search_mode (lit "AND")).
  - intros [= <-]. now apply and_step_good.
  - destruct (str_eqb search_mode (lit "OR")); intros [= <-];
      [now apply or_step_good | assumption].
Qed.

Lemma search_all_good (self : Searcher.t) (query search_mode : str)
  (rs : list SearchResult.t) :
  Searcher.search self query search_mode = Ok rs -> Forall good rs.
Proof.
  unfold Searcher.search.
  destruct (Searcher.combined self query search_mode) as [c|e] eqn:Hc;
    cbn [bind]; [|discriminate].
  intros [= <-]. unfold Searcher.combined in Hc.
  apply (for_each_invariant all_good) in Hc; [| |constructor].
  - rewrite Forall_forall. intros r Hin.
    apply (Permutation_in _ (sorted_perm _ _)) in Hin.
    apply in_map_iff in Hin. destruct Hin as ([k v] & <- & Hin).
    unfold all_good in Hc. rewrite Forall_forall in Hc. now apply (Hc (k, v)).
  - intros s w s' Hs. now apply word_step_all_good.
Qed.

(** C9: the count invariant [matches = len(title_spans) + sum of the
    len(lm.spans)].  Every result in a mapping that [search_for] returns
    satisfies it; [combine_with] preserves it when the receiver has one
    entry per line, as the data model requires and as every result the
    searcher holds has; every result in a list that [search] returns
    satisfies it; and on a searcher built from sonnets with pairwise
    distinct identifiers both calls do return. *)
Theorem count_invariant_maintained :
  (forall idx token results,
     Index.search_for idx token = Ok results ->
     forall doc_id r, In (doc_id, r) results -> count_invariant r) /\
  (forall a b,
     one_entry_per_line a -> count_invariant a -> count_invariant b ->
     count_invariant (SearchResult.combine_with a b)) /\
  (forall searcher query search_mode rs,
     Searcher.search searcher query search_mode = Ok rs ->
     forall r, In r rs -> count_invariant r) /\
  (forall sonnets,
     NoDup (map Sonnet.id sonnets) ->
     (forall token,
        exists results, Index.search_for (Index.init sonnets) token = Ok results) /\
     (forall query search_mode,
        exists rs,
          Searcher.search (Searcher.init sonnets) query search_mode = Ok rs)).
Proof.
  split; [|split; [|split]].
  - intros idx token results Hs d r Hin. apply search_for_all_good in Hs.
    unfold all_good in Hs. rewrite Forall_forall in Hs. apply (Hs (d, r) Hin).
  - intros a b. apply combine_with_count.
  - intros searcher query mode rs Hs r Hin. apply search_all_good in Hs.
    rewrite Forall_forall in Hs. apply (Hs r Hin).
  - intros sonnets Hnd.
    assert (Hidx : index_ok (Index.init sonnets)) by now apply init_ok.
    split.
    + intros token. destruct (search_for_good _ token Hidx) as (results & Hs & _).
      now exists results.
    + intros query mode.
      destruct (search_good (Searcher.init sonnets) query mode Hidx)
        as (rs & Hs & _).
      now exists rs.
Qed.

Lemma scenario_ids_distinct : NoDup (map Sonnet.id [Scenario.doc1; Scenario.doc2]).
Proof. cbn. repeat constructor; cbn; intuition discriminate. Defined.

Lemma count_invariant_maintained_witness :
  (Searcher.search Scenario.searcher (lit "rose increase") (lit "AND") =
     Ok [SearchResult.mk (lit "Sonnet 2: Other") []
           [LineMatch.mk 1 (lit "Thy beauty's image dost thou rose increase")
              [(29, 33); (34, 42)]] 2] /\
   forall r,
     In r [SearchResult.mk (lit "Sonnet 2: Other") []
             [LineMatch.mk 1 (lit "Thy beauty's image dost thou rose increase")
                [(29, 33); (34, 42)]] 2] ->
     count_invariant r) /\
  (one_entry_per_line Scenario.res_a /\ count_invariant Scenario.res_a /\
   count_invariant Scenario.res_b /\
   count_invariant (SearchResult.combine_with Scenario.res_a Scenario.res_b)) /\
  (NoDup (map Sonnet.id [Scenario.doc1; Scenario.doc2]) /\
   exists rs,
     Searcher.search (Searcher.init [Scenario.doc1; Scenario.doc2])
       (lit "fairest rose") (lit "OR") = Ok rs).
Proof.
  assert (Hs : Searcher.search Scenario.searcher (lit "rose increase") (lit "AND") =
               Ok [SearchResult.mk (lit "Sonnet 2: Other") []
                     [LineMatch.mk 1
                        (lit "Thy beauty's image dost thou rose increase")
                        [(29, 33); (34, 42)]] 2])
    by (vm_compute; reflexivity).
  assert (Ha : count_invariant Scenario.res_a) by reflexivity.
  assert (Hb : count_invariant Scenario.res_b) by reflexivity.
  assert (H1 : one_entry_per_line Scenario.res_a)
    by (repeat constructor; cbn; tauto).
  split; [|split].
  - split; [exact Hs|].
    exact (proj1 (proj2 (proj2 count_invariant_maintained))
             Scenario.searcher (lit "rose increase") (lit "AND") _ Hs).
  - repeat (split; [assumption|]).
    exact (proj1 (proj2 count_invariant_maintained)
             Scenario.res_a Scenario.res_b H1 Ha Hb).
  - split; [exact scenario_ids_distinct|].
    exact (proj2 (proj2 (proj2 (proj2 count_invariant_maintained))
                    [Scenario.doc1; Scenario.doc2] scenario_ids_distinct)
             (lit "fairest rose") (lit "OR")).
Defined.

(** *** The search modes *)

Lemma str_eqb_neq (a b : str) : a <> b -> str_eqb a b = false.
Proof. intros Hne. destruct (str_eqb_spec a b); congruence. Qed.

Lemma and_step_keys (combined_results results : dict Z SearchResult.t) (k : Z) :
  In k (dict_keys (Searcher.and_step combined_results results)) ->
  In k (dict_keys combined_results) /\ In k (dict_keys results).
Proof.
  unfold Searcher.and_step.
  assert (Hgen : forall l acc,
    In k (dict_keys (fold_left
      (fun new_combined '(doc_id, cur) =>
         match dict_get results doc_id with
         | Some r => dict_set new_combined doc_id (SearchResult.combine_with cur r)
         | None => new_combined
         end) l acc)) ->
    In k (dict_keys acc) \/ (In k (dict_keys l) /\ In k (dict_keys results))).
  { induction l as [|[d cur] l IH]; intros acc; cbn [fold_left]; [tauto|].
    intros Hin. apply IH in Hin. cbn [dict_keys map fst].
    destruct Hin as [Hin|[H1 H2]]; [|right; split; [now right | assumption]].
    destruct (dict_get results d) as [r|] eqn:Hg; [|now left].
    rewrite dict_keys_set in Hin.
    destruct (dict_mem acc d); [now left|].
    apply in_app_or in Hin. destruct Hin as [Hin|[<-|[]]]; [now left|].
    right. split; [now left|]. apply dict_get_some_in in Hg.
    change d with (fst (d, r)). now apply in_map. }
  intros Hin. apply Hgen in Hin. destruct Hin as [[]|Hin]. exact Hin.
Qed.

(** When the first word matches something, a two-word [AND] query keeps
    only documents of both words' results. *)
Lemma and_search_sound (self : Searcher.t) (query w1 w2 : str)
  (r1 r2 : dict Z SearchResult.t) :
  split query = [w1; w2] ->
  Index.search_for (Searcher.index self) w1 = Ok r1 ->
  Index.search_for (Searcher.index self) w2 = Ok r2 ->
  r1 <> [] ->
  exists c,
    Searcher.combined self query (lit "AND") = Ok c /\
    forall k, In k (dict_keys c) -> In k (dict_keys r1) /\ In k (dict_keys r2).
Proof.
  intros Hq H1 H2 Hne. unfold Searcher.combined. rewrite Hq.
  cbn [for_each]. unfold Searcher.word_step at 1. rewrite H1. cbn [bind dict_is_empty].
  unfold Searcher.word_step. rewrite H2. cbn [bind].
  destruct r1 as [|e r1]; [congruence|]. cbn [dict_is_empty].
  change (str_eqb (lit "AND") (lit "AND")) with true. cbn iota.
  eexists. split; [reflexivity|]. apply and_step_keys.
Qed.

(** When the first word matches nothing, the second word is taken for the
    first one, whatever the mode. *)
Lemma search_restarts (self : Searcher.t) (query search_mode w1 w2 : str) :
  split query = [w1; w2] ->
  Index.search_for (Searcher.index self) w1 = Ok [] ->
  Searcher.combined self query search_mode =
  Index.search_for (Searcher.index self) w2.
Proof.
  intros Hq H1. unfold Searcher.combined. rewrite Hq. cbn [for_each].
  unfold Searcher.word_step. rewrite H1. cbn [bind dict_is_empty].
  destruct (Index.search_for (Searcher.index self) w2); reflexivity.
Qed.

(** C1 at the failing input: in the scenario's corpus no document contains
    ["zzz"], yet the [AND] query ["zzz rose"] returns the document that
    contains ["rose"]; the test [not combined_results] takes the second word
    for the first one. *)
Theorem and_search_first_word_unmatched :
  split (lit "zzz rose") = [lit "zzz"; lit "rose"] /\
  Index.search_for (Searcher.index Scenario.searcher) (lit "zzz") = Ok [] /\
  Searcher.combined Scenario.searcher (lit "zzz rose") (lit "AND") =
    Index.search_for (Searcher.index Scenario.searcher) (lit "rose") /\
  Searcher.search Scenario.searcher (lit "zzz rose") (lit "AND") =
    Ok [SearchResult.mk (lit "Sonnet 2: Other") []
          [LineMatch.mk 1 (lit "Thy beauty's image dost thou rose increase")
             [(29, 33)]] 1].
Proof. repeat split; vm_compute; reflexivity. Qed.

(** C2, as stated, fails: with the unknown mode ["XOR"] the two-word query
    ["rose increase"] raises nothing. *)
Lemma unknown_mode_counterexample :
  ~ (forall (sonnets : list Sonnet.t) (query search_mode : str),
       NoDup (map Sonnet.id sonnets) ->
       (2 <= length (split query))%nat ->
       search_mode <> lit "AND" -> search_mode <> lit "OR" ->
       signals_invalid_argument
         (Searcher.search (Searcher.init sonnets) query search_mode)).
Proof.
  intros H.
  specialize (H [Scenario.doc1; Scenario.doc2] (lit "rose increase") (lit "XOR")
                scenario_ids_distinct).
  unfold signals_invalid_argument in H.
  assert (Hs : Searcher.search (Searcher.init [Scenario.doc1; Scenario.doc2])
                 (lit "rose increase") (lit "XOR") =
               Ok [SearchResult.mk (lit "Sonnet 2: Other") []
                     [LineMatch.mk 1
                        (lit "Thy beauty's image dost thou rose increase")
                        [(29, 33)]] 1])
    by (vm_compute; reflexivity).
  rewrite Hs in H.
  assert (Hraise : Ok [SearchResult.mk (lit "Sonnet 2: Other") []
                     [LineMatch.mk 1
                        (lit "Thy beauty's image dost thou rose increase")
                        [(29, 33)]] 1] = Raise ValueError).
  { apply H.
    - vm_compute. lia.
    - intros Heq. vm_compute in Heq. discriminate Heq.
    - intros Heq. vm_compute in Heq. discriminate Heq. }
  discriminate Hraise.
Qed.

Lemma for_each_cons {A S} (body : S -> A -> result S) (x : A) (l : list A)
  (st : S) :
  for_each body (x :: l) st = bind (body st x) (for_each body l).
Proof. reflexivity. Qed.

Lemma unknown_mode_keeps (self : Searcher.t) (search_mode : str)
  (words : list str) (combined_results : dict Z SearchResult.t) :
  index_ok (Searcher.index self) ->
  search_mode <> lit "AND" -> search_mode <> lit "OR" ->
  combined_results <> [] ->
  for_each (Searcher.word_step self search_mode) words combined_results =
  Ok combined_results.
Proof.
  intros Hidx Hand Hor Hne.
  induction words as [|w words IH]; cbn [for_each]; [reflexivity|].
  unfold Searcher.word_step at 1.
  destruct (search_for_good _ w Hidx) as (results & -> & _). cbn [bind].
  destruct combined_results as [|e c]; [congruence|]. cbn [dict_is_empty].
  rewrite (str_eqb_neq _ _ Hand), (str_eqb_neq _ _ Hor). cbn [bind].
  exact IH.
Qed.

(** C2 (as the code has it): on a searcher built from sonnets with pairwise
    distinct identifiers, a query of at least two words in a mode other than
    ["AND"] and ["OR"] raises nothing and returns a result list; when the
    first word matches something, the list is the sorted results of the first
    word alone, the later words being ignored. *)
Theorem unknown_mode_returns (sonnets : list Sonnet.t)
  (query search_mode w1 w2 : str) (rest : list str) :
  NoDup (map Sonnet.id sonnets) ->
  split query = w1 :: w2 :: rest ->
  search_mode <> lit "AND" -> search_mode <> lit "OR" ->
  let searcher := Searcher.init sonnets in
  (exists rs, Searcher.search searcher query search_mode = Ok rs) /\
  (forall r1,
     Index.search_for (Searcher.index searcher) w1 = Ok r1 -> r1 <> [] ->
     Searcher.search searcher query search_mode =
     Ok (sorted_by_str SearchResult.title (dict_values r1))).
Proof.
  intros Hnd Hq Hand Hor searcher.
  assert (Hidx : index_ok (Searcher.index searcher)) by now apply init_ok.
  split.
  - destruct (search_good searcher query search_mode Hidx) as (rs & Hs & _).
    now exists rs.
  - intros r1 H1 Hne. unfold Searcher.search, Searcher.combined. rewrite Hq.
    rewrite for_each_cons. unfold Searcher.word_step at 1. rewrite H1.
    cbn [bind dict_is_empty].
    rewrite unknown_mode_keeps by assumption. reflexivity.
Qed.

Lemma unknown_mode_returns_witness :
  NoDup (map Sonnet.id [Scenario.doc1; Scenario.doc2]) /\
  split (lit "rose increase") = [lit "rose"; lit "increase"] /\
  lit "XOR" <> lit "AND" /\ lit "XOR" <> lit "OR" /\
  (exists rs,
     Searcher.search Scenario.searcher (lit "rose increase") (lit "XOR") = Ok rs) /\
  (forall r1,
     Index.search_for (Searcher.index Scenario.searcher) (lit "rose") = Ok r1 ->
     r1 <> [] ->
     Searcher.search Scenario.searcher (lit "rose increase") (lit "XOR") =
     Ok (sorted_by_str SearchResult.title (dict_values r1))).
Proof.
  assert (Hand : lit "XOR" <> lit "AND") by (intros Heq; discriminate Heq).
  assert (Hor : lit "XOR" <> lit "OR") by (intros Heq; discriminate Heq).
  assert (Hq : split (lit "rose increase") = [lit "rose"; lit "increase"])
    by reflexivity.
  repeat (split; [assumption || exact scenario_ids_distinct|]).
  exact (unknown_mode_returns [Scenario.doc1; Scenario.doc2]
           (lit "rose increase") (lit "XOR") (lit "rose") (lit "increase")
           [] scenario_ids_distinct Hq Hand Hor).
Defined.

(** ** The highlighter *)

Lemma merge_loop (rest : list Span) (merged : list Span) (cs ce : Z) :
  (let '(merged', cs', ce') :=
     fold_left SearchResult.merge_step rest (merged, cs, ce) in
   merged' ++ [(cs', ce')]) = merged ++ merge_from cs ce rest.
Proof.
  revert merged cs ce.
  induction rest as [|[s e] rest IH]; intros merged cs ce; [reflexivity|].
  cbn [fold_left merge_from SearchResult.merge_step].
  destruct (s <=? ce).
  - apply IH.
  - rewrite IH. now rewrite <- app_assoc.
Qed.

Lemma merge_spans_from (s0 e0 : Z) (rest : list Span) :
  SearchResult.merge_spans ((s0, e0) :: rest) = merge_from s0 e0 rest.
Proof. unfold SearchResult.merge_spans. apply (merge_loop rest [] s0 e0). Qed.

(** The first merged region starts where the current one starts. *)
Lemma merge_from_head (cs ce : Z) (rest : list Span) :
  exists ce' tl, merge_from cs ce rest = (cs, ce') :: tl /\ ce <= ce'.
Proof.
  revert ce. induction rest as [|[s e] rest IH]; intros ce; cbn [merge_from].
  - exists ce, []. split; [reflexivity | lia].
  - destruct (s <=? ce).
    + destruct (IH (Z.max ce e)) as (ce' & tl & -> & Hle).
      exists ce', tl. split; [reflexivity | lia].
    + exists ce, (merge_from s e rest). split; [reflexivity | lia].
Qed.

Lemma merge_from_wf (cs ce : Z) (rest : list Span) :
  wf_span (cs, ce) -> Forall wf_span rest -> by_start ((cs, ce) :: rest) ->
  Forall wf_span (merge_from cs ce rest).
Proof.
  revert cs ce. induction rest as [|[s e] rest IH]; intros cs ce Hc Hw Hs;
    cbn [merge_from]; [constructor; [assumption | constructor]|].
  inversion Hw as [|? ? Hse Hw']; subst.
  inversion Hs as [|? ? Hs' Hall]; subst.
  inversion Hall as [|? ? Hcs Hall']; subst.
  unfold wf_span in *. cbn [fst snd] in *.
  destruct (Z.leb_spec s ce).
  - apply IH; [cbn; lia | assumption |].
    constructor; [now inversion Hs'|]. exact Hall'.
  - constructor; [cbn; lia|]. apply IH; [cbn; lia | assumption | assumption].
Qed.

Lemma merge_from_separated (cs ce : Z) (rest : list Span) :
  by_start ((cs, ce) :: rest) -> separated (merge_from cs ce rest).
Proof.
  revert cs ce. induction rest as [|[s e] rest IH]; intros cs ce Hs;
    cbn [merge_from]; [repeat constructor|].
  inversion Hs as [|? ? Hs' Hall]; subst.
  inversion Hall as [|? ? Hcs Hall']; subst.
  destruct (Z.leb_spec s ce).
  - apply IH. constructor; [now inversion Hs' | exact Hall'].
  - constructor; [now apply IH|].
    destruct (merge_from_head s e rest) as (ce' & tl & -> & _).
    constructor. cbn. lia.
Qed.

Lemma merge_from_covers (cs ce : Z) (rest : list Span) (k : Z) :
  wf_span (cs, ce) -> Forall wf_span rest -> by_start ((cs, ce) :: rest) ->
  Exists (fun sp => covers sp k) ((cs, ce) :: rest) <->
  Exists (fun rg => covers rg k) (merge_from cs ce rest).
Proof.
  revert cs ce. induction rest as [|[s e] rest IH]; intros cs ce Hc Hw Hs;
    cbn [merge_from]; [reflexivity|].
  inversion Hw as [|? ? Hse Hw']; subst.
  inversion Hs as [|? ? Hs' Hall]; subst.
  inversion Hall as [|? ? Hcs Hall']; subst.
  unfold wf_span in *. cbn [fst snd] in *.
  destruct (Z.leb_spec s ce).
  - rewrite <- IH; [| cbn; lia | assumption |
                    constructor; [now inversion Hs' | exact Hall']].
    rewrite !Exists_cons. unfold covers. cbn [fst snd]. intuition lia.
  - rewrite !Exists_cons.
    rewrite <- IH; [| cbn; lia | assumption | assumption].
    rewrite !Exists_cons. tauto.
Qed.

Lemma emit_loop (text ansi_sequence : str) (merged : list Span)
  (out : list str) (i : Z) :
  fold_left (SearchResult.emit_step text ansi_sequence) merged (out, i) =
  (out ++ flat_map (fun ph => [fst ph; ansi_sequence; snd ph; SearchResult.ansi_reset])
            (pieces_from text i merged),
   last_end i merged).
Proof.
  revert out i. induction merged as [|[s e] merged IH]; intros out i.
  - cbn. now rewrite app_nil_r.
  - cbn [fold_left SearchResult.emit_step pieces_from flat_map fst snd].
    rewrite IH. unfold last_end. cbn [fold_left snd].
    now rewrite <- app_assoc.
Qed.

Lemma concat_emit (text ansi_sequence : str) (merged : list Span) :
  concat (SearchResult.emit text ansi_sequence merged) =
  render ansi_sequence (pieces_from text 0 merged)
    (slice_from text (last_end 0 merged)).
Proof.
  unfold SearchResult.emit, render. rewrite emit_loop. cbn [app].
  rewrite concat_app. cbn [concat]. rewrite app_nil_r. f_equal.
  induction (pieces_from text 0 merged) as [|[p h] pieces IH]; [reflexivity|].
  cbn [flat_map map concat fst snd app]. rewrite <- IH.
  cbn [concat]. now rewrite <- !app_assoc.
Qed.

Lemma pieces_from_regions (text : str) (i : Z) (merged : list Span) :
  map snd (pieces_from text i merged) =
  map (fun rg => slice_range text (fst rg) (snd rg)) merged.
Proof.
  revert i. induction merged as [|[s e] merged IH]; intros i; [reflexivity|].
  cbn [pieces_from map fst snd]. now rewrite IH.
Qed.

(** Slices with bounds that are not negative. *)
Lemma norm_index_nonneg (n i : Z) :
  0 <= i -> 0 <= n -> norm_index n i = Z.min i n.
Proof. intros Hi Hn. unfold norm_index. destruct (Z.ltb_spec i 0); lia. Qed.

Lemma slice_from_zero {A} (l : list A) : slice_from l 0 = l.
Proof.
  unfold slice_from, slice, norm_index, len. cbn [Z.ltb Z.compare].
  rewrite Z.min_l by lia. cbn [Z.to_nat skipn].
  rewrite Nat2Z.id. apply firstn_all.
Qed.

Lemma slice_range_from {A} (l : list A) (i j : Z) :
  0 <= i <= j -> slice_range l i j ++ slice_from l j = slice_from l i.
Proof.
  intros Hij. unfold slice_range, slice_from, slice.
  assert (Hn : 0 <= len l) by (unfold len; lia).
  rewrite !norm_index_nonneg by lia.
  unfold len in *. rewrite Nat2Z.id, firstn_all.
  set (a := Z.to_nat (Z.min i (Z.of_nat (length l)))).
  set (b := Z.to_nat (Z.min j (Z.of_nat (length l)))).
  assert (Hab : (a <= b)%nat) by lia.
  assert (Hb : (b <= length l)%nat) by lia.
  rewrite <- (firstn_skipn b l) at 3.
  rewrite skipn_app, length_firstn, Nat.min_l by assumption.
  replace (a - b)%nat with 0%nat by lia. reflexivity.
Qed.

Lemma unmarked_pieces (text : str) (merged : list Span) (i : Z) :
  0 <= i -> Forall wf_span merged -> separated merged ->
  (forall rg, hd_error merged = Some rg -> i <= fst rg) ->
  unmarked (pieces_from text i merged) (slice_from text (last_end i merged)) =
  slice_from text i.
Proof.
  unfold unmarked. revert i.
  induction merged as [|[s e] merged IH]; intros i Hi Hw Hsep Hhd;
    [reflexivity|].
  inversion Hw as [|? ? Hse Hw']; subst.
  inversion Hsep as [|? ? Hsep' Hrel]; subst.
  unfold wf_span in Hse. cbn [fst snd] in Hse.
  specialize (Hhd _ eq_refl). cbn [fst] in Hhd.
  cbn [pieces_from map concat fst snd]. unfold last_end. cbn [fold_left snd].
  fold (last_end e merged). rewrite <- !app_assoc.
  rewrite IH; [| lia | assumption | assumption |].
  - rewrite slice_range_from by lia. apply slice_range_from. lia.
  - intros rg Hrg. destruct merged as [|rg' merged]; [discriminate|].
    cbn in Hrg. injection Hrg as <-. inversion Hrel; subst. cbn in *. lia.
Qed.

Lemma sorted_by_start (spans : list Span) : by_start (sorted span_leb spans).
Proof.
  pose proof (sorted_ordered span_leb span_leb_total span_leb_trans spans) as Hs.
  unfold by_start.
  induction Hs as [|x l Hs IH Hall]; constructor; [assumption|].
  eapply Forall_impl; [|exact Hall]. intros y Hy.
  apply span_leb_le in Hy. unfold span_le in Hy. lia.
Qed.

(** Regions that are separated and in order are left alone by the sort and
    by the merge. *)
Lemma separated_ordered (l : list Span) :
  Forall wf_span l -> separated l ->
  StronglySorted (fun a b => span_leb a b = true) l.
Proof.
  intros Hw Hsep.
  assert (Hlt : StronglySorted (fun a b : Span => fst a < fst b) l).
  { apply Sorted_StronglySorted; [intros x y z; lia|].
    induction Hsep as [|x l Hsep IH Hrel]; constructor.
    - apply IH. now inversion Hw.
    - inversion Hw as [|? ? Hx _]; subst. unfold wf_span in Hx.
      destruct Hrel; constructor. lia. }
  clear Hw Hsep. induction Hlt as [|x l Hs IH Hall]; constructor; [assumption|].
  eapply Forall_impl; [|exact Hall]. intros y Hy. apply span_leb_le.
  left. exact Hy.
Qed.

Lemma merge_from_separated_id (cs ce : Z) (rest : list Span) :
  separated ((cs, ce) :: rest) -> merge_from cs ce rest = (cs, ce) :: rest.
Proof.
  revert cs ce. induction rest as [|[s e] rest IH]; intros cs ce Hsep;
    [reflexivity|].
  inversion Hsep as [|? ? Hsep' Hrel]; subst. inversion Hrel; subst.
  cbn [fst snd] in *. cbn [merge_from].
  destruct (Z.leb_spec s ce); [lia|]. now rewrite IH.
Qed.

Lemma merge_spans_separated_id (l : list Span) :
  Forall wf_span l -> separated l ->
  SearchResult.merge_spans (sorted span_leb l) = l.
Proof.
  intros Hw Hsep.
  rewrite (sorted_fixed span_leb l (separated_ordered l Hw Hsep)).
  destruct l as [|[s e] l]; [reflexivity|].
  rewrite merge_spans_from. now apply merge_from_separated_id.
Qed.

Lemma merge_spans_props (spans : list Span) :
  Forall wf_span spans -> by_start spans ->
  let merged := SearchResult.merge_spans spans in
  Forall wf_span merged /\ separated merged /\
  forall k, Exists (fun sp => covers sp k) spans <->
            Exists (fun rg => covers rg k) merged.
Proof.
  intros Hw Hs. destruct spans as [|[s0 e0] rest].
  - cbn. repeat split; try constructor; tauto.
  - cbv zeta. rewrite merge_spans_from.
    inversion Hw as [|? ? H0 Hw']; subst.
    split; [now apply merge_from_wf|].
    split; [now apply merge_from_separated|].
    intros k. now apply merge_from_covers.
Qed.

(** C8: [ansi_highlight].  Without spans the text is returned as it is.  For
    spans that are intervals (0 <= start <= end): the spans are sorted by
    start; the merged regions are intervals in ascending order with a gap
    between neighbours (a span that starts at or before the current end has
    been merged into it) that cover exactly the positions the spans cover;
    the output is the text before each region, the opening marker, the text
    of the region and the closing marker, then the text after the last
    region, and without the markers it is the text.  The spans (0,3) and
    (2,5) give the one region (0,5), and regions that already lie apart stay
    as they are. *)
Theorem ansi_highlight_spec (text : str) (spans : list Span)
  (highlight_mode : str) :
  SearchResult.ansi_highlight text [] highlight_mode = text /\
  (Forall wf_span spans ->
   let sorted_spans := sorted span_leb spans in
   let merged := SearchResult.merge_spans sorted_spans in
   (Permutation sorted_spans spans /\ by_start sorted_spans) /\
   (Forall wf_span merged /\ separated merged /\
    forall k, Exists (fun sp => covers sp k) spans <->
              Exists (fun rg => covers rg k) merged) /\
   (let pieces := pieces_from text 0 merged in
    let rest := slice_from text (last_end 0 merged) in
    map snd pieces =
      map (fun rg => slice_range text (fst rg) (snd rg)) merged /\
    SearchResult.ansi_highlight text spans highlight_mode =
      render (ansi_sequence_of highlight_mode) pieces rest /\
    unmarked pieces rest = text)) /\
  (SearchResult.merge_spans (sorted span_leb [(0, 3); (2, 5)]) = [(0, 5)] /\
   SearchResult.ansi_highlight (lit "abcdefghij") [(0, 3); (2, 5)] (lit "DEFAULT")
   = SearchResult.ansi_default ++ lit "abcde" ++ SearchResult.ansi_reset ++
     lit "fghij") /\
  (forall regions,
     Forall wf_span regions -> separated regions ->
     SearchResult.merge_spans (sorted span_leb regions) = regions).
Proof.
  split; [reflexivity|]. split; [|split].
  - intros Hw sorted_spans merged.
    assert (Hperm : Permutation sorted_spans spans) by apply sorted_perm.
    assert (Hstart : by_start sorted_spans) by apply sorted_by_start.
    assert (Hw' : Forall wf_span sorted_spans).
    { rewrite Forall_forall in Hw |- *. intros sp Hin. apply Hw.
      now apply (Permutation_in _ Hperm). }
    destruct (merge_spans_props sorted_spans Hw' Hstart) as (Hmw & Hsep & Hcov).
    fold merged in Hmw, Hsep, Hcov.
    split; [now split|]. split.
    + split; [assumption|]. split; [assumption|]. intros k.
      rewrite <- Hcov. rewrite !Exists_exists.
      split; intros (sp & Hin & Hk); exists sp; (split; [|assumption]).
      * now apply (Permutation_in _ (Permutation_sym Hperm)).
      * now apply (Permutation_in _ Hperm).
    + cbv zeta. split; [apply pieces_from_regions|]. split.
      * destruct spans as [|sp spans'].
        -- cbn. now rewrite slice_from_zero.
        -- unfold SearchResult.ansi_highlight. apply concat_emit.
      * rewrite unmarked_pieces; [apply slice_from_zero | lia | assumption
                                 | assumption |].
        intros rg Hrg. destruct merged as [|rg' m]; [discriminate|].
        cbn in Hrg. injection Hrg as <-. inversion Hmw as [|? ? Hrg _]; subst.
        unfold wf_span in Hrg. lia.
  - split; vm_compute; reflexivity.
  - exact merge_spans_separated_id.
Qed.

Lemma ansi_highlight_spec_witness :
  (Forall wf_span [(4, 6); (0, 3); (2, 5)] /\
   let merged :=
     SearchResult.merge_spans (sorted span_leb [(4, 6); (0, 3); (2, 5)]) in
   let pieces := pieces_from (lit "abcdefghij") 0 merged in
   let rest := slice_from (lit "abcdefghij") (last_end 0 merged) in
   map snd pieces =
     map (fun rg => slice_range (lit "abcdefghij") (fst rg) (snd rg)) merged /\
   SearchResult.ansi_highlight (lit "abcdefghij") [(4, 6); (0, 3); (2, 5)]
     (lit "GREEN") = render (ansi_sequence_of (lit "GREEN")) pieces rest /\
   unmarked pieces rest = lit "abcdefghij") /\
  (Forall wf_span [(0, 2); (4, 6)] /\ separated [(0, 2); (4, 6)] /\
   SearchResult.merge_spans (sorted span_leb [(0, 2); (4, 6)]) = [(0, 2); (4, 6)]).
Proof.
  assert (Hw : Forall wf_span [(4, 6); (0, 3); (2, 5)])
    by (repeat constructor; cbn; lia).
  assert (Hw2 : Forall wf_span [(0, 2); (4, 6)])
    by (repeat constructor; cbn; lia).
  assert (Hsep : separated [(0, 2); (4, 6)])
    by (repeat constructor; cbn; lia).
  split.
  - split; [exact Hw|].
    exact (proj2 (proj2 (proj1 (proj2
             (ansi_highlight_spec (lit "abcdefghij") [(4, 6); (0, 3); (2, 5)]
                (lit "GREEN"))) Hw))).
  - split; [exact Hw2|]. split; [exact Hsep|].
    exact (proj2 (proj2 (proj2
             (ansi_highlight_spec (lit "abcdefghij") [] (lit "GREEN"))))
             [(0, 2); (4, 6)] Hw2 Hsep).
Defined.

(** ** [combine_with] on the store *)

Module HeapFacts.
Import Heap.

Lemma nth_error_update_eq (h : heap) (l : loc) (o : obj) :
  (l < length h)%nat -> nth_error (update h l o) l = Some o.
Proof.
  revert l. induction h as [|x h IH]; intros [|l] Hl; cbn in *; try lia.
  - reflexivity.
  - apply IH. lia.
Qed.

Lemma nth_error_update_ne (h : heap) (l l' : loc) (o : obj) :
  l <> l' -> nth_error (update h l o) l' = nth_error h l'.
Proof.
  revert l l'. induction h as [|x h IH]; intros [|l] [|l'] Hne; cbn;
    try reflexivity; try congruence.
  apply IH. congruence.
Qed.

Lemma length_update (h : heap) (l : loc) (o : obj) :
  length (update h l o) = length h.
Proof.
  revert l. induction h as [|x h IH]; intros [|l]; cbn; try reflexivity.
  now rewrite IH.
Qed.

Lemma nth_error_some_lt (h : heap) (l : loc) (o : obj) :
  nth_error h l = Some o -> (l < length h)%nat.
Proof. intros H. apply nth_error_Some. congruence. Qed.

Lemma nth_error_grow (h e : heap) (l : loc) (o : obj) :
  nth_error h l = Some o -> nth_error (h ++ e) l = Some o.
Proof.
  intros H. rewrite nth_error_app1; [assumption|].
  now apply nth_error_some_lt in H.
Qed.

Lemma nth_error_fresh (h : heap) (o : obj) :
  nth_error (h ++ [o]) (length h) = Some o.
Proof. rewrite nth_error_app2 by lia. now rewrite Nat.sub_diag. Qed.

(** *** Running the primitives *)

Lemma bind_run {A B} (m : M A) (f : A -> M B) (h h' : heap) (a : A) :
  m h = Some (a, h') -> bind m f h = f a h'.
Proof. intros H. unfold bind. now rewrite H. Qed.

Lemma read_run (h : heap) (l : loc) (o : obj) :
  nth_error h l = Some o -> read l h = Some (o, h).
Proof. intros H. unfold read. now rewrite H. Qed.

Lemma write_run (h : heap) (l : loc) (o0 o : obj) :
  nth_error h l = Some o0 -> write l o h = Some (tt, update h l o).
Proof. intros H. unfold write. now rewrite H. Qed.

Lemma span_items_run (h : heap) (l : loc) (s : list Span) :
  repr_spans h l s -> span_items l h = Some (s, h).
Proof. intros H. unfold span_items. now rewrite (bind_run _ _ _ _ _ (read_run _ _ _ H)). Qed.

Lemma ref_items_run (h : heap) (l : loc) (r : list loc) :
  nth_error h l = Some (OLineMatches r) -> ref_items l h = Some (r, h).
Proof. intros H. unfold ref_items. now rewrite (bind_run _ _ _ _ _ (read_run _ _ _ H)). Qed.

Section LineMatchAttributes.
Variables (h : heap) (l : loc) (ln : Z) (t : str) (sp : loc).
Hypothesis Hobj : nth_error h l = Some (OLineMatch ln t sp).

Lemma lm_line_no_run : lm_line_no l h = Some (ln, h).
Proof. unfold lm_line_no. now rewrite (bind_run _ _ _ _ _ (read_run _ _ _ Hobj)). Qed.

Lemma lm_text_run : lm_text l h = Some (t, h).
Proof. unfold lm_text. now rewrite (bind_run _ _ _ _ _ (read_run _ _ _ Hobj)). Qed.

Lemma lm_spans_run : lm_spans l h = Some (sp, h).
Proof. unfold lm_spans. now rewrite (bind_run _ _ _ _ _ (read_run _ _ _ Hobj)). Qed.

Lemma lm_set_spans_run (v : loc) :
  lm_set_spans l v h = Some (tt, update h l (OLineMatch ln t v)).
Proof.
  unfold lm_set_spans. rewrite (bind_run _ _ _ _ _ (read_run _ _ _ Hobj)).
  now apply write_run with (o0 := OLineMatch ln t sp).
Qed.
End LineMatchAttributes.

Section SearchResultAttributes.
Variables (h : heap) (l : loc) (t : str) (ts lms : loc) (m : Z).
Hypothesis Hobj : nth_error h l = Some (OSearchResult t ts lms m).

Lemma sr_title_run : sr_title l h = Some (t, h).
Proof. unfold sr_title. now rewrite (bind_run _ _ _ _ _ (read_run _ _ _ Hobj)). Qed.

Lemma sr_title_spans_run : sr_title_spans l h = Some (ts, h).
Proof. unfold sr_title_spans. now rewrite (bind_run _ _ _ _ _ (read_run _ _ _ Hobj)). Qed.

Lemma sr_line_matches_run : sr_line_matches l h = Some (lms, h).
Proof. unfold sr_line_matches. now rewrite (bind_run _ _ _ _ _ (read_run _ _ _ Hobj)). Qed.

Lemma sr_matches_run : sr_matches l h = Some (m, h).
Proof. unfold sr_matches. now rewrite (bind_run _ _ _ _ _ (read_run _ _ _ Hobj)). Qed.

Lemma sr_set_matches_run (v : Z) :
  sr_set_matches l v h = Some (tt, update h l (OSearchResult t ts lms v)).
Proof.
  unfold sr_set_matches. rewrite (bind_run _ _ _ _ _ (read_run _ _ _ Hobj)).
  now apply write_run with (o0 := OSearchResult t ts lms m).
Qed.

Lemma sr_set_title_spans_run (v : loc) :
  sr_set_title_spans l v h = Some (tt, update h l (OSearchResult t v lms m)).
Proof.
  unfold sr_set_title_spans. rewrite (bind_run _ _ _ _ _ (read_run _ _ _ Hobj)).
  now apply write_run with (o0 := OSearchResult t ts lms m).
Qed.

Lemma sr_set_line_matches_run (v : loc) :
  sr_set_line_matches l v h = Some (tt, update h l (OSearchResult t ts v m)).
Proof.
  unfold sr_set_line_matches. rewrite (bind_run _ _ _ _ _ (read_run _ _ _ Hobj)).
  now apply write_run with (o0 := OSearchResult t ts lms m).
Qed.
End SearchResultAttributes.

Lemma list_copy_run (h : heap) (x : loc) (s : list Span) :
  repr_spans h x s -> list_copy x h = Some (length h, h ++ [OSpans s]).
Proof.
  intros H. unfold list_copy.
  now rewrite (bind_run _ _ _ _ _ (span_items_run _ _ _ H)).
Qed.

Lemma list_concat_run (h : heap) (x y : loc) (a b : list Span) :
  repr_spans h x a -> repr_spans h y b ->
  list_concat x y h = Some (length h, h ++ [OSpans (a ++ b)]).
Proof.
  intros Hx Hy. unfold list_concat.
  rewrite (bind_run _ _ _ _ _ (span_items_run _ _ _ Hx)).
  now rewrite (bind_run _ _ _ _ _ (span_items_run _ _ _ Hy)).
Qed.

Lemma list_sorted_run (h : heap) (x : loc) (a : list Span) :
  repr_spans h x a ->
  list_sorted x h = Some (length h, h ++ [OSpans (sorted span_leb a)]).
Proof.
  intros Hx. unfold list_sorted.
  now rewrite (bind_run _ _ _ _ _ (span_items_run _ _ _ Hx)).
Qed.

Lemma LineMatch_copy_run (h : heap) (l : loc) (lm : LineMatch.t) :
  repr_lm h l lm ->
  LineMatch_copy l h =
  Some (S (length h),
        h ++ [OSpans (LineMatch.spans lm);
              OLineMatch (LineMatch.line_no lm) (LineMatch.text lm) (length h)]).
Proof.
  intros (sp & Hl & Hsp). unfold LineMatch_copy.
  rewrite (bind_run _ _ _ _ _ (lm_line_no_run _ _ _ _ _ Hl)).
  rewrite (bind_run _ _ _ _ _ (lm_text_run _ _ _ _ _ Hl)).
  rewrite (bind_run _ _ _ _ _ (lm_spans_run _ _ _ _ _ Hl)).
  rewrite (bind_run _ _ _ _ _ (list_copy_run _ _ _ Hsp)).
  unfold alloc. rewrite length_app. cbn [length].
  rewrite <- app_assoc. cbn [app]. do 3 f_equal. lia.
Qed.

(** *** What stays in the store *)

Lemma keeps_refl (base : nat) (h : heap) : keeps base h h.
Proof. split; [lia | auto]. Qed.

Lemma keeps_trans (base : nat) (h1 h2 h3 : heap) :
  keeps base h1 h2 -> keeps base h2 h3 -> keeps base h1 h3.
Proof.
  intros [Hl1 H1] [Hl2 H2]. split; [lia|].
  intros l o Hl Hwhy. apply H2; [|assumption]. now apply H1.
Qed.

Lemma keeps_grow (base : nat) (h e : heap) : keeps base h (h ++ e).
Proof.
  split; [rewrite length_app; lia|].
  intros l o Hl _. now apply nth_error_grow.
Qed.

(** An attribute assignment on a [LineMatch] made after [base]. *)
Lemma keeps_update (base : nat) (h : heap) (l : loc) (ln : Z) (t : str)
  (sp : loc) (o : obj) :
  nth_error h l = Some (OLineMatch ln t sp) -> (base <= l)%nat ->
  keeps base h (update h l o).
Proof.
  intros Hl Hbase. split; [rewrite length_update; lia|].
  intros l' o' Hl' Hwhy. rewrite nth_error_update_ne; [assumption|].
  intros <-. destruct Hwhy as [Hlt|Hkind]; [lia|].
  rewrite Hl in Hl'. injection Hl' as <-. now apply (Hkind ln t sp).
Qed.

Lemma repr_spans_keeps (base : nat) (h h' : heap) (l : loc) (s : list Span) :
  keeps base h h' -> repr_spans h l s -> repr_spans h' l s.
Proof.
  intros [_ Hk] Hl. apply Hk; [assumption|]. right. discriminate.
Qed.

Lemma repr_lm_keeps (base : nat) (h h' : heap) (l : loc) (lm : LineMatch.t) :
  keeps base h h' -> (l < base)%nat -> repr_lm h l lm -> repr_lm h' l lm.
Proof.
  intros Hk Hl (sp & Hobj & Hsp). exists sp. split.
  - destruct Hk as [_ Hk]. apply Hk; [assumption | now left].
  - now apply (repr_spans_keeps base h).
Qed.

Lemma repr_lm_grow (h e : heap) (l : loc) (lm : LineMatch.t) :
  repr_lm h l lm -> repr_lm (h ++ e) l lm.
Proof.
  intros (sp & Hobj & Hsp). exists sp.
  split; [now apply nth_error_grow | now apply nth_error_grow].
Qed.

(** A write to another location that does not hold a list of spans. *)
Lemma repr_lm_update (h : heap) (l c : loc) (lm : LineMatch.t) (oc o : obj) :
  repr_lm h l lm -> l <> c -> nth_error h c = Some oc ->
  (forall s, oc <> OSpans s) -> repr_lm (update h c o) l lm.
Proof.
  intros (sp & Hobj & Hsp) Hne Hc Hkind. exists sp. split.
  - rewrite nth_error_update_ne by congruence. assumption.
  - unfold repr_spans. rewrite nth_error_update_ne; [assumption|].
    intros <-. unfold repr_spans in Hsp. rewrite Hc in Hsp.
    injection Hsp as ->. now apply (Hkind (LineMatch.spans lm)).
Qed.

Lemma repr_lm_lt (h : heap) (l : loc) (lm : LineMatch.t) :
  repr_lm h l lm -> (l < length h)%nat.
Proof. intros (sp & Hobj & _). now apply nth_error_some_lt in Hobj. Qed.

Lemma refs_lt (h : heap) (refs : list loc) (lms : list LineMatch.t) :
  Forall2 (repr_lm h) refs lms -> Forall (fun x => x < length h)%nat refs.
Proof.
  induction 1 as [|x y refs lmsv Hx _ IH]; constructor;
    [now apply repr_lm_lt in Hx | assumption].
Qed.

Lemma refs_keeps (base : nat) (h h' : heap) (refs : list loc)
  (lms : list LineMatch.t) :
  keeps base h h' -> Forall (fun x => x < base)%nat refs ->
  Forall2 (repr_lm h) refs lms -> Forall2 (repr_lm h') refs lms.
Proof.
  intros Hk Hlt Hrefs.
  induction Hrefs as [|x y refs lmsv Hx _ IH]; constructor.
  - inversion Hlt; subst. now apply (repr_lm_keeps base h).
  - apply IH. now inversion Hlt.
Qed.

(** *** Dictionaries of locations against dictionaries of values *)

Section DictRepr.
Context {V PV : Type} (R : V -> PV -> Prop).

Lemma dict_get_forall2 (d : dict Z V) (pd : dict Z PV) (k : Z) :
  Forall2 (fun e pe => fst e = fst pe /\ R (snd e) (snd pe)) d pd ->
  match dict_get d k with
  | Some v => exists pv, dict_get pd k = Some pv /\ R v pv
  | None => dict_get pd k = None
  end.
Proof.
  induction 1 as [|[k0 v0] [pk0 pv0] d pd [Hk Hr] _ IH]; cbn; [reflexivity|].
  cbn in Hk, Hr. subst pk0. destruct (key_eqb k0 k); [eauto | exact IH].
Qed.

Lemma dict_set_forall2 (d : dict Z V) (pd : dict Z PV) (k : Z) (v : V) (pv : PV) :
  Forall2 (fun e pe => fst e = fst pe /\ R (snd e) (snd pe)) d pd ->
  R v pv ->
  Forall2 (fun e pe => fst e = fst pe /\ R (snd e) (snd pe))
    (dict_set d k v) (dict_set pd k pv).
Proof.
  intros Hd Hv.
  induction Hd as [|[k0 v0] [pk0 pv0] d pd [Hk Hr] Hd IH]; cbn.
  - now repeat constructor.
  - cbn in Hk, Hr. subst pk0. destruct (key_eqb k0 k).
    + constructor; [now split | assumption].
    + constructor; [now split | assumption].
Qed.

End DictRepr.

Lemma dict_values_set_nodup {V : Type} (d : dict Z V) (k : Z) (v : V) :
  NoDup (dict_values d) -> ~ In v (dict_values d) ->
  NoDup (dict_values (dict_set d k v)).
Proof.
  induction d as [|[k0 v0] d IH]; cbn; intros Hnd Hnotin.
  - constructor; [tauto | constructor].
  - inversion Hnd as [|? ? Hn0 Hnd']; subst.
    destruct (key_eqb k0 k); cbn.
    + constructor; [tauto | assumption].
    + constructor; [|apply IH; tauto].
      intros Hin. clear IH Hnd.
      assert (Hsub : forall x, In x (dict_values (dict_set d k v)) ->
                               x = v \/ In x (dict_values d)).
      { clear. induction d as [|[k1 v1] d IHd]; cbn; intros x Hx.
        - intuition congruence.
        - destruct (key_eqb k1 k); cbn in Hx |- *; [intuition congruence|].
          destruct Hx as [Hx|Hx]; [tauto|]. apply IHd in Hx. tauto. }
      apply Hsub in Hin. cbn in Hnotin. destruct Hin as [->|Hin]; tauto.
Qed.

Lemma dict_set_forall_values {V : Type} (Q : V -> Prop) (d : dict Z V) (k : Z) (v : V) :
  Forall (fun e => Q (snd e)) d -> Q v ->
  Forall (fun e => Q (snd e)) (dict_set d k v).
Proof.
  intros Hd Hv. induction Hd as [|[k0 v0] d H0 Hd IH]; cbn.
  - now repeat constructor.
  - destruct (key_eqb k0 k); constructor; assumption.
Qed.

Lemma forall2_values_impl {V PV : Type} (R R' : V -> PV -> Prop)
  (d : dict Z V) (pd : dict Z PV) :
  Forall2 (fun e pe => fst e = fst pe /\ R (snd e) (snd pe)) d pd ->
  (forall v pv, In v (dict_values d) -> R v pv -> R' v pv) ->
  Forall2 (fun e pe => fst e = fst pe /\ R' (snd e) (snd pe)) d pd.
Proof.
  induction 1 as [|[k0 v0] [pk0 pv0] d pd [Hk Hr] Hd IH]; intros Himp;
    constructor.
  - split; [assumption|]. apply Himp; [now left | assumption].
  - apply IH. intros v pv Hin. apply Himp. now right.
Qed.

(** Replacing the value of a present key on the value side, where the
    location side keeps its location. *)
Lemma dict_set_forall2_right {V PV : Type} (R R' : V -> PV -> Prop)
  (d : dict Z V) (pd : dict Z PV) (k : Z) (cur : V) (pv' : PV) :
  Forall2 (fun e pe => fst e = fst pe /\ R (snd e) (snd pe)) d pd ->
  dict_get d k = Some cur -> NoDup (dict_values d) ->
  R' cur pv' ->
  (forall v pv, In v (dict_values d) -> v <> cur -> R v pv -> R' v pv) ->
  Forall2 (fun e pe => fst e = fst pe /\ R' (snd e) (snd pe)) d (dict_set pd k pv').
Proof.
  intros Hd. revert cur.
  induction Hd as [|[k0 v0] [pk0 pv0] d pd [Hk Hr] Hd IH];
    intros cur Hg Hnd Hcur Hother; cbn in *; [discriminate|].
  subst pk0. inversion Hnd as [|? ? Hn0 Hnd']; subst.
  destruct (key_eqb k0 k).
  - injection Hg as <-. constructor; [now split|].
    apply (forall2_values_impl R R'); [assumption|].
    intros v pv Hin. apply Hother; [now right|].
    intros ->. now apply Hn0.
  - assert (Hin : In cur (dict_values d)).
    { apply dict_get_some_in in Hg. change cur with (snd (k, cur)).
      now apply in_map. }
    constructor.
    + cbn. split; [reflexivity|]. apply Hother; [now left | | assumption].
      intros ->. now apply Hn0.
    + apply (IH cur); try assumption.
      intros v pv Hv. apply Hother. now right.
Qed.

Lemma sorted_forall2 {A B : Type} (R : A -> B -> Prop)
  (leb1 : A -> A -> bool) (leb2 : B -> B -> bool) (l1 : list A) (l2 : list B) :
  (forall a b a' b', R a a' -> R b b' -> leb1 a b = leb2 a' b') ->
  Forall2 R l1 l2 -> Forall2 R (sorted leb1 l1) (sorted leb2 l2).
Proof.
  intros Hleb Hl. unfold sorted.
  induction Hl as [|x y l1 l2 Hxy Hl IH]; cbn [fold_right]; [constructor|].
  revert IH. generalize (fold_right (insert_sorted leb1) [] l1)
                        (fold_right (insert_sorted leb2) [] l2).
  intros s1 s2 Hs. induction Hs as [|a b s1 s2 Hab Hs IHs]; cbn.
  - now repeat constructor.
  - rewrite (Hleb x a y b Hxy Hab). destruct (leb2 y b).
    + constructor; [assumption|]. now constructor.
    + constructor; assumption.
Qed.

(** *** The copies *)

Lemma map_each_copy_run (refs : list loc) (lms : list LineMatch.t) (h : heap) :
  Forall2 (repr_lm h) refs lms ->
  exists refs' e, map_each LineMatch_copy refs h = Some (refs', h ++ e).
Proof.
  revert lms h.
  induction refs as [|x refs IH]; intros lms h Hrefs.
  - exists [], []. cbn. unfold ret. now rewrite app_nil_r.
  - inversion Hrefs as [|? lm ? lms' Hx Hrest]; subst.
    cbn [map_each].
    rewrite (bind_run _ _ _ _ _ (LineMatch_copy_run _ _ _ Hx)).
    destruct (IH lms' (h ++ [OSpans (LineMatch.spans lm);
                         OLineMatch (LineMatch.line_no lm) (LineMatch.text lm)
                           (length h)])) as (refs' & e & Hrun).
    { clear - Hrest. induction Hrest; constructor;
        [now apply repr_lm_grow | assumption]. }
    rewrite (bind_run _ _ _ _ _ Hrun). unfold ret.
    eexists _, _. now rewrite <- app_assoc.
Qed.

Lemma SearchResult_copy_run (h : heap) (self : loc) (r : SearchResult.t) :
  repr h self r ->
  exists c e ts' lms',
    SearchResult_copy self h = Some (c, h ++ e) /\
    (length h <= c)%nat /\
    nth_error (h ++ e) c =
      Some (OSearchResult (SearchResult.title r) ts' lms' (SearchResult.matches r)).
Proof.
  intros (ts & lms & refs & Hl & Hts & Hlms & Hrefs). unfold SearchResult_copy.
  rewrite (bind_run _ _ _ _ _ (sr_title_run _ _ _ _ _ _ Hl)).
  rewrite (bind_run _ _ _ _ _ (sr_title_spans_run _ _ _ _ _ _ Hl)).
  rewrite (bind_run _ _ _ _ _ (list_copy_run _ _ _ Hts)).
  set (h1 := h ++ [OSpans (SearchResult.title_spans r)]).
  assert (Hl1 : nth_error h1 self = Some (OSearchResult (SearchResult.title r)
                  ts lms (SearchResult.matches r))) by now apply nth_error_grow.
  rewrite (bind_run _ _ _ _ _ (sr_line_matches_run _ _ _ _ _ _ Hl1)).
  assert (Hlms1 : nth_error h1 lms = Some (OLineMatches refs))
    by now apply nth_error_grow.
  rewrite (bind_run _ _ _ _ _ (ref_items_run _ _ _ Hlms1)).
  destruct (map_each_copy_run refs (SearchResult.line_matches r) h1)
    as (refs' & e & Hrun).
  { clear - Hrefs. induction Hrefs; constructor;
      [now apply repr_lm_grow | assumption]. }
  rewrite (bind_run _ _ _ _ _ Hrun). unfold alloc at 1.
  unfold bind at 1.
  set (h2 := (h1 ++ e) ++ [OLineMatches refs']).
  assert (Hl2 : nth_error h2 self = Some (OSearchResult (SearchResult.title r)
                  ts lms (SearchResult.matches r))).
  { unfold h2. now do 2 apply nth_error_grow. }
  rewrite (bind_run _ _ _ _ _ (sr_matches_run _ _ _ _ _ _ Hl2)).
  unfold alloc.
  exists (length h2), ([OSpans (SearchResult.title_spans r)] ++ e ++
                       [OLineMatches refs'] ++
                       [OSearchResult (SearchResult.title r) (length h)
                          (length (h1 ++ e)) (SearchResult.matches r)]),
         (length h), (length (h1 ++ e)).
  split; [|split].
  - unfold h2, h1. now rewrite <- !app_assoc.
  - unfold h2, h1. rewrite !length_app. lia.
  - replace (h ++ [OSpans (SearchResult.title_spans r)] ++ e ++
             [OLineMatches refs'] ++ _) with (h2 ++
             [OSearchResult (SearchResult.title r) (length h)
                (length (h1 ++ e)) (SearchResult.matches r)]).
    + apply nth_error_fresh.
    + unfold h2, h1. now rewrite <- !app_assoc.
Qed.

(** *** The loops over the line matches *)

Lemma lines_repr_grow (base : nat) (h e : heap) (d : dict Z loc)
  (pd : dict Z LineMatch.t) :
  lines_repr base h d pd -> lines_repr base (h ++ e) d pd.
Proof.
  intros (Hrepr & Hnd & Hbase). split; [|now split].
  apply (forall2_values_impl (repr_lm h)); [assumption|].
  intros v pv _. apply repr_lm_grow.
Qed.

Lemma lines_repr_values_lt (base : nat) (h : heap) (d : dict Z loc)
  (pd : dict Z LineMatch.t) (l : loc) :
  lines_repr base h d pd -> In l (dict_values d) -> (l < length h)%nat.
Proof.
  intros (Hrepr & _ & _) Hin.
  induction Hrepr as [|[k v] [pk pv] d pd [_ Hr] _ IH]; [contradiction|].
  cbn in Hin, Hr. destruct Hin as [<-|Hin]; [now apply repr_lm_lt in Hr|].
  now apply IH.
Qed.

(** A copy of a line match goes into the dictionary. *)
Lemma lines_repr_set_copy (base : nat) (h : heap) (d : dict Z loc)
  (pd : dict Z LineMatch.t) (lm : LineMatch.t) :
  (base <= length h)%nat -> lines_repr base h d pd ->
  lines_repr base
    (h ++ [OSpans (LineMatch.spans lm);
           OLineMatch (LineMatch.line_no lm) (LineMatch.text lm) (length h)])
    (dict_set d (LineMatch.line_no lm) (S (length h)))
    (dict_set pd (LineMatch.line_no lm) (LineMatch.copy lm)).
Proof.
  intros Hbase Hd. pose proof (lines_repr_values_lt _ _ _ _ (S (length h)) Hd) as Hlt.
  apply (lines_repr_grow _ _ [OSpans (LineMatch.spans lm);
           OLineMatch (LineMatch.line_no lm) (LineMatch.text lm) (length h)]) in Hd.
  destruct Hd as (Hrepr & Hnd & Hb). split; [|split].
  - apply (dict_set_forall2 (repr_lm _)); [assumption|].
    rewrite LineMatch_copy_id. exists (length h). split.
    + rewrite nth_error_app2 by lia. now replace (S (length h) - length h)%nat with 1%nat by lia.
    + unfold repr_spans. rewrite nth_error_app2 by lia. now rewrite Nat.sub_diag.
  - apply dict_values_set_nodup; [assumption|]. intros Hin. apply Hlt in Hin. lia.
  - apply (dict_set_forall_values (fun l => (base <= l)%nat)); [assumption | lia].
Qed.

Lemma own_line_run (d : dict Z loc) (h : heap) (l : loc) (lm : LineMatch.t) :
  repr_lm h l lm ->
  own_line d l h =
  Some (dict_set d (LineMatch.line_no lm) (S (length h)),
        h ++ [OSpans (LineMatch.spans lm);
              OLineMatch (LineMatch.line_no lm) (LineMatch.text lm) (length h)]).
Proof.
  intros Hx. pose proof Hx as (sp & Hobj & Hsp). unfold own_line.
  rewrite (bind_run _ _ _ _ _ (lm_line_no_run _ _ _ _ _ Hobj)).
  now rewrite (bind_run _ _ _ _ _ (LineMatch_copy_run _ _ _ Hx)).
Qed.

Lemma own_lines_run (base : nat) (refs : list loc) (lms : list LineMatch.t)
  (d : dict Z loc) (pd : dict Z LineMatch.t) (h : heap) :
  (base <= length h)%nat -> lines_repr base h d pd ->
  Forall2 (repr_lm h) refs lms ->
  exists d' e,
    for_each own_line refs d h = Some (d', h ++ e) /\
    lines_repr base (h ++ e) d'
      (fold_left
         (fun d lm => dict_set d (LineMatch.line_no lm) (LineMatch.copy lm))
         lms pd).
Proof.
  revert lms d pd h.
  induction refs as [|x refs IH]; intros lms d pd h Hbase Hd Hrefs.
  - inversion Hrefs; subst. exists d, []. cbn. unfold ret.
    rewrite app_nil_r. now split.
  - inversion Hrefs as [|? lm ? lms' Hx Hrest]; subst.
    cbn [for_each fold_left].
    rewrite (bind_run _ _ _ _ _ (own_line_run d _ _ _ Hx)).
    set (h1 := h ++ _).
    destruct (IH lms' (dict_set d (LineMatch.line_no lm) (S (length h)))
                (dict_set pd (LineMatch.line_no lm) (LineMatch.copy lm)) h1)
      as (d' & e & Hrun & Hd').
    + unfold h1. rewrite length_app. lia.
    + now apply lines_repr_set_copy.
    + clear - Hrest. induction Hrest; constructor;
        [now apply repr_lm_grow | assumption].
    + exists d'. eexists. unfold h1 in *. rewrite <- app_assoc in Hrun, Hd'.
      split; eassumption.
Qed.

Lemma lines_repr_base (base : nat) (h : heap) (d : dict Z loc)
  (pd : dict Z LineMatch.t) (k : Z) (l : loc) :
  lines_repr base h d pd -> dict_get d k = Some l -> (base <= l)%nat.
Proof.
  intros (_ & _ & Hb) Hg. apply dict_get_some_in in Hg.
  rewrite Forall_forall in Hb. apply (Hb (k, l) Hg).
Qed.

(** One line match of the other side: its spans are appended to the entry
    of its line, by an assignment to that entry's [spans], or its copy
    becomes a new entry. *)
Lemma add_line_run (base : nat) (d : dict Z loc) (pd : dict Z LineMatch.t)
  (h : heap) (l : loc) (lm : LineMatch.t) :
  (base <= length h)%nat -> lines_repr base h d pd -> repr_lm h l lm ->
  exists d' h',
    add_line d l h = Some (d', h') /\ keeps base h h' /\
    lines_repr base h' d' (SearchResult.add_line pd lm).
Proof.
  intros Hbase Hd Hx. pose proof Hx as (sp & Hobj & Hsp).
  unfold add_line, SearchResult.add_line.
  rewrite (bind_run _ _ _ _ _ (lm_line_no_run _ _ _ _ _ Hobj)).
  pose proof Hd as (Hrepr & Hnd & Hb).
  pose proof (dict_get_forall2 (repr_lm h) d pd (LineMatch.line_no lm) Hrepr)
    as Hget.
  destruct (dict_get d (LineMatch.line_no lm)) as [cur|] eqn:Hg.
  - destruct Hget as (pcur & -> & Hcur).
    pose proof Hcur as (spc & Hcobj & Hcsp).
    rewrite (bind_run _ _ _ _ _ (lm_spans_run _ _ _ _ _ Hcobj)).
    rewrite (bind_run _ _ _ _ _ (lm_spans_run _ _ _ _ _ Hobj)).
    rewrite (bind_run _ _ _ _ _ (list_concat_run _ _ _ _ _ Hcsp Hsp)).
    set (h1 := h ++ [OSpans (LineMatch.spans pcur ++ LineMatch.spans lm)]).
    assert (Hcobj1 : nth_error h1 cur =
              Some (OLineMatch (LineMatch.line_no pcur) (LineMatch.text pcur) spc))
      by now apply nth_error_grow.
    rewrite (bind_run _ _ _ _ _ (lm_set_spans_run _ _ _ _ _ Hcobj1 (length h))).
    unfold ret.
    assert (Hcur_lt : (cur < length h)%nat) by now apply nth_error_some_lt in Hcobj.
    eexists _, _. split; [reflexivity|]. split.
    + apply (keeps_trans base h h1); [apply keeps_grow|].
      eapply keeps_update; [exact Hcobj1|].
      now apply (lines_repr_base base h d pd (LineMatch.line_no lm)).
    + split; [|now split].
      apply (dict_set_forall2_right (repr_lm h) (repr_lm _) d pd
               (LineMatch.line_no lm) cur); try assumption.
      * exists (length h). cbn [LineMatch.set_spans LineMatch.line_no
                                 LineMatch.text LineMatch.spans]. split.
        -- apply nth_error_update_eq. now apply nth_error_some_lt in Hcobj1.
        -- unfold repr_spans. rewrite nth_error_update_ne by lia.
           apply nth_error_fresh.
      * intros v pv _ Hne Hv. eapply repr_lm_update.
        -- apply repr_lm_grow. exact Hv.
        -- exact Hne.
        -- exact Hcobj1.
        -- discriminate.
  - rewrite Hget. rewrite (bind_run _ _ _ _ _ (LineMatch_copy_run _ _ _ Hx)).
    unfold ret. eexists _, _. split; [reflexivity|].
    split; [apply keeps_grow | now apply lines_repr_set_copy].
Qed.

Lemma add_lines_run (base : nat) (refs : list loc) (lms : list LineMatch.t)
  (d : dict Z loc) (pd : dict Z LineMatch.t) (h : heap) :
  (base <= length h)%nat -> lines_repr base h d pd ->
  Forall2 (repr_lm h) refs lms -> Forall (fun x => x < base)%nat refs ->
  exists d' h',
    for_each add_line refs d h = Some (d', h') /\ keeps base h h' /\
    lines_repr base h' d' (fold_left SearchResult.add_line lms pd).
Proof.
  revert lms d pd h.
  induction refs as [|x refs IH]; intros lms d pd h Hbase Hd Hrefs Hlt.
  - inversion Hrefs; subst. exists d, h. cbn.
    split; [reflexivity|]. split; [apply keeps_refl | assumption].
  - inversion Hrefs as [|? lm ? lms' Hx Hrest]; subst.
    inversion Hlt as [|? ? Hxlt Hlt']; subst.
    cbn [for_each fold_left].
    destruct (add_line_run base d pd h x lm Hbase Hd Hx)
      as (d1 & h1 & Hrun & Hk & Hd1).
    rewrite (bind_run _ _ _ _ _ Hrun).
    destruct (IH lms' d1 (SearchResult.add_line pd lm) h1)
      as (d' & h' & Hrun' & Hk' & Hd'); try assumption.
    + destruct Hk as [Hlen _]. lia.
    + now apply (refs_keeps base h).
    + exists d', h'. split; [assumption|].
      split; [now apply (keeps_trans base h h1) | assumption].
Qed.

(** The keys for the final sort are read off the objects. *)
Lemma keyed_run (base : nat) (h : heap) (d : dict Z loc)
  (pd : dict Z LineMatch.t) :
  lines_repr base h d pd ->
  exists keyed,
    map_each (fun l => ln <~ lm_line_no l ;; ret (ln, l)) (dict_values d) h =
      Some (keyed, h) /\
    Forall2 (fun kl plm => fst kl = LineMatch.line_no plm /\
                           repr_lm h (snd kl) plm)
      keyed (dict_values pd).
Proof.
  intros (Hrepr & _ & _).
  induction Hrepr as [|[k v] [pk pv] d pd [_ Hr] _ IH].
  - exists []. split; [reflexivity | constructor].
  - destruct IH as (keyed & Hrun & Hk). cbn in Hr.
    pose proof Hr as (sp & Hobj & _).
    exists ((LineMatch.line_no pv, v) :: keyed). split.
    + cbn [dict_values map snd map_each].
      rewrite (bind_run _ _ _ _ _
                 (bind_run _ _ _ _ _ (lm_line_no_run _ _ _ _ _ Hobj))).
      unfold ret at 1. fold (dict_values d).
      rewrite (bind_run _ _ _ _ _ Hrun). reflexivity.
    + constructor; [now split | assumption].
Qed.

Lemma repr_preserved (h h' : heap) (l : loc) (r : SearchResult.t) :
  (forall x o, nth_error h x = Some o -> nth_error h' x = Some o) ->
  repr h l r -> repr h' l r.
Proof.
  intros Hp (ts & lms & refs & Hl & Hts & Hlms & Hrefs).
  exists ts, lms, refs. repeat split; try now apply Hp.
  clear - Hp Hrefs. induction Hrefs as [|x y refs lmsv (sp & Hx & Hsp) _ IH];
    constructor; [|assumption].
  exists sp. split; now apply Hp.
Qed.

Lemma forall2_map_snd {A B C : Type} (R : B -> C -> Prop) (P : A -> C -> Prop)
  (l : list (A * B)) (l' : list C) :
  Forall2 (fun x y => P (fst x) y /\ R (snd x) y) l l' ->
  Forall2 R (map snd l) l'.
Proof. induction 1 as [|x y l l' [_ Hr] _ IH]; cbn; constructor; assumption. Qed.

End HeapFacts.

(** C10: [a.combine_with(b)] on the store.  When [a] and [b] are results in
    the store, the call returns a new object; every location the store had
    before the call holds what it held, so [a] and [b], their lists of title
    spans and of line matches, and the span lists of their line matches are
    as before; and the new object is the combination of the two values. *)
Theorem combine_with_leaves_inputs (h : Heap.heap) (a b : Heap.loc)
  (ra rb : SearchResult.t) :
  Heap.repr h a ra -> Heap.repr h b rb ->
  exists c h',
    Heap.combine_with a b h = Some (c, h') /\
    (forall l, (l < length h)%nat -> nth_error h' l = nth_error h l) /\
    (length h <= c)%nat /\
    Heap.repr h' a ra /\ Heap.repr h' b rb /\
    Heap.repr h' c (SearchResult.combine_with ra rb).
Proof.
  intros Ha Hb. unfold Heap.combine_with.
  (* combined = self.copy() *)
  destruct (HeapFacts.SearchResult_copy_run h a ra Ha)
    as (c & e1 & ts' & lms' & Hrun1 & Hc & Hcobj1).
  rewrite (HeapFacts.bind_run _ _ _ _ _ Hrun1). set (h1 := h ++ e1) in *.
  assert (Hb1 : forall x o, nth_error h x = Some o -> nth_error h1 x = Some o)
    by (intros x o Hx; now apply HeapFacts.nth_error_grow).
  destruct Ha as (tsa & lmsa & refsa & Hal & Hats & Halms & Harefs).
  destruct Hb as (tsb & lmsb & refsb & Hbl & Hbts & Hblms & Hbrefs).
  assert (Hc1 : (c < length h1)%nat) by now apply HeapFacts.nth_error_some_lt in Hcobj1.
  (* combined.matches = self.matches + other.matches *)
  rewrite (HeapFacts.bind_run _ _ _ _ _
             (HeapFacts.sr_matches_run _ _ _ _ _ _ (Hb1 _ _ Hal))).
  rewrite (HeapFacts.bind_run _ _ _ _ _
             (HeapFacts.sr_matches_run _ _ _ _ _ _ (Hb1 _ _ Hbl))).
  rewrite (HeapFacts.bind_run _ _ _ _ _
             (HeapFacts.sr_set_matches_run _ _ _ _ _ _ Hcobj1
                (SearchResult.matches ra + SearchResult.matches rb))).
  set (h2 := Heap.update h1 c _).
  assert (Hb2 : forall x o, nth_error h x = Some o -> nth_error h2 x = Some o).
  { intros x o Hx. unfold h2. rewrite HeapFacts.nth_error_update_ne.
    - now apply Hb1.
    - apply HeapFacts.nth_error_some_lt in Hx. lia. }
  assert (Hcobj2 : nth_error h2 c = Some (Heap.OSearchResult (SearchResult.title ra)
            ts' lms' (SearchResult.matches ra + SearchResult.matches rb)))
    by now apply HeapFacts.nth_error_update_eq.
  assert (Hlen2 : length h2 = length h1) by apply HeapFacts.length_update.
  (* combined.title_spans = sorted(self.title_spans + other.title_spans) *)
  rewrite (HeapFacts.bind_run _ _ _ _ _
             (HeapFacts.sr_title_spans_run _ _ _ _ _ _ (Hb2 _ _ Hal))).
  rewrite (HeapFacts.bind_run _ _ _ _ _
             (HeapFacts.sr_title_spans_run _ _ _ _ _ _ (Hb2 _ _ Hbl))).
  rewrite (HeapFacts.bind_run _ _ _ _ _
             (HeapFacts.list_concat_run _ _ _ _ _ (Hb2 _ _ Hats) (Hb2 _ _ Hbts))).
  set (both := SearchResult.title_spans ra ++ SearchResult.title_spans rb).
  set (h3 := h2 ++ [Heap.OSpans both]).
  assert (Hboth : Heap.repr_spans h3 (length h2) both)
    by apply HeapFacts.nth_error_fresh.
  rewrite (HeapFacts.bind_run _ _ _ _ _ (HeapFacts.list_sorted_run _ _ _ Hboth)).
  set (h4 := h3 ++ [Heap.OSpans (sorted span_leb both)]).
  assert (Hcobj4 : nth_error h4 c = Some (Heap.OSearchResult (SearchResult.title ra)
            ts' lms' (SearchResult.matches ra + SearchResult.matches rb)))
    by now do 2 apply HeapFacts.nth_error_grow.
  rewrite (HeapFacts.bind_run _ _ _ _ _
             (HeapFacts.sr_set_title_spans_run _ _ _ _ _ _ Hcobj4 (length h3))).
  set (h5 := Heap.update h4 c _).
  assert (Hlen3 : length h3 = S (length h2))
    by (unfold h3; rewrite length_app; cbn; lia).
  assert (Hlen4 : length h4 = S (length h3))
    by (unfold h4; rewrite length_app; cbn; lia).
  assert (Hlen5 : length h5 = length h4) by apply HeapFacts.length_update.
  assert (Hb5 : forall x o, nth_error h x = Some o -> nth_error h5 x = Some o).
  { intros x o Hx. unfold h5. rewrite HeapFacts.nth_error_update_ne.
    - do 2 apply HeapFacts.nth_error_grow. now apply Hb2.
    - apply HeapFacts.nth_error_some_lt in Hx. lia. }
  assert (Hcobj5 : nth_error h5 c = Some (Heap.OSearchResult (SearchResult.title ra)
            (length h3) lms' (SearchResult.matches ra + SearchResult.matches rb)))
    by (apply HeapFacts.nth_error_update_eq; lia).
  assert (Hord5 : Heap.repr_spans h5 (length h3) (sorted span_leb both)).
  { unfold Heap.repr_spans, h5. rewrite HeapFacts.nth_error_update_ne by lia.
    apply HeapFacts.nth_error_fresh. }
  (* lines_by_no = {lm.line_no: lm.copy() for lm in self.line_matches} *)
  rewrite (HeapFacts.bind_run _ _ _ _ _
             (HeapFacts.sr_line_matches_run _ _ _ _ _ _ (Hb5 _ _ Hal))).
  rewrite (HeapFacts.bind_run _ _ _ _ _
             (HeapFacts.ref_items_run _ _ _ (Hb5 _ _ Halms))).
  assert (Hrefs_pres : forall hx refs lms,
            (forall x o, nth_error h x = Some o -> nth_error hx x = Some o) ->
            Forall2 (Heap.repr_lm h) refs lms -> Forall2 (Heap.repr_lm hx) refs lms).
  { intros hx refs lms Hp Hrefs.
    induction Hrefs as [|x y refs lmsv (sp & Hx & Hsp) _ IH]; constructor;
      [|assumption].
    exists sp. split; now apply Hp. }
  destruct (HeapFacts.own_lines_run (length h) refsa
              (SearchResult.line_matches ra) [] [] h5)
    as (d1 & e6 & Hrun6 & Hd1).
  { lia. }
  { split; [constructor | split; constructor]. }
  { now apply Hrefs_pres. }
  rewrite (HeapFacts.bind_run _ _ _ _ _ Hrun6). set (h6 := h5 ++ e6) in *.
  fold (SearchResult.own_lines (SearchResult.line_matches ra)) in Hd1.
  assert (Hb6 : forall x o, nth_error h x = Some o -> nth_error h6 x = Some o)
    by (intros x o Hx; apply HeapFacts.nth_error_grow; now apply Hb5).
  (* for lm in other.line_matches: ... *)
  rewrite (HeapFacts.bind_run _ _ _ _ _
             (HeapFacts.sr_line_matches_run _ _ _ _ _ _ (Hb6 _ _ Hbl))).
  rewrite (HeapFacts.bind_run _ _ _ _ _
             (HeapFacts.ref_items_run _ _ _ (Hb6 _ _ Hblms))).
  destruct (HeapFacts.add_lines_run (length h) refsb
              (SearchResult.line_matches rb) d1
              (SearchResult.own_lines (SearchResult.line_matches ra)) h6)
    as (d2 & h7 & Hrun7 & Hk7 & Hd2).
  { unfold h6. rewrite length_app. lia. }
  { assumption. }
  { now apply Hrefs_pres. }
  { now apply HeapFacts.refs_lt in Hbrefs. }
  rewrite (HeapFacts.bind_run _ _ _ _ _ Hrun7).
  set (pd2 := fold_left SearchResult.add_line (SearchResult.line_matches rb)
                (SearchResult.own_lines (SearchResult.line_matches ra))) in *.
  pose proof Hk7 as [Hlen7 Hkeep7].
  assert (Hb7 : forall x o, nth_error h x = Some o -> nth_error h7 x = Some o).
  { intros x o Hx. apply Hkeep7; [now apply Hb6|].
    left. now apply HeapFacts.nth_error_some_lt in Hx. }
  assert (Hcobj7 : nth_error h7 c = Some (Heap.OSearchResult (SearchResult.title ra)
            (length h3) lms' (SearchResult.matches ra + SearchResult.matches rb))).
  { apply Hkeep7; [now apply HeapFacts.nth_error_grow | right; discriminate]. }
  assert (Hord7 : Heap.repr_spans h7 (length h3) (sorted span_leb both)).
  { apply (HeapFacts.repr_spans_keeps (length h) h6); [assumption|].
    now apply HeapFacts.nth_error_grow. }
  (* combined.line_matches = sorted(lines_by_no.values(), key=...) *)
  destruct (HeapFacts.keyed_run (length h) h7 d2 pd2 Hd2) as (keyed & Hrun8 & Hkeyed).
  rewrite (HeapFacts.bind_run _ _ _ _ _ Hrun8).
  unfold Heap.alloc at 1. unfold Heap.bind at 1.
  set (by_line := map snd (sorted (fun x y => fst x <=? fst y) keyed)).
  set (h8 := h7 ++ [Heap.OLineMatches by_line]).
  assert (Hcobj8 : nth_error h8 c = Some (Heap.OSearchResult (SearchResult.title ra)
            (length h3) lms' (SearchResult.matches ra + SearchResult.matches rb)))
    by now apply HeapFacts.nth_error_grow.
  rewrite (HeapFacts.bind_run _ _ _ _ _
             (HeapFacts.sr_set_line_matches_run _ _ _ _ _ _ Hcobj8 (length h7))).
  set (h9 := Heap.update h8 c _). unfold Heap.ret.
  assert (Hc8 : (c < length h8)%nat) by now apply HeapFacts.nth_error_some_lt in Hcobj8.
  assert (Hc7 : (c < length h7)%nat) by now apply HeapFacts.nth_error_some_lt in Hcobj7.
  assert (Hb9 : forall x o, nth_error h x = Some o -> nth_error h9 x = Some o).
  { intros x o Hx. unfold h9. rewrite HeapFacts.nth_error_update_ne.
    - apply HeapFacts.nth_error_grow. now apply Hb7.
    - apply HeapFacts.nth_error_some_lt in Hx. lia. }
  exists c, h9. split; [reflexivity|]. split; [|split; [assumption|]].
  { intros l Hl. destruct (nth_error h l) as [o|] eqn:Ho.
    - now apply Hb9.
    - apply nth_error_None in Ho. lia. }
  split; [apply (HeapFacts.repr_preserved h); [assumption|];
          now exists tsa, lmsa, refsa|].
  split; [apply (HeapFacts.repr_preserved h); [assumption|];
          now exists tsb, lmsb, refsb|].
  exists (length h3), (length h7), by_line. split; [|split; [|split]].
  - unfold h9. now apply HeapFacts.nth_error_update_eq.
  - unfold Heap.repr_spans, h9. rewrite HeapFacts.nth_error_update_ne by lia.
    apply HeapFacts.nth_error_grow. exact Hord7.
  - unfold h9. rewrite HeapFacts.nth_error_update_ne by lia.
    apply HeapFacts.nth_error_fresh.
  - cbn [SearchResult.combine_with SearchResult.line_matches
         SearchResult.set_line_matches]. fold pd2.
    assert (Hsorted : Forall2
              (fun kl plm => fst kl = LineMatch.line_no plm /\
                             Heap.repr_lm h7 (snd kl) plm)
              (sorted (fun x y => fst x <=? fst y) keyed)
              (sorted_by_int LineMatch.line_no (dict_values pd2))).
    { apply HeapFacts.sorted_forall2; [|assumption].
      intros x y x' y' [Hx _] [Hy _]. now rewrite Hx, Hy. }
    apply (HeapFacts.forall2_map_snd (Heap.repr_lm h7)
             (fun k plm => k = LineMatch.line_no plm)) in Hsorted.
    fold by_line in Hsorted.
    assert (Hlift : forall refs lms,
              Forall2 (Heap.repr_lm h7) refs lms ->
              Forall2 (Heap.repr_lm h9) refs lms).
    { intros refs lms Hf.
      induction Hf as [|x y l l' Hx _ IH]; constructor; [|assumption].
      unfold h9. pose proof Hx as (sp & Hxobj & _).
      eapply HeapFacts.repr_lm_update.
      + apply HeapFacts.repr_lm_grow. exact Hx.
      + intros ->. rewrite Hcobj7 in Hxobj. discriminate Hxobj.
      + exact Hcobj8.
      + discriminate. }
    apply Hlift. exact Hsorted.
Qed.

Lemma two_results_a : Heap.repr Heap.two_results 4%nat Scenario.res_a.
Proof.
  exists 0%nat, 3%nat, [2%nat]. repeat split.
  constructor; [|constructor]. exists 1%nat. split; reflexivity.
Defined.

Lemma two_results_b : Heap.repr Heap.two_results 9%nat Scenario.res_b.
Proof.
  exists 5%nat, 8%nat, [7%nat]. repeat split.
  constructor; [|constructor]. exists 6%nat. split; reflexivity.
Defined.

Lemma combine_with_leaves_inputs_witness :
  Heap.repr Heap.two_results 4%nat Scenario.res_a /\
  Heap.repr Heap.two_results 9%nat Scenario.res_b /\
  exists c h',
    Heap.combine_with 4%nat 9%nat Heap.two_results = Some (c, h') /\
    (forall l, (l < length Heap.two_results)%nat ->
               nth_error h' l = nth_error Heap.two_results l) /\
    (length Heap.two_results <= c)%nat /\
    Heap.repr h' 4%nat Scenario.res_a /\ Heap.repr h' 9%nat Scenario.res_b /\
    Heap.repr h' c (SearchResult.combine_with Scenario.res_a Scenario.res_b).
Proof.
  split; [exact two_results_a|]. split; [exact two_results_b|].
  exact (combine_with_leaves_inputs Heap.two_results 4%nat 9%nat
           Scenario.res_a Scenario.res_b two_results_a two_results_b).
Defined.

(* ================================================================== *)
(** * Further properties of the module *)

(** ** [Sonnet.find_spans] *)

Lemma range_in (n i : Z) : In i (Sonnet.range n) <-> 0 <= i < n.
Proof.
  unfold Sonnet.range. rewrite in_map_iff. split.
  - intros (k & <- & Hk). apply in_seq in Hk. lia.
  - intros Hi. exists (Z.to_nat i). split; [lia|]. apply in_seq. lia.
Qed.

Lemma range_ascending (n : Z) : StronglySorted Z.lt (Sonnet.range n).
Proof.
  unfold Sonnet.range. generalize 0%nat as a.
  induction (Z.to_nat n) as [|k IH]; intros a; cbn; constructor.
  - apply IH.
  - rewrite Forall_forall. intros x Hx. apply in_map_iff in Hx.
    destruct Hx as (j & <- & Hj). apply in_seq in Hj. lia.
Qed.

(** The loop of [find_spans] collects the offsets that pass the test. *)
Lemma find_spans_loop (test : Z -> bool) (n : Z) (l : list Z) (acc : list Span) :
  fold_left (fun spans i => if test i then spans ++ [(i, i + n)] else spans) l acc
  = acc ++ map (fun i => (i, i + n)) (filter test l).
Proof.
  revert acc. induction l as [|i l IH]; intros acc; cbn [fold_left filter].
  - now rewrite app_nil_r.
  - rewrite IH. destruct (test i); [|reflexivity].
    cbn [map]. now rewrite <- app_assoc.
Qed.

Lemma find_spans_filter (text pattern : str) :
  pattern <> [] ->
  Sonnet.find_spans text pattern =
  map (fun i => (i, i + len pattern))
    (filter (fun i => str_eqb (slice_range text i (i + len pattern)) pattern)
       (Sonnet.range (len text - len pattern + 1))).
Proof.
  intros Hne. unfold Sonnet.find_spans.
  destruct pattern as [|c pattern]; [congruence|].
  apply (find_spans_loop
           (fun i => str_eqb (slice_range text i (i + len (c :: pattern)))
                       (c :: pattern))).
Qed.

(** A slice inside the text, as a splitting of the text. *)
Lemma slice_range_inside {A} (l : list A) (i j : Z) :
  0 <= i <= j -> j <= len l ->
  l = firstn (Z.to_nat i) l ++ slice_range l i j ++ skipn (Z.to_nat j) l /\
  len (slice_range l i j) = j - i.
Proof.
  intros Hij Hj. unfold slice_range, slice.
  assert (Hn : 0 <= len l) by (unfold len; lia).
  rewrite !norm_index_nonneg by lia. rewrite !Z.min_l by lia.
  unfold len in *. split.
  - rewrite <- (firstn_skipn (Z.to_nat j) l) at 1.
    rewrite <- (firstn_skipn (Z.to_nat i) (firstn (Z.to_nat j) l)) at 1.
    rewrite firstn_firstn, Nat.min_l by lia. now rewrite <- app_assoc.
  - rewrite length_skipn, length_firstn. lia.
Qed.

Lemma occurs_at_slice (text pattern : str) (s : Z) :
  occurs_at text pattern s <->
  0 <= s /\ s + len pattern <= len text /\
  slice_range text s (s + len pattern) = pattern.
Proof.
  split.
  - intros (pre & post & -> & <-). unfold len. rewrite !length_app.
    split; [lia|]. split; [lia|].
    unfold slice_range, slice, len. rewrite !norm_index_nonneg by lia.
    rewrite !Z.min_l by (rewrite !length_app; lia).
    replace (Z.to_nat (Z.of_nat (length pre) + Z.of_nat (length pattern)))
      with (length pre + length pattern)%nat by lia.
    rewrite Nat2Z.id, app_assoc, firstn_app.
    rewrite length_app. replace (_ - _)%nat with 0%nat by lia.
    rewrite firstn_all2 by (rewrite length_app; lia).
    cbn [firstn]. rewrite app_nil_r, skipn_app, Nat.sub_diag.
    rewrite skipn_all. reflexivity.
  - intros (Hs & Hlen & Hslice).
    assert (Hp : 0 <= len pattern) by (unfold len; lia).
    destruct (slice_range_inside text s (s + len pattern)) as [Hsplit _];
      [lia | lia |].
    rewrite Hslice in Hsplit.
    exists (firstn (Z.to_nat s) text), (skipn (Z.to_nat (s + len pattern)) text).
    split; [exact Hsplit|]. unfold len in *. rewrite length_firstn. lia.
Qed.

Lemma filter_ascending (test : Z -> bool) (l : list Z) :
  StronglySorted Z.lt l -> StronglySorted Z.lt (filter test l).
Proof.
  induction 1 as [|x l Hs IH Hall]; cbn; [constructor|].
  destruct (test x); [|assumption]. constructor; [assumption|].
  rewrite Forall_forall in Hall |- *. intros y Hy.
  apply filter_In in Hy. now apply Hall.
Qed.

(* The occurrences of the pattern, in ascending order. *)
Lemma find_spans_occurrences (text pattern : str) :
  (forall s e,
     In (s, e) (Sonnet.find_spans text pattern) <->
     pattern <> [] /\ e = s + len pattern /\ occurs_at text pattern s) /\
  StronglySorted (fun a b => fst a < fst b) (Sonnet.find_spans text pattern).
Proof.
  destruct pattern as [|c pattern].
  - split; [|constructor]. intros s e. cbn. split; [tauto | intros [H _]; congruence].
  - assert (Hne : c :: pattern <> []) by discriminate.
    rewrite (find_spans_filter text (c :: pattern) Hne).
    set (p := c :: pattern) in *. split.
    + intros s e. rewrite in_map_iff. split.
      * intros (i & [= <- <-] & Hi). apply filter_In in Hi.
        destruct Hi as [Hr Heq]. apply range_in in Hr.
        destruct (str_eqb_spec (slice_range text i (i + len p)) p) as [Hsl|];
          [|discriminate].
        split; [assumption|]. split; [reflexivity|].
        apply occurs_at_slice. split; [lia|]. split; [lia | assumption].
      * intros (_ & -> & Hocc). apply occurs_at_slice in Hocc.
        destruct Hocc as (Hs & Hlen & Hsl). exists s. split; [reflexivity|].
        apply filter_In. split; [apply range_in; lia|].
        rewrite Hsl. destruct (str_eqb_spec p p); congruence.
    + pose proof (filter_ascending
        (fun i => str_eqb (slice_range text i (i + len p)) p)
        _ (range_ascending (len text - len p + 1))) as Hs.
      induction Hs as [|x l Hs IH Hall]; cbn [map]; constructor; [assumption|].
      rewrite Forall_forall in Hall |- *. intros y Hy.
      apply in_map_iff in Hy. destruct Hy as (j & <- & Hj). cbn.
      now apply Hall.
Qed.

(** X1: [find_spans] reports exactly the occurrences of a non-empty pattern:
    [(s, e)] is in the result if and only if the pattern is not empty, occurs
    in the text at offset [s], and [e] is [s] plus its length.  The spans
    come in strictly ascending order of their start, so none is reported
    twice; an empty pattern gives no span. *)
Theorem find_spans_spec (text pattern : str) :
  (forall s e,
     In (s, e) (Sonnet.find_spans text pattern) <->
     pattern <> [] /\ e = s + len pattern /\ occurs_at text pattern s) /\
  StronglySorted (fun a b => fst a < fst b) (Sonnet.find_spans text pattern).
Proof. exact (find_spans_occurrences text pattern). Qed.

(** ** [Sonnet.search_for] *)

Lemma enumerate_in_iff {A} (l : list A) (start n : Z) (x : A) :
  In (n, x) (enumerate l start) <->
  start <= n /\ nth_error l (Z.to_nat (n - start)) = Some x.
Proof.
  revert start. induction l as [|y l IH]; intros start; cbn [enumerate In].
  - split; [tauto|]. intros [_ H]. now destruct (Z.to_nat (n - start)).
  - rewrite IH. split.
    + intros [[= <- <-]|[Hle Hn]].
      * split; [lia|]. now rewrite Z.sub_diag.
      * split; [lia|].
        replace (Z.to_nat (n - start)) with (S (Z.to_nat (n - (start + 1))))
          by lia. exact Hn.
    + intros [Hle Hn]. destruct (Z.eq_dec n start) as [->|Hne].
      * left. rewrite Z.sub_diag in Hn. cbn in Hn. congruence.
      * right. split; [lia|].
        replace (Z.to_nat (n - start)) with (S (Z.to_nat (n - (start + 1))))
          in Hn by lia. exact Hn.
Qed.

Lemma enumerate_ascending {A} (l : list A) (start : Z) :
  StronglySorted (fun a b => fst a < fst b) (enumerate l start).
Proof.
  revert start. induction l as [|y l IH]; intros start; cbn; constructor.
  - apply IH.
  - rewrite Forall_forall. intros [n x] Hin. apply enumerate_in in Hin.
    cbn. lia.
Qed.

Lemma sonnet_lines_loop (q : str) (l : list (Z * str)) (acc : list LineMatch.t) :
  fold_left
    (fun line_matches '(idx, line_raw) =>
       let spans := Sonnet.find_spans (lower line_raw) q in
       match spans with
       | [] => line_matches
       | _ :: _ => line_matches ++ [LineMatch.mk idx line_raw spans]
       end) l acc
  = acc ++ flat_map (line_hits q) l.
Proof.
  revert acc. induction l as [|[idx line] l IH]; intros acc; cbn [fold_left flat_map].
  - now rewrite app_nil_r.
  - rewrite IH. unfold line_hits at 2. cbn [fst snd].
    destruct (Sonnet.find_spans (lower line) q); [reflexivity|].
    now rewrite <- app_assoc.
Qed.

Lemma sonnet_line_matches (s : Sonnet.t) (query : str) :
  SearchResult.line_matches (Sonnet.search_for s query) =
  flat_map (line_hits (lower query)) (enumerate (Sonnet.lines s) 1).
Proof.
  unfold Sonnet.search_for. cbn [SearchResult.line_matches].
  now rewrite sonnet_lines_loop.
Qed.

Lemma sum_spans_loop (lms : list LineMatch.t) (a : Z) :
  fold_left (fun acc lm => acc + len (LineMatch.spans lm)) lms a =
  a + fold_right (fun lm acc => len (LineMatch.spans lm) + acc) 0 lms.
Proof.
  revert a. induction lms as [|lm lms IH]; intros a; cbn [fold_left fold_right].
  - lia.
  - rewrite IH. lia.
Qed.

Lemma line_hits_ascending (q : str) (l : list (Z * str)) :
  StronglySorted (fun a b => fst a < fst b) l ->
  ascending_lines (flat_map (line_hits q) l).
Proof.
  unfold ascending_lines.
  induction 1 as [|[n line] l Hs IH Hall]; cbn [flat_map]; [constructor|].
  unfold line_hits at 1. cbn [fst snd].
  destruct (Sonnet.find_spans (lower line) q); [exact IH|].
  cbn [app]. constructor; [exact IH|].
  rewrite Forall_forall in Hall |- *. intros lm Hlm.
  apply in_flat_map in Hlm. destruct Hlm as ([n' line'] & Hin & Hlm).
  unfold line_hits in Hlm. cbn [fst snd] in Hlm.
  destruct (Sonnet.find_spans (lower line') q); [contradiction|].
  destruct Hlm as [<-|[]]. cbn. apply (Hall (n', line') Hin).
Qed.

(** X2: what the substring search of a sonnet reports.  The query is
    compared in lower case against the lower-cased title and lines: the
    title spans are exactly the occurrences of the lower-cased query in the
    lower-cased title, and there is a line match for line [n] (counted from
    1) exactly when the query occurs in that line; it carries the line as
    stored and all the occurrences in it. *)
Theorem sonnet_search_for_reports (s : Sonnet.t) (query : str) :
  let r := Sonnet.search_for s query in
  let q := lower query in
  SearchResult.title r = Sonnet.title s /\
  (forall a b,
     In (a, b) (SearchResult.title_spans r) <->
     q <> [] /\ b = a + len q /\ occurs_at (lower (Sonnet.title s)) q a) /\
  (forall lm,
     In lm (SearchResult.line_matches r) <->
     1 <= LineMatch.line_no lm /\
     nth_error (Sonnet.lines s) (Z.to_nat (LineMatch.line_no lm - 1)) =
       Some (LineMatch.text lm) /\
     LineMatch.spans lm = Sonnet.find_spans (lower (LineMatch.text lm)) q /\
     LineMatch.spans lm <> []).
Proof.
  cbv zeta. split; [reflexivity|]. split.
  - intros a b. apply (proj1 (find_spans_occurrences _ _)).
  - intros lm. rewrite sonnet_line_matches, in_flat_map. split.
    + intros ([n line] & Hin & Hlm). apply enumerate_in_iff in Hin.
      unfold line_hits in Hlm. cbn [fst snd] in Hlm.
      destruct (Sonnet.find_spans (lower line) (lower query)) as [|sp spans] eqn:Hf;
        [contradiction|].
      destruct Hlm as [<-|[]].
      cbn [LineMatch.line_no LineMatch.text LineMatch.spans]. rewrite Hf.
      repeat split; try tauto. discriminate.
    + intros (Hn & Hline & Hspans & Hne).
      exists (LineMatch.line_no lm, LineMatch.text lm). split.
      * apply enumerate_in_iff. tauto.
      * unfold line_hits. cbn [fst snd]. rewrite <- Hspans.
        destruct lm as [n line spans]. cbn in *.
        destruct spans; [congruence|]. now left.
Qed.

(** X3: the result of the substring search is well formed: its match count
    is the number of spans it holds, its line matches are in strictly
    ascending line order with one entry per line, and no line match is
    without spans. *)
Theorem sonnet_search_for_well_formed (s : Sonnet.t) (query : str) :
  let r := Sonnet.search_for s query in
  count_invariant r /\ one_entry_per_line r /\
  ascending_lines (SearchResult.line_matches r) /\
  Forall (fun lm => LineMatch.spans lm <> []) (SearchResult.line_matches r).
Proof.
  cbv zeta.
  assert (Hasc : ascending_lines
                   (SearchResult.line_matches (Sonnet.search_for s query))).
  { rewrite sonnet_line_matches. apply line_hits_ascending, enumerate_ascending. }
  split; [|split; [now apply ascending_lines_nodup | split; [assumption|]]].
  - unfold count_invariant, span_total, Sonnet.search_for.
    cbn [SearchResult.matches SearchResult.title_spans SearchResult.line_matches].
    now rewrite sum_spans_loop.
  - rewrite sonnet_line_matches, Forall_forall. intros lm Hlm.
    apply in_flat_map in Hlm. destruct Hlm as ([n line] & _ & Hlm).
    unfold line_hits in Hlm. cbn [fst snd] in Hlm.
    destruct (Sonnet.find_spans (lower line) (lower query)); [contradiction|].
    destruct Hlm as [<-|[]]. discriminate.
Qed.

(** ** Normalisation and stemming *)

Lemma is_stripped_lower (c : ascii) :
  StemSpec.is_stripped (lower_char c) = StemSpec.is_stripped c.
Proof. destruct c as [[] [] [] [] [] [] [] []]; reflexivity. Qed.

Lemma normalize_lower (token : str) :
  StemSpec.normalize (lower token) = StemSpec.normalize token.
Proof.
  unfold StemSpec.normalize, lower.
  induction token as [|c token IH]; [reflexivity|].
  cbn [map filter]. rewrite is_stripped_lower.
  destruct (StemSpec.is_stripped c); cbn [negb map].
  - exact IH.
  - rewrite lower_char_idem. f_equal. exact IH.
Qed.

Lemma normalize_strip (token : str) :
  StemSpec.normalize (strip_punctuation token) = StemSpec.normalize token.
Proof.
  unfold StemSpec.normalize, strip_punctuation. f_equal.
  rewrite filter_filter. apply filter_ext. intros c.
  now destruct (StemSpec.is_stripped c).
Qed.

Lemma stem_of_normalize (token : str) :
  stem token = PorterStemmer.stem (StemSpec.normalize token).
Proof. unfold stem. now rewrite normalize_spec. Qed.

(** X4: the index lookup ignores letter case and the characters apostrophe,
    comma and period in the token: the token in lower case, and the token
    without these characters, have the stem of the token and get the result
    of the token. *)
Theorem search_for_ignores_case_and_punctuation (idx : Index.t) (token : str) :
  (stem (lower token) = stem token /\
   stem (strip_punctuation token) = stem token) /\
  Index.search_for idx (lower token) = Index.search_for idx token /\
  Index.search_for idx (strip_punctuation token) = Index.search_for idx token.
Proof.
  assert (H1 : stem (lower token) = stem token)
    by (rewrite !stem_of_normalize; now rewrite normalize_lower).
  assert (H2 : stem (strip_punctuation token) = stem token)
    by (rewrite !stem_of_normalize; now rewrite normalize_strip).
  split; [now split|].
  unfold Index.search_for. now rewrite H1, H2.
Qed.










(** ** [Index.tokenize] *)

Lemma runs_from_tokens (s : str) :
  forall (i : Z) (cur : option (str * Z)) (pre : str),
    len pre = i -> scan_state pre cur ->
    forall t p, In (t, p) (runs_from i cur s) -> token_at (pre ++ s) t p.
Proof.
  induction s as [|c s IH]; intros i cur pre Hlen Hst t p Hin.
  - cbn in Hin. destruct cur as [[tok start]|]; [|contradiction].
    destruct Hin as [[= <- <-]|[]].
    destruct Hst as (Hne & Hns & pre0 & -> & Hstart & Hb).
    split; [|split].
    + intros Hrev. apply Hne. now rewrite <- (rev_involutive tok), Hrev.
    + now apply Forall_rev.
    + exists pre0, []. rewrite !app_nil_r. repeat split; try assumption. now left.
  - cbn [runs_from] in Hin.
    replace (pre ++ c :: s) with ((pre ++ [c]) ++ s) by now rewrite <- app_assoc.
    assert (Hlen' : len (pre ++ [c]) = i + 1)
      by (unfold len in *; rewrite length_app; cbn; lia).
    destruct (isspace c) eqn:Hc.
    + apply in_app_or in Hin. destruct Hin as [Hin|Hin].
      * destruct cur as [[tok start]|]; [|contradiction].
        destruct Hin as [[= <- <-]|[]].
        destruct Hst as (Hne & Hns & pre0 & -> & Hstart & Hb).
        split; [|split].
        -- intros Hrev. apply Hne. now rewrite <- (rev_involutive tok), Hrev.
        -- now apply Forall_rev.
        -- exists pre0, (c :: s). rewrite <- !app_assoc. cbn [app].
           repeat split; try assumption. right. now exists c, s.
      * apply (IH (i + 1) None (pre ++ [c]) Hlen'); [|assumption].
        right. now exists pre, c.
    + destruct cur as [[tok start]|].
      * apply (IH (i + 1) (Some (c :: tok, start)) (pre ++ [c]) Hlen');
          [|assumption].
        destruct Hst as (Hne & Hns & pre0 & -> & Hstart & Hb).
        split; [discriminate|]. split; [now constructor|].
        exists pre0. cbn [rev]. rewrite <- app_assoc. now repeat split.
      * apply (IH (i + 1) (Some ([c], i)) (pre ++ [c]) Hlen'); [|assumption].
        split; [discriminate|]. split; [now repeat constructor|].
        exists pre. now repeat split.
Qed.

(** X6: every token of [tokenize] is a maximal run of non-space characters
    of the text, reported with the offset of its first character: it is not
    empty, holds no space character, stands in the text at its offset, and
    the text before it and after it is empty or has a space character next
    to the token. *)
Theorem tokenize_tokens (text t : str) (p : Z) :
  In (t, p) (Index.tokenize text) -> token_at text t p.
Proof.
  intros Hin. unfold Index.tokenize in Hin.
  apply (runs_from_tokens text 0 None [] eq_refl); [now left | assumption].
Qed.

Lemma tokenize_tokens_witness :
  In (lit "beauty's", 4) (Index.tokenize (lit "Thy beauty's image")) /\
  token_at (lit "Thy beauty's image") (lit "beauty's") 4.
Proof.
  assert (Hin : In (lit "beauty's", 4) (Index.tokenize (lit "Thy beauty's image")))
    by (vm_compute; tauto).
  split; [exact Hin|].
  exact (tokenize_tokens (lit "Thy beauty's image") (lit "beauty's") 4 Hin).
Defined.

Lemma runs_from_apart (s : str) :
  forall (i : Z) (cur : option (str * Z)),
    scan_aligned i cur ->
    apart (runs_from i cur s) /\
    Forall (fun x => scan_from i cur <= snd x) (runs_from i cur s).
Proof.
  unfold apart.
  induction s as [|c s IH]; intros i cur Hal.
  - cbn. destruct cur as [[tok start]|]; cbn.
    + split; repeat constructor. cbn. lia.
    + split; constructor.
  - cbn [runs_from]. destruct (isspace c).
    + destruct (IH (i + 1) None I) as [Hs Hb]. cbn [scan_from] in Hb.
      destruct cur as [[tok start]|]; cbn [app scan_from scan_aligned] in *.
      * assert (Hlen : 0 <= len tok) by (unfold len; lia).
        split; constructor; try assumption.
        -- eapply Forall_impl; [|exact Hb]. intros [t p] Hp. cbn in *.
           unfold len in *. rewrite length_rev. lia.
        -- cbn. lia.
        -- eapply Forall_impl; [|exact Hb]. intros [t p] Hp. cbn in *. lia.
      * split; [assumption|].
        eapply Forall_impl; [|exact Hb]. intros [t p] Hp. cbn in *. lia.
    + destruct cur as [[tok start]|]; cbn [scan_from scan_aligned] in *.
      * apply (IH (i + 1) (Some (c :: tok, start))). cbn.
        unfold len in *. cbn [length]. lia.
      * apply (IH (i + 1) (Some ([c], i))). cbn. unfold len. cbn. lia.
Qed.

(** X7: the tokens of [tokenize] come in reading order and lie apart: each
    token ends before the next one starts, with at least one character
    between them, and no offset is negative. *)
Theorem tokenize_ordered (text : str) :
  apart (Index.tokenize text) /\
  Forall (fun x => 0 <= snd x) (Index.tokenize text).
Proof. apply (runs_from_apart text 0 None I). Qed.

Lemma runs_from_covers (s : str) :
  forall (i : Z) (cur : option (str * Z)) (j : Z),
    scan_aligned i cur ->
    (scan_from i cur <= j < i \/
     (i <= j /\ exists c, nth_error s (Z.to_nat (j - i)) = Some c /\
                          isspace c = false)) ->
    exists t p, In (t, p) (runs_from i cur s) /\ p <= j < p + len t.
Proof.
  induction s as [|c s IH]; intros i cur j Hal Hj.
  - destruct Hj as [Hj|(_ & c & Hc & _)];
      [|destruct (Z.to_nat (j - i)); discriminate].
    destruct cur as [[tok start]|]; cbn [scan_from scan_aligned] in *; [|lia].
    exists (rev tok), start. split; [now left|].
    unfold len in *. rewrite length_rev. lia.
  - cbn [runs_from]. destruct (isspace c) eqn:Hc.
    + destruct Hj as [Hj|(Hij & c' & Hn & Hns)].
      * destruct cur as [[tok start]|]; cbn [scan_from scan_aligned] in *; [|lia].
        exists (rev tok), start. split; [apply in_or_app; left; now left|].
        unfold len in *. rewrite length_rev. lia.
      * assert (Hne : j <> i).
        { intros ->. rewrite Z.sub_diag in Hn. cbn in Hn. congruence. }
        destruct (IH (i + 1) None j I) as (t & p & Hin & Hp).
        { right. split; [lia|]. exists c'. split; [|assumption].
          replace (Z.to_nat (j - i)) with (S (Z.to_nat (j - (i + 1)))) in Hn
            by lia. exact Hn. }
        exists t, p. split; [apply in_or_app; now right | assumption].
    + assert (Hnext : forall cur',
                scan_aligned (i + 1) cur' -> scan_from (i + 1) cur' <= j ->
                (j < i \/ j = i \/
                 (i < j /\ exists c', nth_error s (Z.to_nat (j - (i + 1))) = Some c' /\
                                      isspace c' = false)) ->
                exists t p, In (t, p) (runs_from (i + 1) cur' s) /\
                            p <= j < p + len t).
      { intros cur' Hal' Hfrom Hcase. apply IH; [assumption|].
        destruct Hcase as [H|[H|(H & c' & Hn & Hns)]].
        - left. lia.
        - left. lia.
        - right. split; [lia|]. now exists c'. }
      assert (Hcase : scan_from i cur <= j /\
                (j < i \/ j = i \/
                 (i < j /\ exists c', nth_error s (Z.to_nat (j - (i + 1))) = Some c' /\
                                      isspace c' = false))).
      { destruct Hj as [Hj|(Hij & c' & Hn & Hns)].
        - split; [lia | left; lia].
        - assert (scan_from i cur <= i).
          { destruct cur as [[tok start]|]; cbn in *; unfold len in *; lia. }
          split; [lia|]. destruct (Z.eq_dec j i) as [->|Hne]; [now right; left|].
          right. right. split; [lia|]. exists c'. split; [|assumption].
          replace (Z.to_nat (j - i)) with (S (Z.to_nat (j - (i + 1)))) in Hn
            by lia. exact Hn. }
      destruct Hcase as [Hfrom Hcase].
      destruct cur as [[tok start]|]; cbn [scan_from scan_aligned] in *.
      * apply Hnext; [|assumption|assumption].
        cbn. unfold len in *. cbn [length]. lia.
      * apply Hnext; [cbn; unfold len; cbn; lia | cbn; lia | assumption].
Qed.

(** X8: [tokenize] leaves no character out: every character of the text
    that is not a space character lies inside one of the tokens. *)
Theorem tokenize_covers (text : str) (j : Z) (c : ascii) :
  0 <= j -> nth_error text (Z.to_nat j) = Some c -> isspace c = false ->
  exists t p, In (t, p) (Index.tokenize text) /\ p <= j < p + len t.
Proof.
  intros Hj Hn Hc. unfold Index.tokenize.
  apply (runs_from_covers text 0 None j I). right. split; [assumption|].
  exists c. now rewrite Z.sub_0_r.
Qed.

Lemma tokenize_covers_witness :
  nth_error (lit "Thy beauty's image") (Z.to_nat 7) = Some "u"%char /\
  exists t p,
    In (t, p) (Index.tokenize (lit "Thy beauty's image")) /\
    p <= 7 < p + len t.
Proof.
  assert (Hn : nth_error (lit "Thy beauty's image") (Z.to_nat 7) = Some "u"%char)
    by reflexivity.
  split; [exact Hn|].
  assert (H0 : 0 <= 7) by lia.
  exact (tokenize_covers (lit "Thy beauty's image") 7 "u"%char H0 Hn eq_refl).
Defined.

(** ** The contents of the built index *)

Lemma add_token_has_posting (dictionary : dict str Index.postings)
  (doc_id : Z) (token : str) (line_no : option Z) (position token_length : Z)
  (k : str) (d : Z) (p : Posting.t) :
  has_posting
    (Index._add_token dictionary doc_id token line_no position token_length)
    k d p <->
  has_posting dictionary k d p \/
  (k = token /\ d = doc_id /\ p = Posting.mk line_no position token_length).
Proof.
  unfold has_posting, Index._add_token.
  set (pl0 := match dict_get dictionary token with Some pl => pl | None => [] end).
  set (ps0 := match dict_get pl0 doc_id with Some ps => ps | None => [] end).
  set (p0 := Posting.mk line_no position token_length).
  assert (Hold : forall pl ps,
            dict_get dictionary token = Some pl -> dict_get pl doc_id = Some ps ->
            ps = ps0).
  { intros pl ps Hpl Hps. unfold ps0, pl0. now rewrite Hpl, Hps. }
  destruct (str_eqb_spec token k) as [->|Hk].
  - destruct (Z.eq_dec doc_id d) as [->|Hd].
    + split.
      * intros (pl & ps & Hpl & Hps & Hin).
        rewrite dict_get_set_same in Hpl. injection Hpl as <-.
        rewrite dict_get_set_same in Hps. injection Hps as <-.
        apply in_app_or in Hin. destruct Hin as [Hin|[<-|[]]]; [|now right].
        left. unfold ps0 in Hin.
        destruct (dict_get pl0 d) as [ps|] eqn:Hps; [|contradiction].
        unfold pl0 in Hps.
        destruct (dict_get dictionary k) as [pl|] eqn:Hpl; [|discriminate].
        now exists pl, ps.
      * intros H. eexists _, _. split; [apply dict_get_set_same|].
        split; [apply dict_get_set_same|]. apply in_or_app.
        destruct H as [(pl & ps & Hpl & Hps & Hin)|(_ & _ & ->)];
          [|right; now left].
        left. now rewrite <- (Hold pl ps Hpl Hps).
    + split.
      * intros (pl & ps & Hpl & Hps & Hin).
        rewrite dict_get_set_same in Hpl. injection Hpl as <-.
        rewrite dict_get_set_other in Hps by assumption.
        left. unfold pl0 in Hps.
        destruct (dict_get dictionary k) as [pl|] eqn:Hpl; [|discriminate].
        now exists pl, ps.
      * intros [(pl & ps & Hpl & Hps & Hin)|(_ & Heq & _)]; [|congruence].
        eexists _, ps. split; [apply dict_get_set_same|].
        rewrite dict_get_set_other by assumption.
        unfold pl0. rewrite Hpl. now split.
  - split.
    + intros (pl & ps & Hpl & Hps & Hin).
      rewrite dict_get_set_other in Hpl by assumption. left. now exists pl, ps.
    + intros [(pl & ps & Hpl & Hps & Hin)|(Heq & _)]; [|congruence].
      exists pl, ps. now rewrite dict_get_set_other by assumption.
Qed.

Lemma add_text_has_posting (doc_id : Z) (line_no : option Z) (text : str)
  (dictionary : dict str Index.postings) (k : str) (d : Z) (p : Posting.t) :
  has_posting (Index.add_text doc_id line_no dictionary text) k d p <->
  has_posting dictionary k d p \/
  (d = doc_id /\ Posting.line_no p = line_no /\ token_posting text k p).
Proof.
  unfold Index.add_text, token_posting.
  revert dictionary.
  induction (Index.tokenize text) as [|[tok pos] toks IH]; intros dictionary;
    cbn [fold_left].
  - split; [tauto|]. intros [H|(_ & _ & tok & [] & _)]. exact H.
  - rewrite IH, add_token_has_posting. split.
    + intros [[H|(Hk & Hd & Hp)]|(-> & Hln & tok' & Hin & Hlen & Hk)].
      * now left.
      * subst k d p. right. repeat split. exists tok. cbn.
        split; [now left | now split].
      * right. repeat split; try assumption. exists tok'.
        split; [now right | now split].
    + intros [H|(-> & Hln & tok' & [[= -> Hpos]|Hin] & Hlen & Hk)].
      * left. now left.
      * left. right. repeat split; try congruence.
        destruct p as [ln ps tl]. cbn in *. congruence.
      * right. repeat split; try assumption. now exists tok'.
Qed.

Lemma add_sonnet_has_posting (dictionary : dict str Index.postings)
  (s : Sonnet.t) (k : str) (d : Z) (p : Posting.t) :
  has_posting (Index.add_sonnet dictionary s) k d p <->
  has_posting dictionary k d p \/
  (d = Sonnet.id s /\ exists text,
     text_at s (Posting.line_no p) text /\ token_posting text k p).
Proof.
  unfold Index.add_sonnet.
  assert (Hlines : forall l dict0,
    has_posting
      (fold_left
         (fun dictionary '(line_no, line) =>
            Index.add_text (Sonnet.id s) (Some line_no) dictionary line)
         l dict0) k d p <->
    has_posting dict0 k d p \/
    (d = Sonnet.id s /\ exists n line,
       In (n, line) l /\ Posting.line_no p = Some n /\ token_posting line k p)).
  { induction l as [|[n line] l IH]; intros dict0; cbn [fold_left].
    - split; [tauto|]. intros [H|(_ & n & line & [] & _)]. exact H.
    - rewrite IH, add_text_has_posting. split.
      + intros [[H|(-> & Hln & Htok)]|(-> & n' & line' & Hin & Hln & Htok)].
        * now left.
        * right. split; [reflexivity|]. exists n, line. split; [now left | now split].
        * right. split; [reflexivity|]. exists n', line'. split; [now right | now split].
      + intros [H|(-> & n' & line' & [[= -> ->]|Hin] & Hln & Htok)].
        * left. now left.
        * left. right. now repeat split.
        * right. split; [reflexivity|]. now exists n', line'. }
  rewrite Hlines, add_text_has_posting. split.
  - intros [[H|(-> & Hln & Htok)]|(-> & n & line & Hin & Hln & Htok)].
    + now left.
    + right. split; [reflexivity|]. exists (Sonnet.title s). rewrite Hln.
      now split.
    + right. split; [reflexivity|]. exists line. rewrite Hln.
      apply enumerate_in_iff in Hin. now split.
  - intros [H|(-> & text & Hat & Htok)]; [left; now left|].
    unfold text_at in Hat. destruct (Posting.line_no p) as [n|] eqn:Hln.
    + right. split; [reflexivity|]. exists n, text.
      split; [now apply enumerate_in_iff | now split].
    + subst text. left. right. now repeat split.
Qed.

(* The postings of a built index are the token occurrences. *)
Lemma dictionary_occurrences (sonnets : list Sonnet.t) (k : str) (d : Z)
  (p : Posting.t) :
  has_posting (Index.dictionary (Index.init sonnets)) k d p <->
  occurrence sonnets k d p.
Proof.
  cbn [Index.init Index.dictionary]. unfold occurrence.
  assert (Hgen : forall l dict0,
    has_posting (fold_left Index.add_sonnet l dict0) k d p <->
    has_posting dict0 k d p \/
    exists s text, In s l /\ Sonnet.id s = d /\
                   text_at s (Posting.line_no p) text /\ token_posting text k p).
  { induction l as [|s l IH]; intros dict0; cbn [fold_left].
    - split; [tauto|]. intros [H|(s & text & [] & _)]. exact H.
    - rewrite IH, add_sonnet_has_posting. split.
      + intros [[H|(-> & text & Hat & Htok)]|(s' & text & Hin & Hid & Hat & Htok)].
        * now left.
        * right. exists s, text. split; [now left | now repeat split].
        * right. exists s', text. split; [now right | now repeat split].
      + intros [H|(s' & text & [->|Hin] & Hid & Hat & Htok)].
        * left. now left.
        * left. right. split; [now symmetry|]. now exists text.
        * right. now exists s', text. }
  rewrite Hgen. split; [|tauto].
  intros [(pl & ps & Hpl & _)|H]; [discriminate Hpl | exact H].
Qed.

(** X9: the dictionary of a built index holds exactly the token occurrences
    of the sonnets: a posting is stored under a key and a document
    identifier if and only if some sonnet of the list with that identifier
    has, in its title or in the line the posting names, a token at the
    posting's offset with the posting's length whose stem is the key. *)
Theorem index_holds_occurrences (sonnets : list Sonnet.t) (k : str) (d : Z)
  (p : Posting.t) :
  has_posting (Index.dictionary (Index.init sonnets)) k d p <->
  occurrence sonnets k d p.
Proof. exact (dictionary_occurrences sonnets k d p). Qed.

(** ** What [Index.search_for] finds *)

Lemma combine_with_title (a b : SearchResult.t) :
  SearchResult.title (SearchResult.combine_with a b) = SearchResult.title a.
Proof. reflexivity. Qed.

Lemma fold_combine_title (rs : list SearchResult.t) (r0 : SearchResult.t) :
  SearchResult.title (fold_left SearchResult.combine_with rs r0) =
  SearchResult.title r0.
Proof.
  revert r0. induction rs as [|r rs IH]; intros r0; [reflexivity|].
  cbn [fold_left]. now rewrite IH.
Qed.

(** A property of line matches that does not look at the spans holds for
    the line matches of a combination when it holds for those of both
    sides. *)
Lemma combine_with_lines_forall (Q : LineMatch.t -> Prop)
  (a b : SearchResult.t) :
  (forall lm v, Q lm -> Q (LineMatch.set_spans lm v)) ->
  Forall Q (SearchResult.line_matches a) ->
  Forall Q (SearchResult.line_matches b) ->
  Forall Q (SearchResult.line_matches (SearchResult.combine_with a b)).
Proof.
  intros Hset Ha Hb. unfold SearchResult.combine_with.
  cbn [SearchResult.line_matches SearchResult.set_line_matches].
  assert (Hown : Forall (fun e => Q (snd e))
                   (SearchResult.own_lines (SearchResult.line_matches a))).
  { unfold SearchResult.own_lines.
    assert (Hgen : forall l d,
      Forall Q l -> Forall (fun e : Z * LineMatch.t => Q (snd e)) d ->
      Forall (fun e => Q (snd e))
        (fold_left
           (fun d lm => dict_set d (LineMatch.line_no lm) (LineMatch.copy lm))
           l d)).
    { induction l as [|lm l IH]; intros d Hl Hd; cbn [fold_left]; [assumption|].
      inversion Hl; subst. apply IH; [assumption|].
      apply (HeapFacts.dict_set_forall_values Q); [assumption|].
      now rewrite LineMatch_copy_id. }
    apply Hgen; [assumption | constructor]. }
  assert (Hall : Forall (fun e => Q (snd e))
                   (fold_left SearchResult.add_line (SearchResult.line_matches b)
                      (SearchResult.own_lines (SearchResult.line_matches a)))).
  { revert Hown. generalize (SearchResult.own_lines (SearchResult.line_matches a)).
    induction Hb as [|lm l Hlm Hl IH]; intros d Hd; cbn [fold_left]; [assumption|].
    apply IH. unfold SearchResult.add_line.
    destruct (dict_get d (LineMatch.line_no lm)) as [cur|] eqn:Hg.
    - apply (HeapFacts.dict_set_forall_values Q); [assumption|].
      apply Hset. apply dict_get_some_in in Hg.
      rewrite Forall_forall in Hd. apply (Hd _ Hg).
    - apply (HeapFacts.dict_set_forall_values Q); [assumption|].
      now rewrite LineMatch_copy_id. }
  rewrite Forall_forall in Hall |- *. intros lm Hin.
  apply (Permutation_in _ (sorted_by_int_perm _ _)) in Hin.
  apply in_map_iff in Hin. destruct Hin as (e & <- & Hin). now apply Hall.
Qed.

Lemma fold_combine_lines_forall (Q : LineMatch.t -> Prop)
  (rs : list SearchResult.t) (r0 : SearchResult.t) :
  (forall lm v, Q lm -> Q (LineMatch.set_spans lm v)) ->
  Forall Q (SearchResult.line_matches r0) ->
  Forall (fun r => Forall Q (SearchResult.line_matches r)) rs ->
  Forall Q (SearchResult.line_matches (fold_left SearchResult.combine_with rs r0)).
Proof.
  intros Hset H0 Hrs. revert r0 H0.
  induction Hrs as [|r rs Hr Hrs IH]; intros r0 H0; [assumption|].
  cbn [fold_left]. apply IH. now apply combine_with_lines_forall.
Qed.

Lemma minimal_result_line_of (s : Sonnet.t) (p : Posting.t) :
  posting_ok s p ->
  Forall (line_of s) (SearchResult.line_matches (minimal_result s p)).
Proof.
  unfold posting_ok, minimal_result.
  destruct (Posting.line_no p) as [n|]; intros Hp; cbn; [|constructor].
  constructor; [|constructor]. unfold line_of, text_at. cbn.
  split; [lia|]. apply nth_error_nth'. unfold len in Hp. lia.
Qed.

(** The sonnets a built index stores are sonnets of the list, under their
    identifier. *)
Lemma sonnets_dict_in (sonnets : list Sonnet.t) (d : Z) (s : Sonnet.t) :
  dict_get (Index.sonnets (Index.init sonnets)) d = Some s ->
  In s sonnets /\ Sonnet.id s = d.
Proof.
  cbn [Index.init Index.sonnets]. intros Hg. apply dict_get_some_in in Hg.
  assert (Hgen : forall l (acc : dict Z Sonnet.t),
    (forall k v, In (k, v) acc -> In v sonnets /\ Sonnet.id v = k) ->
    (forall v, In v l -> In v sonnets) ->
    forall k v,
      In (k, v) (fold_left (fun d sonnet => dict_set d (Sonnet.id sonnet) sonnet)
                   l acc) ->
      In v sonnets /\ Sonnet.id v = k).
  { induction l as [|x l IH]; intros acc Hacc Hl k v; cbn [fold_left];
      [apply Hacc|].
    apply IH; [|intros; apply Hl; now right].
    intros k' v' Hin. apply dict_in_set in Hin.
    destruct Hin as [[-> ->]|Hin]; [|now apply Hacc].
    split; [apply Hl; now left | reflexivity]. }
  apply (Hgen sonnets [] ) with (k := d); [intros ? ? [] | tauto | assumption].
Qed.

Lemma same_id_same_sonnet (sonnets : list Sonnet.t) (s1 s2 : Sonnet.t) :
  NoDup (map Sonnet.id sonnets) -> In s1 sonnets -> In s2 sonnets ->
  Sonnet.id s1 = Sonnet.id s2 -> s1 = s2.
Proof.
  induction sonnets as [|x l IH]; cbn; intros Hnd H1 H2 Hid; [contradiction|].
  inversion Hnd as [|? ? Hnotin Hnd']; subst.
  destruct H1 as [->|H1], H2 as [->|H2]; try reflexivity.
  - exfalso. apply Hnotin. rewrite Hid. now apply in_map.
  - exfalso. apply Hnotin. rewrite <- Hid. now apply in_map.
  - now apply IH.
Qed.

(** The result of a document in the mapping [search_for] returns on a built
    index, with the postings it comes from. *)
Lemma search_for_entry (sonnets : list Sonnet.t) (q : str)
  (results : dict Z SearchResult.t) (d : Z) (r : SearchResult.t) :
  NoDup (map Sonnet.id sonnets) ->
  Index.search_for (Index.init sonnets) q = Ok results ->
  In (d, r) results ->
  exists s ps,
    In s sonnets /\ Sonnet.id s = d /\ SearchResult.title r = Sonnet.title s /\
    Forall (fun p => has_posting (Index.dictionary (Index.init sonnets))
                       (stem q) d p /\ posting_ok s p) ps /\
    Permutation (SearchResult.title_spans r)
      (map posting_span (title_postings ps)) /\
    Permutation (line_span_pairs (SearchResult.line_matches r))
      (line_posting_pairs ps) /\
    Forall (line_of s) (SearchResult.line_matches r).
Proof.
  intros Hnd Hs Hin. pose proof (init_ok sonnets Hnd) as Hidx.
  rewrite (search_for_ok _ q Hidx) in Hs.
  destruct (dict_get (Index.dictionary (Index.init sonnets)) (stem q))
    as [pl|] eqn:Hpl; injection Hs as <-; [|contradiction].
  destruct (Hidx _ _ Hpl) as [Hkeys Hok].
  apply doc_entries_in in Hin. destruct Hin as (s & p & ps & Hd & Hsd & ->).
  destruct (Hok _ _ Hd) as (s' & Hsd' & Hall).
  assert (Heq : Some s = Some s')
    by (etransitivity; [symmetry; exact Hsd | exact Hsd']).
  injection Heq as <-.
  destruct (sonnets_dict_in _ _ _ Hsd) as [Hs_in Hs_id].
  destruct (doc_result_effect s p ps) as (_ & Ht & Hp).
  exists s, (p :: ps). repeat split; try assumption.
  - rewrite fold_combine_title. unfold minimal_result.
    now destruct (Posting.line_no p).
  - rewrite Forall_forall in Hall |- *. intros p' Hp'. split; [|now apply Hall].
    exists pl, (p :: ps). split; [assumption|]. split; [|assumption].
    now apply dict_in_get.
  - inversion Hall as [|? ? Hp0 Hps]; subst.
    apply fold_combine_lines_forall.
    + intros lm v Hlm. exact Hlm.
    + now apply minimal_result_line_of.
    + rewrite Forall_forall in Hps |- *. intros r Hr.
      apply in_map_iff in Hr. destruct Hr as (p' & <- & Hp').
      apply minimal_result_line_of. now apply Hps.
Qed.

(** X10: the index finds every token.  On an index built from sonnets with
    pairwise distinct identifiers, for a token [tok] at offset [pos] of the
    title or of a line of a sonnet of the list, [search_for(tok)] returns a
    mapping that has a result for that sonnet, with the sonnet's title and a
    match count of at least 1, and the span [(pos, pos + len tok)] is among
    its title spans, or among the spans of its line match for that line. *)
Theorem search_for_finds_tokens (sonnets : list Sonnet.t) (s : Sonnet.t)
  (line_no : option Z) (text tok : str) (pos : Z) :
  NoDup (map Sonnet.id sonnets) -> In s sonnets ->
  text_at s line_no text -> In (tok, pos) (Index.tokenize text) ->
  exists results r,
    Index.search_for (Index.init sonnets) tok = Ok results /\
    dict_get results (Sonnet.id s) = Some r /\
    SearchResult.title r = Sonnet.title s /\
    1 <= SearchResult.matches r /\
    match line_no with
    | None => In (pos, pos + len tok) (SearchResult.title_spans r)
    | Some n =>
        exists lm,
          In lm (SearchResult.line_matches r) /\ LineMatch.line_no lm = n /\
          LineMatch.text lm = text /\ In (pos, pos + len tok) (LineMatch.spans lm)
    end.
Proof.
  intros Hnd Hs Hat Htok.
  set (p := Posting.mk line_no pos (len tok)).
  assert (Hocc : occurrence sonnets (stem tok) (Sonnet.id s) p).
  { exists s, text. repeat split; try assumption. now exists tok. }
  apply dictionary_occurrences in Hocc.
  destruct Hocc as (pl & ps & Hpl & Hps & Hin).
  pose proof (init_ok sonnets Hnd) as Hidx.
  destruct (Hidx _ _ Hpl) as [Hkeys Hok].
  destruct ps as [|p0 ps]; [contradiction|].
  pose proof (sonnets_dict_get sonnets s Hnd Hs) as Hsd.
  exists (doc_entries (Index.sonnets (Index.init sonnets)) pl),
         (fold_left SearchResult.combine_with (map (minimal_result s) ps)
            (minimal_result s p0)).
  split; [rewrite (search_for_ok _ tok Hidx), Hpl; reflexivity|].
  split; [apply doc_entries_get;
          [assumption | now apply dict_get_some_in | exact Hsd]|].
  destruct (doc_result_effect s p0 ps) as (Hm & Ht & Hp).
  destruct (Hok _ _ (dict_get_some_in _ _ _ Hps)) as (s' & Hsd' & Hall).
  assert (Heq : Some s = Some s')
    by (etransitivity; [symmetry; exact Hsd | exact Hsd']).
  injection Heq as <-.
  split; [|split].
  - rewrite fold_combine_title. unfold minimal_result.
    now destruct (Posting.line_no p0).
  - rewrite Hm. unfold len. cbn [length]. lia.
  - destruct line_no as [n|].
    + assert (Hpair : In (n, (pos, pos + len tok))
                        (line_span_pairs
                           (SearchResult.line_matches
                              (fold_left SearchResult.combine_with
                                 (map (minimal_result s) ps)
                                 (minimal_result s p0))))).
      { apply (Permutation_in _ (Permutation_sym Hp)).
        unfold line_posting_pairs. apply in_flat_map. exists p.
        split; [assumption|]. cbn. now left. }
      unfold line_span_pairs in Hpair. apply in_flat_map in Hpair.
      destruct Hpair as (lm & Hlm & Hpair). apply in_map_iff in Hpair.
      destruct Hpair as (sp & [= Hn <-] & Hsp).
      exists lm. repeat split; try assumption.
      assert (Hline : Forall (line_of s)
                (SearchResult.line_matches
                   (fold_left SearchResult.combine_with
                      (map (minimal_result s) ps) (minimal_result s p0)))).
      { inversion Hall as [|? ? Hp0 Hps']; subst.
        apply fold_combine_lines_forall.
        - intros lm' v Hlm'. exact Hlm'.
        - now apply minimal_result_line_of.
        - rewrite Forall_forall in Hps' |- *. intros r Hr.
          apply in_map_iff in Hr. destruct Hr as (p' & <- & Hp').
          apply minimal_result_line_of. now apply Hps'. }
      rewrite Forall_forall in Hline. specialize (Hline lm Hlm).
      unfold line_of, text_at in Hline, Hat. rewrite Hn in Hline.
      destruct Hline as [_ Hl1]. destruct Hat as [_ Hl2]. congruence.
    + apply (Permutation_in _ (Permutation_sym Ht)).
      change (pos, pos + len tok) with (posting_span p).
      apply in_map. unfold title_postings. apply filter_In. now split.
Qed.

Lemma search_for_finds_tokens_witness :
  NoDup (map Sonnet.id [Scenario.doc1; Scenario.doc2]) /\
  In Scenario.doc2 [Scenario.doc1; Scenario.doc2] /\
  text_at Scenario.doc2 (Some 1)
    (lit "Thy beauty's image dost thou rose increase") /\
  In (lit "beauty's", 4)
    (Index.tokenize (lit "Thy beauty's image dost thou rose increase")) /\
  exists results r,
    Index.search_for (Index.init [Scenario.doc1; Scenario.doc2])
      (lit "beauty's") = Ok results /\
    dict_get results (Sonnet.id Scenario.doc2) = Some r /\
    SearchResult.title r = Sonnet.title Scenario.doc2 /\
    1 <= SearchResult.matches r /\
    exists lm,
      In lm (SearchResult.line_matches r) /\ LineMatch.line_no lm = 1 /\
      LineMatch.text lm = lit "Thy beauty's image dost thou rose increase" /\
      In (4, 4 + len (lit "beauty's")) (LineMatch.spans lm).
Proof.
  assert (Hin : In Scenario.doc2 [Scenario.doc1; Scenario.doc2])
    by (right; now left).
  assert (Hat : text_at Scenario.doc2 (Some 1)
                  (lit "Thy beauty's image dost thou rose increase"))
    by (split; [lia | reflexivity]).
  assert (Htok : In (lit "beauty's", 4)
            (Index.tokenize (lit "Thy beauty's image dost thou rose increase")))
    by (vm_compute; tauto).
  repeat (split; [assumption || exact scenario_ids_distinct|]).
  exact (search_for_finds_tokens [Scenario.doc1; Scenario.doc2] Scenario.doc2
           (Some 1) _ _ _ scenario_ids_distinct Hin Hat Htok).
Defined.

(** X11: the index reports only tokens.  On an index built from sonnets
    with pairwise distinct identifiers, every result in the mapping
    [search_for(q)] returns belongs to a sonnet of the list and has its
    title; every title span is a token of the title whose stem is the stem
    of [q]; every line match names a line of the sonnet, carries its text,
    and each of its spans is a token of that line with the stem of [q]. *)
Theorem search_for_reports_tokens (sonnets : list Sonnet.t) (q : str)
  (results : dict Z SearchResult.t) (d : Z) (r : SearchResult.t) :
  NoDup (map Sonnet.id sonnets) ->
  Index.search_for (Index.init sonnets) q = Ok results ->
  In (d, r) results ->
  exists s,
    In s sonnets /\ Sonnet.id s = d /\ SearchResult.title r = Sonnet.title s /\
    Forall (token_span (Sonnet.title s) q) (SearchResult.title_spans r) /\
    Forall (fun lm => line_of s lm /\
                      Forall (token_span (LineMatch.text lm) q)
                        (LineMatch.spans lm))
      (SearchResult.line_matches r).
Proof.
  intros Hnd Hs Hin.
  destruct (search_for_entry sonnets q results d r Hnd Hs Hin)
    as (s & ps & Hs_in & Hid & Htitle & Hps & Ht & Hp & Hlines).
  assert (Hocc : forall p, In p ps ->
            forall text, text_at s (Posting.line_no p) text ->
            token_span text q (posting_span p)).
  { intros p Hp_in text Hat. rewrite Forall_forall in Hps.
    destruct (Hps p Hp_in) as [Hhas _].
    apply dictionary_occurrences in Hhas.
    destruct Hhas as (s' & text' & Hs' & Hid' & Hat' & tok & Htok & Hlen & Hstem).
    assert (s' = s) by (apply (same_id_same_sonnet sonnets); congruence).
    subst s'.
    assert (text' = text).
    { unfold text_at in Hat, Hat'. destruct (Posting.line_no p); [|congruence].
      destruct Hat as [_ H1], Hat' as [_ H2]. congruence. }
    subst text'. exists tok. unfold posting_span. cbn. now rewrite Hlen. }
  exists s. repeat split; try assumption.
  - rewrite Forall_forall. intros sp Hsp.
    apply (Permutation_in _ Ht) in Hsp. apply in_map_iff in Hsp.
    destruct Hsp as (p & <- & Hp_in). apply filter_In in Hp_in.
    destruct Hp_in as [Hp_in Hnone]. apply (Hocc p Hp_in).
    unfold text_at. now destruct (Posting.line_no p).
  - rewrite Forall_forall in Hlines |- *. intros lm Hlm.
    split; [now apply Hlines|]. rewrite Forall_forall. intros sp Hsp.
    assert (Hpair : In (LineMatch.line_no lm, sp) (line_posting_pairs ps)).
    { apply (Permutation_in _ Hp). unfold line_span_pairs.
      apply in_flat_map. exists lm. split; [assumption | now apply in_map]. }
    unfold line_posting_pairs in Hpair. apply in_flat_map in Hpair.
    destruct Hpair as (p & Hp_in & Hpair).
    destruct (Posting.line_no p) as [n|] eqn:Hn; [|contradiction].
    destruct Hpair as [[= Hline Hspan]|[]]. rewrite <- Hspan.
    apply (Hocc p Hp_in). rewrite Hn, Hline. apply (Hlines lm Hlm).
Qed.

Lemma search_for_reports_tokens_witness :
  NoDup (map Sonnet.id [Scenario.doc1; Scenario.doc2]) /\
  Index.search_for (Index.init [Scenario.doc1; Scenario.doc2]) (lit "Sonnets") =
    Ok [(1, SearchResult.mk (lit "Sonnet 1: Test") [(0, 6)] [] 1);
        (2, SearchResult.mk (lit "Sonnet 2: Other") [(0, 6)] [] 1)] /\
  exists s,
    In s [Scenario.doc1; Scenario.doc2] /\ Sonnet.id s = 2 /\
    lit "Sonnet 2: Other" = Sonnet.title s /\
    Forall (token_span (Sonnet.title s) (lit "Sonnets")) [(0, 6)] /\
    Forall (fun lm => line_of s lm /\
                      Forall (token_span (LineMatch.text lm) (lit "Sonnets"))
                        (LineMatch.spans lm)) [].
Proof.
  assert (Hs : Index.search_for (Index.init [Scenario.doc1; Scenario.doc2])
                 (lit "Sonnets") =
               Ok [(1, SearchResult.mk (lit "Sonnet 1: Test") [(0, 6)] [] 1);
                   (2, SearchResult.mk (lit "Sonnet 2: Other") [(0, 6)] [] 1)])
    by (vm_compute; reflexivity).
  split; [exact scenario_ids_distinct|]. split; [exact Hs|].
  exact (search_for_reports_tokens [Scenario.doc1; Scenario.doc2] (lit "Sonnets")
           _ 2 _ scenario_ids_distinct Hs (or_intror (or_introl eq_refl))).
Defined.

(** ** [Searcher.search] *)

Lemma runs_from_spaces (s : str) (i : Z) :
  Forall (fun c => isspace c = true) s -> runs_from i None s = [].
Proof.
  intros Hs. revert i. induction Hs as [|c s Hc Hs IH]; intros i; [reflexivity|].
  cbn [runs_from]. rewrite Hc. cbn. apply IH.
Qed.

(** X12: a query without words finds nothing: for a query that is empty or
    consists of space characters only, [search] returns the empty list, on
    every searcher and in every mode, without a lookup. *)
Theorem search_blank_query (self : Searcher.t) (query search_mode : str) :
  Forall (fun c => isspace c = true) query ->
  Searcher.search self query search_mode = Ok [].
Proof.
  intros Hq. unfold Searcher.search, Searcher.combined, split.
  now rewrite runs_from_spaces.
Qed.

Lemma search_blank_query_witness :
  Forall (fun c => isspace c = true) (lit "   ") /\
  Searcher.search Scenario.searcher (lit "   ") (lit "AND") = Ok [].
Proof.
  assert (Hq : Forall (fun c => isspace c = true) (lit "   "))
    by (repeat constructor).
  split; [exact Hq|].
  exact (search_blank_query Scenario.searcher (lit "   ") (lit "AND") Hq).
Defined.

Lemma or_step_get (combined_results results : dict Z SearchResult.t) (k : Z) :
  NoDup (dict_keys results) ->
  dict_get (Searcher.or_step combined_results results) k =
  merge_or (dict_get combined_results k) (dict_get results k).
Proof.
  unfold Searcher.or_step. revert combined_results.
  induction results as [|[d r] results IH]; intros c Hnd; cbn [fold_left].
  - cbn. now destruct (dict_get c k).
  - cbn [dict_keys map fst] in Hnd. inversion Hnd as [|? ? Hnotin Hnd']; subst.
    rewrite IH by assumption. cbn [dict_get].
    change (key_eqb d k) with (d =? k).
    destruct (Z.eqb_spec d k) as [->|Hne].
    + assert (Hk : dict_get results k = None) by now apply dict_get_none.
      rewrite Hk.
      destruct (dict_get c k) as [cur|] eqn:Hc; rewrite dict_get_set_same;
        reflexivity.
    + destruct (dict_get c d) as [cur|] eqn:Hc;
        now rewrite dict_get_set_other by assumption.
Qed.

Lemma and_step_get (combined_results results : dict Z SearchResult.t) (k : Z) :
  NoDup (dict_keys combined_results) ->
  dict_get (Searcher.and_step combined_results results) k =
  merge_and (dict_get combined_results k) (dict_get results k).
Proof.
  unfold Searcher.and_step. intros Hnd.
  assert (Hgen : forall l acc,
    NoDup (dict_keys l) ->
    (forall x, In x (dict_keys l) -> dict_get acc x = None) ->
    dict_get
      (fold_left
         (fun new_combined '(doc_id, cur) =>
            match dict_get results doc_id with
            | Some r => dict_set new_combined doc_id (SearchResult.combine_with cur r)
            | None => new_combined
            end) l acc) k =
    match dict_get acc k with
    | Some v => Some v
    | None => merge_and (dict_get l k) (dict_get results k)
    end).
  { induction l as [|[d cur] l IH]; intros acc Hl Hacc; cbn [fold_left].
    - cbn. now destruct (dict_get acc k).
    - cbn [dict_keys map fst] in Hl. inversion Hl as [|? ? Hnotin Hl']; subst.
      assert (Hd : dict_get acc d = None) by (apply Hacc; now left).
      rewrite IH; [|assumption|].
      + cbn [dict_get]. change (key_eqb d k) with (d =? k).
        destruct (Z.eqb_spec d k) as [->|Hne].
        * destruct (dict_get results k) as [r|] eqn:Hr.
          -- now rewrite dict_get_set_same, Hd.
          -- rewrite Hd. assert (Hk : dict_get l k = None) by now apply dict_get_none.
             now rewrite Hk.
        * destruct (dict_get results d) as [r|]; [|reflexivity].
          now rewrite dict_get_set_other by assumption.
      + intros x Hx. destruct (dict_get results d) as [r|].
        * rewrite dict_get_set_other; [apply Hacc; now right|].
          intros ->. now apply Hnotin.
        * apply Hacc. now right. }
  rewrite Hgen; [reflexivity | assumption | reflexivity].
Qed.

Lemma search_for_keys_nodup (idx : Index.t) (token : str)
  (results : dict Z SearchResult.t) :
  index_ok idx -> Index.search_for idx token = Ok results ->
  NoDup (dict_keys results).
Proof.
  intros Hidx Hs. rewrite (search_for_ok idx token Hidx) in Hs.
  destruct (dict_get (Index.dictionary idx) (stem token)) as [pl|] eqn:Hpl;
    injection Hs as <-; [|constructor].
  apply doc_entries_nodup. apply (Hidx _ _ Hpl).
Qed.

Lemma dict_keys_get {V : Type} (d : dict Z V) (k : Z) :
  In k (dict_keys d) <-> dict_get d k <> None.
Proof.
  destruct (dict_get d k) as [v|] eqn:Hg.
  - split; [discriminate|]. intros _. apply dict_get_some_in in Hg.
    change k with (fst (k, v)). now apply in_map.
  - apply dict_get_none in Hg. tauto.
Qed.

Lemma search_for_keys_mentions (sonnets : list Sonnet.t) (w : str)
  (results : dict Z SearchResult.t) (d : Z) :
  NoDup (map Sonnet.id sonnets) ->
  Index.search_for (Index.init sonnets) w = Ok results ->
  In d (dict_keys results) <-> mentions sonnets d w.
Proof.
  intros Hnd Hs. pose proof (init_ok sonnets Hnd) as Hidx.
  rewrite (search_for_ok _ w Hidx) in Hs. unfold mentions.
  destruct (dict_get (Index.dictionary (Index.init sonnets)) (stem w))
    as [pl|] eqn:Hpl; injection Hs as <-.
  - destruct (Hidx _ _ Hpl) as [Hkeys Hok]. split.
    + intros Hin. apply in_map_iff in Hin. destruct Hin as ([d' r] & Hd & Hin).
      cbn in Hd. subst d'. apply doc_entries_in in Hin.
      destruct Hin as (s & p & ps & Hin & _ & _).
      exists p. apply dictionary_occurrences. exists pl, (p :: ps).
      split; [assumption|]. split; [now apply dict_in_get | now left].
    + intros (p & Hocc). apply dictionary_occurrences in Hocc.
      destruct Hocc as (pl' & ps & Hpl' & Hps & Hin).
      assert (Heq : Some pl = Some pl')
        by (etransitivity; [symmetry; exact Hpl | exact Hpl']).
      injection Heq as <-.
      destruct ps as [|p0 ps]; [contradiction|].
      apply dict_get_some_in in Hps.
      destruct (Hok _ _ Hps) as (s & Hsd & _).
      pose proof (doc_entries_get _ _ _ _ _ _ Hkeys Hps Hsd) as Hg.
      apply dict_keys_get. intros Hn.
      assert (Heq : Some (fold_left SearchResult.combine_with
                            (map (minimal_result s) ps) (minimal_result s p0)) =
                    None)
        by (etransitivity; [symmetry; exact Hg | exact Hn]).
      discriminate Heq.
  - split; [intros []|]. intros (p & Hocc).
    apply dictionary_occurrences in Hocc.
    destruct Hocc as (pl' & ps & Hpl' & _).
    assert (Heq : @None Index.postings = Some pl')
      by (etransitivity; [symmetry; exact Hpl | exact Hpl']).
    discriminate Heq.
Qed.

Lemma found_mentions (sonnets : list Sonnet.t) (w : str) (d : Z) :
  NoDup (map Sonnet.id sonnets) ->
  found (Index.init sonnets) w d <> None <-> mentions sonnets d w.
Proof.
  intros Hnd. unfold found.
  destruct (search_for_good _ w (init_ok sonnets Hnd)) as (results & Hs & _).
  rewrite Hs, <- dict_keys_get. now apply search_for_keys_mentions.
Qed.

Lemma or_step_nodup (combined_results results : dict Z SearchResult.t) :
  NoDup (dict_keys combined_results) ->
  NoDup (dict_keys (Searcher.or_step combined_results results)).
Proof.
  unfold Searcher.or_step. revert combined_results.
  induction results as [|[d r] results IH]; intros c Hc; cbn [fold_left];
    [assumption|].
  apply IH. destruct (dict_get c d); now apply dict_set_nodup.
Qed.

Lemma and_step_nodup (combined_results results : dict Z SearchResult.t) :
  NoDup (dict_keys (Searcher.and_step combined_results results)).
Proof.
  unfold Searcher.and_step.
  assert (Hgen : forall l acc,
    NoDup (dict_keys acc) ->
    NoDup (dict_keys (fold_left
      (fun new_combined '(doc_id, cur) =>
         match dict_get results doc_id with
         | Some r => dict_set new_combined doc_id (SearchResult.combine_with cur r)
         | None => new_combined
         end) l acc))).
  { induction l as [|[d cur] l IH]; intros acc Hacc; cbn [fold_left];
      [assumption|].
    apply IH. destruct (dict_get results d); [now apply dict_set_nodup | assumption]. }
  apply Hgen. constructor.
Qed.

Lemma merge_or_none (x : option SearchResult.t) : merge_or None x = x.
Proof. now destruct x. Qed.

Lemma word_step_or_get (self : Searcher.t) (word : str)
  (combined_results : dict Z SearchResult.t) :
  index_ok (Searcher.index self) -> NoDup (dict_keys combined_results) ->
  exists c,
    Searcher.word_step self (lit "OR") combined_results word = Ok c /\
    NoDup (dict_keys c) /\
    forall d, dict_get c d =
              merge_or (dict_get combined_results d)
                (found (Searcher.index self) word d).
Proof.
  intros Hidx Hc. unfold Searcher.word_step, found.
  destruct (search_for_good _ word Hidx) as (results & Hs & _).
  pose proof (search_for_keys_nodup _ _ _ Hidx Hs) as Hr.
  rewrite Hs. cbn [bind].
  destruct combined_results as [|e c]; cbn [dict_is_empty].
  - exists results. split; [reflexivity|]. split; [assumption|].
    intros d. cbn [dict_get]. now rewrite merge_or_none.
  - change (str_eqb (lit "OR") (lit "AND")) with false.
    change (str_eqb (lit "OR") (lit "OR")) with true. cbn iota.
    eexists. split; [reflexivity|]. split; [now apply or_step_nodup|].
    intros d. now apply or_step_get.
Qed.

Lemma or_loop (self : Searcher.t) (words : list str)
  (combined_results : dict Z SearchResult.t) :
  index_ok (Searcher.index self) -> NoDup (dict_keys combined_results) ->
  exists c,
    for_each (Searcher.word_step self (lit "OR")) words combined_results = Ok c /\
    NoDup (dict_keys c) /\
    forall d, dict_get c d =
              fold_left merge_or
                (map (fun w => found (Searcher.index self) w d) words)
                (dict_get combined_results d).
Proof.
  intros Hidx. revert combined_results.
  induction words as [|w words IH]; intros acc Hacc; cbn [for_each map fold_left].
  - exists acc. now repeat split.
  - destruct (word_step_or_get self w acc Hidx Hacc) as (c1 & -> & Hc1 & Hget).
    cbn [bind]. destruct (IH c1 Hc1) as (c & Hrun & Hc & Hval).
    exists c. split; [assumption|]. split; [assumption|].
    intros d. now rewrite Hval, Hget.
Qed.

Lemma fold_merge_or_some (l : list (option SearchResult.t))
  (a : option SearchResult.t) :
  fold_left merge_or l a <> None <-> a <> None \/ Exists (fun x => x <> None) l.
Proof.
  revert a. induction l as [|x l IH]; intros a; cbn [fold_left].
  - rewrite Exists_nil. tauto.
  - rewrite IH, Exists_cons.
    destruct a, x; cbn; intuition congruence.
Qed.

Lemma fold_merge_and_some (l : list (option SearchResult.t))
  (a : option SearchResult.t) :
  fold_left merge_and l a <> None <-> a <> None /\ Forall (fun x => x <> None) l.
Proof.
  revert a. induction l as [|x l IH]; intros a; cbn [fold_left].
  - split; [intros Ha; split; [assumption | constructor] | tauto].
  - rewrite IH. split.
    + intros [Hm Hl]. destruct a, x; cbn in Hm; try congruence.
      split; [discriminate|]. constructor; [discriminate | assumption].
    + intros [Ha Hl]. inversion Hl as [|? ? Hx Hl']; subst.
      split; [|assumption]. destruct a, x; cbn; congruence.
Qed.

(** X13: an [OR] query returns the documents that mention one of its words.
    On a searcher built from sonnets with pairwise distinct identifiers,
    [search(query, "OR")] returns the values, in title order, of a mapping
    with one entry per document identifier; a document has an entry if and
    only if it mentions a word of the query, and its entry is the
    combination, in query order, of the index's results for the words it
    mentions. *)
Theorem or_search_spec (sonnets : list Sonnet.t) (query : str) :
  NoDup (map Sonnet.id sonnets) ->
  exists c,
    Searcher.combined (Searcher.init sonnets) query (lit "OR") = Ok c /\
    Searcher.search (Searcher.init sonnets) query (lit "OR") =
      Ok (sorted_by_str SearchResult.title (dict_values c)) /\
    NoDup (dict_keys c) /\
    (forall d, In d (dict_keys c) <->
               exists w, In w (split query) /\ mentions sonnets d w) /\
    (forall d, dict_get c d =
               fold_left merge_or
                 (map (fun w => found (Index.init sonnets) w d) (split query))
                 None).
Proof.
  intros Hnd. pose proof (init_ok sonnets Hnd) as Hidx.
  destruct (or_loop (Searcher.init sonnets) (split query) [] Hidx)
    as (c & Hrun & Hc & Hval); [constructor|].
  exists c. unfold Searcher.search, Searcher.combined. rewrite Hrun.
  split; [reflexivity|]. split; [reflexivity|]. split; [assumption|].
  split; [|exact Hval].
  intros d. rewrite dict_keys_get, Hval, fold_merge_or_some, Exists_exists.
  cbn [dict_get Searcher.init Searcher.index]. split.
  - intros [Hn|(x & Hin & Hx)]; [congruence|].
    apply in_map_iff in Hin. destruct Hin as (w & <- & Hw).
    exists w. split; [assumption|]. now apply found_mentions.
  - intros (w & Hw & Hm). right.
    exists (found (Index.init sonnets) w d).
    split; [apply in_map_iff; now exists w | now apply found_mentions].
Qed.

Lemma or_search_spec_witness :
  NoDup (map Sonnet.id [Scenario.doc1; Scenario.doc2]) /\
  exists c,
    Searcher.combined Scenario.searcher (lit "fairest rose") (lit "OR") = Ok c /\
    Searcher.search Scenario.searcher (lit "fairest rose") (lit "OR") =
      Ok (sorted_by_str SearchResult.title (dict_values c)) /\
    NoDup (dict_keys c) /\
    (forall d, In d (dict_keys c) <->
               exists w, In w (split (lit "fairest rose")) /\
                         mentions [Scenario.doc1; Scenario.doc2] d w) /\
    (forall d, dict_get c d =
               fold_left merge_or
                 (map (fun w => found (Index.init [Scenario.doc1; Scenario.doc2]) w d)
                    (split (lit "fairest rose")))
                 None).
Proof.
  split; [exact scenario_ids_distinct|].
  exact (or_search_spec [Scenario.doc1; Scenario.doc2] (lit "fairest rose")
           scenario_ids_distinct).
Defined.

Lemma word_step_and_get (self : Searcher.t) (word : str)
  (combined_results : dict Z SearchResult.t) :
  index_ok (Searcher.index self) ->
  combined_results <> [] -> NoDup (dict_keys combined_results) ->
  exists c,
    Searcher.word_step self (lit "AND") combined_results word = Ok c /\
    NoDup (dict_keys c) /\
    forall d, dict_get c d =
              merge_and (dict_get combined_results d)
                (found (Searcher.index self) word d).
Proof.
  intros Hidx Hne Hc. unfold Searcher.word_step, found.
  destruct (search_for_good _ word Hidx) as (results & Hs & _).
  rewrite Hs. cbn [bind].
  destruct combined_results as [|e c]; [congruence|]. cbn [dict_is_empty].
  change (str_eqb (lit "AND") (lit "AND")) with true. cbn iota.
  eexists. split; [reflexivity|]. split; [apply and_step_nodup|].
  intros d. now apply and_step_get.
Qed.

Lemma and_loop (self : Searcher.t) (words : list str)
  (combined_results : dict Z SearchResult.t) :
  index_ok (Searcher.index self) -> NoDup (dict_keys combined_results) ->
  (forall pre rest, words = pre ++ rest -> rest <> [] ->
     exists d,
       fold_left merge_and (map (fun w => found (Searcher.index self) w d) pre)
         (dict_get combined_results d) <> None) ->
  exists c,
    for_each (Searcher.word_step self (lit "AND")) words combined_results = Ok c /\
    NoDup (dict_keys c) /\
    forall d, dict_get c d =
              fold_left merge_and
                (map (fun w => found (Searcher.index self) w d) words)
                (dict_get combined_results d).
Proof.
  intros Hidx. revert combined_results.
  induction words as [|w words IH]; intros acc Hacc Hpre;
    cbn [for_each map fold_left].
  - exists acc. now repeat split.
  - assert (Hne : acc <> []).
    { destruct (Hpre [] (w :: words) eq_refl) as (d & Hd); [discriminate|].
      cbn in Hd. intros ->. now apply Hd. }
    destruct (word_step_and_get self w acc Hidx Hne Hacc) as (c1 & -> & Hc1 & Hget).
    cbn [bind]. destruct (IH c1 Hc1) as (c & Hrun & Hc & Hval).
    + intros pre rest Hw Hrest.
      destruct (Hpre (w :: pre) rest) as (d & Hd); [now rewrite Hw | assumption|].
      exists d. cbn [map fold_left] in Hd. now rewrite Hget.
    + exists c. split; [assumption|]. split; [assumption|].
      intros d. now rewrite Hval, Hget.
Qed.

(** X14: an [AND] query returns the documents that mention all of its words,
    as long as no shorter beginning of the query is without a common
    document.  On a searcher built from sonnets with pairwise distinct
    identifiers, when for every proper non-empty prefix of the query's words
    some document mentions all words of the prefix, [search(query, "AND")]
    returns the values, in title order, of a mapping with one entry per
    document identifier; a document has an entry if and only if the query
    has a word and the document mentions every word, and its entry is the
    combination, in query order, of the index's results for the words. *)
Theorem and_search_spec (sonnets : list Sonnet.t) (query : str) :
  NoDup (map Sonnet.id sonnets) ->
  (forall k, (0 < k < length (split query))%nat ->
     exists d, forall w, In w (firstn k (split query)) -> mentions sonnets d w) ->
  exists c,
    Searcher.combined (Searcher.init sonnets) query (lit "AND") = Ok c /\
    Searcher.search (Searcher.init sonnets) query (lit "AND") =
      Ok (sorted_by_str SearchResult.title (dict_values c)) /\
    NoDup (dict_keys c) /\
    (forall d, In d (dict_keys c) <->
               split query <> [] /\
               forall w, In w (split query) -> mentions sonnets d w) /\
    (forall d, dict_get c d =
               match split query with
               | [] => None
               | w :: ws =>
                   fold_left merge_and
                     (map (fun w' => found (Index.init sonnets) w' d) ws)
                     (found (Index.init sonnets) w d)
               end).
Proof.
  intros Hnd Hpre. pose proof (init_ok sonnets Hnd) as Hidx.
  unfold Searcher.search, Searcher.combined.
  destruct (split query) as [|w ws] eqn:Hq.
  - exists []. cbn. split; [reflexivity|]. split; [reflexivity|].
    split; [constructor|]. split; [|reflexivity].
    intros d. split; [intros [] | intros [H _]; congruence].
  - destruct (search_for_good _ w Hidx) as (r1 & Hs & _).
    pose proof (search_for_keys_nodup _ _ _ Hidx Hs) as Hr1.
    cbn [Searcher.init Searcher.index] in *.
    assert (Hf : forall d, dict_get r1 d = found (Index.init sonnets) w d).
    { intros d. unfold found. now rewrite Hs. }
    destruct (and_loop (Searcher.init sonnets) ws r1 Hidx Hr1)
      as (c & Hrun & Hc & Hval).
    { intros pre rest Hws Hrest.
      destruct (Hpre (S (length pre))) as (d & Hd).
      - cbn [length]. rewrite Hws, length_app.
        destruct rest; [congruence|]. cbn [length]. lia.
      - exists d. rewrite Hf. apply fold_merge_and_some. split.
        + apply found_mentions; [assumption|]. apply Hd. cbn [firstn]. now left.
        + rewrite Forall_forall. intros x Hx. apply in_map_iff in Hx.
          destruct Hx as (w' & <- & Hw'). cbn [Searcher.init Searcher.index].
          apply found_mentions; [assumption|]. apply Hd.
          cbn [firstn]. right. rewrite Hws, firstn_app, Nat.sub_diag, firstn_all.
          cbn [firstn]. now rewrite app_nil_r. }
    cbn [Searcher.init Searcher.index] in *.
    assert (Hcomb :
      for_each (Searcher.word_step (Searcher.init sonnets) (lit "AND"))
        (w :: ws) [] = Ok c).
    { cbn [for_each]. unfold Searcher.word_step at 1.
      cbn [Searcher.init Searcher.index]. rewrite Hs. exact Hrun. }
    exists c. rewrite Hcomb. split; [reflexivity|]. split; [reflexivity|].
    split; [assumption|]. split.
    + intros d. rewrite dict_keys_get, Hval, Hf, fold_merge_and_some. split.
      * intros [Hw Hall]. split; [discriminate|].
        intros w' [<-|Hw']; [now apply found_mentions|].
        apply found_mentions; [assumption|].
        rewrite Forall_forall in Hall. apply Hall.
        apply in_map_iff. now exists w'.
      * intros [_ Hall]. split.
        -- apply found_mentions; [assumption|]. apply Hall. now left.
        -- rewrite Forall_forall. intros x Hx. apply in_map_iff in Hx.
           destruct Hx as (w' & <- & Hw').
           apply found_mentions; [assumption|]. apply Hall. now right.
    + intros d. now rewrite Hval, Hf.
Qed.

Lemma and_search_spec_witness :
  NoDup (map Sonnet.id [Scenario.doc1; Scenario.doc2]) /\
  (forall k, (0 < k < length (split (lit "rose increase")))%nat ->
     exists d, forall w, In w (firstn k (split (lit "rose increase"))) ->
                         mentions [Scenario.doc1; Scenario.doc2] d w) /\
  exists c,
    Searcher.combined Scenario.searcher (lit "rose increase") (lit "AND") = Ok c /\
    Searcher.search Scenario.searcher (lit "rose increase") (lit "AND") =
      Ok (sorted_by_str SearchResult.title (dict_values c)) /\
    NoDup (dict_keys c) /\
    (forall d, In d (dict_keys c) <->
               split (lit "rose increase") <> [] /\
               forall w, In w (split (lit "rose increase")) ->
                         mentions [Scenario.doc1; Scenario.doc2] d w) /\
    (forall d, dict_get c d =
               match split (lit "rose increase") with
               | [] => None
               | w :: ws =>
                   fold_left merge_and
                     (map (fun w' =>
                             found (Index.init [Scenario.doc1; Scenario.doc2]) w' d)
                        ws)
                     (found (Index.init [Scenario.doc1; Scenario.doc2]) w d)
               end).
Proof.
  assert (Hpre : forall k, (0 < k < length (split (lit "rose increase")))%nat ->
     exists d, forall w, In w (firstn k (split (lit "rose increase"))) ->
                         mentions [Scenario.doc1; Scenario.doc2] d w).
  { intros k Hk.
    change (split (lit "rose increase")) with [lit "rose"; lit "increase"] in *.
    cbn [length] in Hk. assert (Hk1 : k = 1%nat) by lia. subst k.
    exists 2. cbn [firstn]. intros w [<-|[]].
    apply (found_mentions _ _ _ scenario_ids_distinct).
    vm_compute. discriminate. }
  split; [exact scenario_ids_distinct|]. split; [exact Hpre|].
  exact (and_search_spec [Scenario.doc1; Scenario.doc2] (lit "rose increase")
           scenario_ids_distinct Hpre).
Defined.

(** *** The order and the origin of the results *)

Lemma str_leb_total (a b : str) : str_leb a b = true \/ str_leb b a = true.
Proof.
  revert b. induction a as [|x a IH]; intros [|y b]; cbn; try tauto.
  destruct (N.ltb_spec (N_of_ascii x) (N_of_ascii y)); [tauto|].
  destruct (N.ltb_spec (N_of_ascii y) (N_of_ascii x)); [tauto|].
  apply IH.
Qed.

Lemma str_leb_trans (a b c : str) :
  str_leb a b = true -> str_leb b c = true -> str_leb a c = true.
Proof.
  revert b c. induction a as [|x a IH]; intros [|y b] [|z c]; cbn;
    try congruence.
  destruct (N.ltb_spec (N_of_ascii x) (N_of_ascii y));
    destruct (N.ltb_spec (N_of_ascii y) (N_of_ascii x));
    destruct (N.ltb_spec (N_of_ascii y) (N_of_ascii z));
    destruct (N.ltb_spec (N_of_ascii z) (N_of_ascii y));
    destruct (N.ltb_spec (N_of_ascii x) (N_of_ascii z));
    destruct (N.ltb_spec (N_of_ascii z) (N_of_ascii x));
    try congruence; try lia.
  apply IH.
Qed.

(** A property that the result of every posting has and that
    [combine_with] keeps holds of everything a search returns. *)
Section SearchInvariant.
Context (P : SearchResult.t -> Prop).
Hypothesis P_combine :
  forall a b, P a -> P b -> P (SearchResult.combine_with a b).

Lemma all_get (d : dict Z SearchResult.t) (k : Z) (v : SearchResult.t) :
  Forall (fun kv => P (snd kv)) d -> dict_get d k = Some v -> P v.
Proof.
  rewrite Forall_forall. intros Hd Hg.
  apply dict_get_some_in in Hg. now apply (Hd (k, v)).
Qed.

Lemma and_step_all (combined_results results : dict Z SearchResult.t) :
  Forall (fun kv => P (snd kv)) combined_results ->
  Forall (fun kv => P (snd kv)) results ->
  Forall (fun kv => P (snd kv)) (Searcher.and_step combined_results results).
Proof.
  intros Hc Hr. unfold Searcher.and_step.
  assert (Hgen : forall l acc,
    Forall (fun kv => P (snd kv)) l -> Forall (fun kv => P (snd kv)) acc ->
    Forall (fun kv => P (snd kv))
      (fold_left
         (fun new_combined '(doc_id, cur) =>
            match dict_get results doc_id with
            | Some r => dict_set new_combined doc_id (SearchResult.combine_with cur r)
            | None => new_combined
            end) l acc)).
  { induction l as [|[d cur] l IH]; intros acc Hl Hacc; cbn [fold_left];
      [assumption|].
    inversion Hl as [|? ? Hcur Hl']; subst. apply IH; [assumption|].
    destruct (dict_get results d) as [r|] eqn:Hg; [|assumption].
    apply (HeapFacts.dict_set_forall_values P); [assumption|].
    apply P_combine; [exact Hcur | exact (all_get _ _ _ Hr Hg)]. }
  apply Hgen; [assumption | constructor].
Qed.

Lemma or_step_all (combined_results results : dict Z SearchResult.t) :
  Forall (fun kv => P (snd kv)) combined_results ->
  Forall (fun kv => P (snd kv)) results ->
  Forall (fun kv => P (snd kv)) (Searcher.or_step combined_results results).
Proof.
  intros Hc Hr. unfold Searcher.or_step. revert combined_results Hc.
  induction Hr as [|[d r] results Hd Hr IH]; intros acc Hacc;
    cbn [fold_left]; [assumption|].
  apply IH. destruct (dict_get acc d) as [cur|] eqn:Hg.
  - apply (HeapFacts.dict_set_forall_values P); [assumption|].
    apply P_combine; [exact (all_get _ _ _ Hacc Hg) | exact Hd].
  - now apply (HeapFacts.dict_set_forall_values P).
Qed.

Lemma search_for_all (idx : Index.t) (token : str)
  (results : dict Z SearchResult.t) :
  (forall d p r, Index.posting_result idx d p = Ok r -> P r) ->
  Index.search_for idx token = Ok results ->
  Forall (fun kv => P (snd kv)) results.
Proof.
  intros Hpost. unfold Index.search_for.
  destruct (dict_get (Index.dictionary idx) (stem token)) as [pl|].
  - apply (for_each_invariant (fun d => Forall (fun kv => P (snd kv)) d));
      [|constructor].
    intros acc [d ps] acc' Hacc.
    apply (for_each_invariant (fun d => Forall (fun kv => P (snd kv)) d));
      [|assumption].
    intros s p s' Hs. unfold Index.add_posting.
    destruct (Index.posting_result idx d p) as [r|e] eqn:Hr; cbn [bind];
      [|discriminate].
    apply Hpost in Hr.
    destruct (dict_get s d) as [cur|] eqn:Hg; intros [= <-].
    + apply (HeapFacts.dict_set_forall_values P); [assumption|].
      apply P_combine; [exact (all_get _ _ _ Hs Hg) | exact Hr].
    + now apply (HeapFacts.dict_set_forall_values P).
  - intros [= <-]. constructor.
Qed.

Lemma search_all (self : Searcher.t) (query search_mode : str)
  (rs : list SearchResult.t) :
  (forall d p r, Index.posting_result (Searcher.index self) d p = Ok r -> P r) ->
  Searcher.search self query search_mode = Ok rs -> Forall P rs.
Proof.
  intros Hpost. unfold Searcher.search.
  destruct (Searcher.combined self query search_mode) as [c|e] eqn:Hc;
    cbn [bind]; [|discriminate].
  intros [= <-]. unfold Searcher.combined in Hc.
  apply (for_each_invariant (fun d => Forall (fun kv => P (snd kv)) d)) in Hc;
    [| |constructor].
  - rewrite Forall_forall in Hc |- *. intros r Hin.
    apply (Permutation_in _ (sorted_perm _ _)) in Hin.
    apply in_map_iff in Hin. destruct Hin as ([k v] & <- & Hin).
    now apply (Hc (k, v)).
  - intros s w s' Hs. unfold Searcher.word_step.
    destruct (Index.search_for (Searcher.index self) w) as [results|e] eqn:Hr;
      cbn [bind]; [|discriminate].
    apply (search_for_all _ _ _ Hpost) in Hr.
    destruct (dict_is_empty s); [now intros [= <-]|].
    destruct (str_eqb search_mode (lit "AND")).
    + intros [= <-]. now apply and_step_all.
    + destruct (str_eqb search_mode (lit "OR")); intros [= <-];
        [now apply or_step_all | assumption].
Qed.
End SearchInvariant.

Lemma posting_result_titled (sonnets : list Sonnet.t) (d : Z) (p : Posting.t)
  (r : SearchResult.t) :
  Index.posting_result (Index.init sonnets) d p = Ok r ->
  titled sonnets r /\ 1 <= SearchResult.matches r.
Proof.
  unfold Index.posting_result, dict_getitem.
  destruct (dict_get (Index.sonnets (Index.init sonnets)) d) as [s|] eqn:Hs;
    cbn [bind]; [|discriminate].
  apply sonnets_dict_in in Hs. destruct Hs as [Hin _].
  destruct (Posting.line_no p) as [n|].
  - destruct (getitem (Sonnet.lines s) (n - 1)) as [line|e]; cbn [bind];
      [|discriminate].
    intros [= <-]. split; [now exists s | cbn; lia].
  - intros [= <-]. split; [now exists s | cbn; lia].
Qed.

(** X15: what every search returns.  On a searcher built from sonnets with
    pairwise distinct identifiers, [search] raises nothing, for every query
    and every mode string; the results come in ascending order of their
    titles, strings compared by code points; every result carries the title
    of a sonnet of the list and a match count of at least 1. *)
Theorem search_returns_sorted (sonnets : list Sonnet.t)
  (query search_mode : str) :
  NoDup (map Sonnet.id sonnets) ->
  exists rs,
    Searcher.search (Searcher.init sonnets) query search_mode = Ok rs /\
    StronglySorted title_le rs /\
    Forall (titled sonnets) rs /\
    Forall (fun r => 1 <= SearchResult.matches r) rs.
Proof.
  intros Hnd.
  destruct (search_good (Searcher.init sonnets) query search_mode
              (init_ok sonnets Hnd)) as (rs & Hrs & _).
  exists rs. split; [assumption|]. split; [|split].
  - unfold Searcher.search in Hrs.
    destruct (Searcher.combined (Searcher.init sonnets) query search_mode)
      as [c|e]; cbn [bind] in Hrs; [|discriminate].
    injection Hrs as <-.
    apply (sorted_ordered
             (fun x y => str_leb (SearchResult.title x) (SearchResult.title y))).
    + intros x y. apply str_leb_total.
    + intros x y z. apply str_leb_trans.
  - apply (search_all (titled sonnets)) with (2 := fun d p r H =>
      proj1 (posting_result_titled sonnets d p r H)) (3 := Hrs).
    intros a b (s & Hs & Ht) _. exists s. now split.
  - apply (search_all (fun r => 1 <= SearchResult.matches r)) with
      (2 := fun d p r H => proj2 (posting_result_titled sonnets d p r H))
      (3 := Hrs).
    intros a b Ha Hb. cbn. lia.
Qed.

Lemma search_returns_sorted_witness :
  NoDup (map Sonnet.id [Scenario.doc1; Scenario.doc2]) /\
  exists rs,
    Searcher.search Scenario.searcher (lit "increase") (lit "OR") = Ok rs /\
    StronglySorted title_le rs /\
    Forall (titled [Scenario.doc1; Scenario.doc2]) rs /\
    Forall (fun r => 1 <= SearchResult.matches r) rs.
Proof.
  split; [exact scenario_ids_distinct|].
  exact (search_returns_sorted [Scenario.doc1; Scenario.doc2] (lit "increase")
           (lit "OR") scenario_ids_distinct).
Defined.

(** ** The copies on the store *)

Lemma copied_lm (h e : Heap.heap) (lm : LineMatch.t) (base : nat) :
  (base <= length h)%nat ->
  let h1 := h ++ [Heap.OSpans (LineMatch.spans lm);
                  Heap.OLineMatch (LineMatch.line_no lm) (LineMatch.text lm)
                    (length h)] in
  Heap.repr_lm (h1 ++ e) (S (length h)) lm /\
  fresh_lm base (h1 ++ e) (S (length h)).
Proof.
  intros Hbase h1.
  assert (Hsp : nth_error h1 (length h) = Some (Heap.OSpans (LineMatch.spans lm))).
  { unfold h1. rewrite nth_error_app2 by lia. now rewrite Nat.sub_diag. }
  assert (Hc : nth_error h1 (S (length h)) =
               Some (Heap.OLineMatch (LineMatch.line_no lm) (LineMatch.text lm)
                       (length h))).
  { unfold h1. rewrite nth_error_app2 by lia.
    replace (S (length h) - length h)%nat with 1%nat by lia. reflexivity. }
  split.
  - exists (length h). split; now apply HeapFacts.nth_error_grow.
  - split; [lia|]. eexists _, _, _.
    split; [apply HeapFacts.nth_error_grow; exact Hc | lia].
Qed.

Lemma refs_grow (h e : Heap.heap) (refs : list Heap.loc)
  (lms : list LineMatch.t) :
  Forall2 (Heap.repr_lm h) refs lms -> Forall2 (Heap.repr_lm (h ++ e)) refs lms.
Proof.
  induction 1; constructor; [now apply HeapFacts.repr_lm_grow | assumption].
Qed.

Lemma map_each_copy_deep (refs : list Heap.loc) (lms : list LineMatch.t)
  (h : Heap.heap) (base : nat) :
  (base <= length h)%nat ->
  Forall2 (Heap.repr_lm h) refs lms ->
  exists refs' e,
    Heap.map_each Heap.LineMatch_copy refs h = Some (refs', h ++ e) /\
    Forall2 (Heap.repr_lm (h ++ e)) refs' lms /\
    Forall (fresh_lm base (h ++ e)) refs'.
Proof.
  revert lms h.
  induction refs as [|x refs IH]; intros lms h Hbase Hrefs.
  - inversion Hrefs; subst. exists [], []. cbn. unfold Heap.ret.
    rewrite app_nil_r. now repeat split.
  - inversion Hrefs as [|? lm ? lms' Hx Hrest]; subst.
    cbn [Heap.map_each].
    rewrite (HeapFacts.bind_run _ _ _ _ _ (HeapFacts.LineMatch_copy_run _ _ _ Hx)).
    set (h1 := h ++ [Heap.OSpans (LineMatch.spans lm);
                     Heap.OLineMatch (LineMatch.line_no lm) (LineMatch.text lm)
                       (length h)]).
    destruct (IH lms' h1) as (refs' & e & Hrun & Hrepr & Hfresh).
    { unfold h1. rewrite length_app. lia. }
    { clear - Hrest. induction Hrest; constructor;
        [now apply HeapFacts.repr_lm_grow | assumption]. }
    rewrite (HeapFacts.bind_run _ _ _ _ _ Hrun). unfold Heap.ret.
    destruct (copied_lm h e lm base Hbase) as [Hc Hf]. fold h1 in Hc, Hf.
    exists (S (length h) :: refs'),
           ([Heap.OSpans (LineMatch.spans lm);
             Heap.OLineMatch (LineMatch.line_no lm) (LineMatch.text lm)
               (length h)] ++ e).
    replace (h ++ [Heap.OSpans (LineMatch.spans lm);
                   Heap.OLineMatch (LineMatch.line_no lm) (LineMatch.text lm)
                     (length h)] ++ e) with (h1 ++ e)
      by (unfold h1; now rewrite <- app_assoc).
    split; [reflexivity|]. split; constructor; assumption.
Qed.

Lemma repr_lm_above (h e : Heap.heap) (l x : Heap.loc) (lm : LineMatch.t)
  (o : Heap.obj) :
  Heap.repr_lm h l lm -> (length h <= x)%nat ->
  Heap.repr_lm (Heap.update (h ++ e) x o) l lm.
Proof.
  intros (sp & Hobj & Hsp) Hx. exists sp.
  pose proof (HeapFacts.nth_error_some_lt _ _ _ Hobj).
  pose proof (HeapFacts.nth_error_some_lt _ _ _ Hsp).
  split.
  - rewrite HeapFacts.nth_error_update_ne by lia.
    now apply HeapFacts.nth_error_grow.
  - unfold Heap.repr_spans. rewrite HeapFacts.nth_error_update_ne by lia.
    now apply HeapFacts.nth_error_grow.
Qed.

Lemma repr_above (h e : Heap.heap) (l x : Heap.loc) (r : SearchResult.t)
  (o : Heap.obj) :
  Heap.repr h l r -> (length h <= x)%nat ->
  Heap.repr (Heap.update (h ++ e) x o) l r.
Proof.
  intros Hr Hx. apply (HeapFacts.repr_preserved h); [|assumption].
  intros y oy Hy. pose proof (HeapFacts.nth_error_some_lt _ _ _ Hy).
  rewrite HeapFacts.nth_error_update_ne by lia.
  now apply HeapFacts.nth_error_grow.
Qed.

(** X16: [LineMatch.copy] makes an independent copy.  For a line match in
    the store, the call only adds objects to the store and returns a new
    line match with the same line number, text and spans, whose list of
    spans is a new list too; an assignment to any of the added objects
    leaves the original as it was. *)
Theorem LineMatch_copy_independent (h : Heap.heap) (l : Heap.loc)
  (lm : LineMatch.t) :
  Heap.repr_lm h l lm ->
  exists c e,
    Heap.LineMatch_copy l h = Some (c, h ++ e) /\
    Heap.repr_lm (h ++ e) c lm /\
    Heap.repr_lm (h ++ e) l lm /\
    fresh_lm (length h) (h ++ e) c /\
    forall x o, (length h <= x)%nat ->
                Heap.repr_lm (Heap.update (h ++ e) x o) l lm.
Proof.
  intros Hl. eexists _, _.
  split; [exact (HeapFacts.LineMatch_copy_run h l lm Hl)|].
  destruct (copied_lm h [] lm (length h) (le_n _)) as [Hc Hf].
  rewrite app_nil_r in Hc, Hf.
  split; [exact Hc|]. split; [now apply HeapFacts.repr_lm_grow|].
  split; [exact Hf|]. intros x o Hx. now apply repr_lm_above.
Qed.

Lemma LineMatch_copy_independent_witness :
  Heap.repr_lm Heap.two_results 2%nat
    (LineMatch.mk 1 (lit "Thy beauty's image dost thou rose increase")
       [(29, 33)]) /\
  exists c e,
    Heap.LineMatch_copy 2%nat Heap.two_results = Some (c, Heap.two_results ++ e) /\
    Heap.repr_lm (Heap.two_results ++ e) c
      (LineMatch.mk 1 (lit "Thy beauty's image dost thou rose increase")
         [(29, 33)]) /\
    Heap.repr_lm (Heap.two_results ++ e) 2%nat
      (LineMatch.mk 1 (lit "Thy beauty's image dost thou rose increase")
         [(29, 33)]) /\
    fresh_lm (length Heap.two_results) (Heap.two_results ++ e) c /\
    forall x o, (length Heap.two_results <= x)%nat ->
                Heap.repr_lm (Heap.update (Heap.two_results ++ e) x o) 2%nat
                  (LineMatch.mk 1
                     (lit "Thy beauty's image dost thou rose increase")
                     [(29, 33)]).
Proof.
  assert (Hl : Heap.repr_lm Heap.two_results 2%nat
                 (LineMatch.mk 1
                    (lit "Thy beauty's image dost thou rose increase")
                    [(29, 33)]))
    by (exists 1%nat; split; reflexivity).
  split; [exact Hl|].
  exact (LineMatch_copy_independent Heap.two_results 2%nat _ Hl).
Defined.

(** X17: [SearchResult.copy] makes a deep copy.  For a result in the store,
    the call only adds objects to the store and returns a new result with
    the same title, title spans, line matches and match count; the new
    result's list of title spans, its list of line matches, every line match
    in it and their lists of spans are new objects; an assignment to any of
    the added objects leaves the original as it was. *)
Theorem SearchResult_copy_deep (h : Heap.heap) (self : Heap.loc)
  (r : SearchResult.t) :
  Heap.repr h self r ->
  exists c e,
    Heap.SearchResult_copy self h = Some (c, h ++ e) /\
    Heap.repr (h ++ e) c r /\
    Heap.repr (h ++ e) self r /\
    fresh_result (length h) (h ++ e) c /\
    forall x o, (length h <= x)%nat ->
                Heap.repr (Heap.update (h ++ e) x o) self r.
Proof.
  intros Hr. pose proof Hr as (ts & lms & refs & Hl & Hts & Hlms & Hrefs).
  unfold Heap.SearchResult_copy.
  rewrite (HeapFacts.bind_run _ _ _ _ _ (HeapFacts.sr_title_run _ _ _ _ _ _ Hl)).
  rewrite (HeapFacts.bind_run _ _ _ _ _
             (HeapFacts.sr_title_spans_run _ _ _ _ _ _ Hl)).
  rewrite (HeapFacts.bind_run _ _ _ _ _ (HeapFacts.list_copy_run _ _ _ Hts)).
  set (h1 := h ++ [Heap.OSpans (SearchResult.title_spans r)]).
  assert (Hl1 : nth_error h1 self =
                Some (Heap.OSearchResult (SearchResult.title r) ts lms
                        (SearchResult.matches r)))
    by now apply HeapFacts.nth_error_grow.
  rewrite (HeapFacts.bind_run _ _ _ _ _
             (HeapFacts.sr_line_matches_run _ _ _ _ _ _ Hl1)).
  assert (Hlms1 : nth_error h1 lms = Some (Heap.OLineMatches refs))
    by now apply HeapFacts.nth_error_grow.
  rewrite (HeapFacts.bind_run _ _ _ _ _ (HeapFacts.ref_items_run _ _ _ Hlms1)).
  destruct (map_each_copy_deep refs (SearchResult.line_matches r) h1 (length h))
    as (refs' & e & Hrun & Hrepr & Hfresh).
  { unfold h1. rewrite length_app. lia. }
  { clear - Hrefs. induction Hrefs; constructor;
      [now apply HeapFacts.repr_lm_grow | assumption]. }
  rewrite (HeapFacts.bind_run _ _ _ _ _ Hrun). unfold Heap.alloc at 1.
  unfold Heap.bind at 1.
  set (h2 := (h1 ++ e) ++ [Heap.OLineMatches refs']).
  assert (Hl2 : nth_error h2 self =
                Some (Heap.OSearchResult (SearchResult.title r) ts lms
                        (SearchResult.matches r))).
  { unfold h2. now do 2 apply HeapFacts.nth_error_grow. }
  rewrite (HeapFacts.bind_run _ _ _ _ _
             (HeapFacts.sr_matches_run _ _ _ _ _ _ Hl2)).
  unfold Heap.alloc.
  set (oc := Heap.OSearchResult (SearchResult.title r) (length h)
               (length (h1 ++ e)) (SearchResult.matches r)).
  set (h3 := h2 ++ [oc]).
  assert (Hh3 : h3 = h ++ ([Heap.OSpans (SearchResult.title_spans r)] ++ e ++
                           [Heap.OLineMatches refs'] ++ [oc])).
  { unfold h3, h2, h1. now rewrite <- !app_assoc. }
  assert (Hc : nth_error h3 (length h2) = Some oc)
    by apply HeapFacts.nth_error_fresh.
  assert (Hcts : nth_error h3 (length h) =
                 Some (Heap.OSpans (SearchResult.title_spans r))).
  { unfold h3, h2. do 3 apply HeapFacts.nth_error_grow.
    apply HeapFacts.nth_error_fresh. }
  assert (Hclms : nth_error h3 (length (h1 ++ e)) = Some (Heap.OLineMatches refs')).
  { unfold h3. apply HeapFacts.nth_error_grow. apply HeapFacts.nth_error_fresh. }
  assert (Hlen1 : (length h <= length (h1 ++ e))%nat)
    by (unfold h1; rewrite !length_app; lia).
  assert (Hlen2 : (length h <= length h2)%nat)
    by (unfold h2; rewrite length_app; lia).
  exists (length h2),
         ([Heap.OSpans (SearchResult.title_spans r)] ++ e ++
          [Heap.OLineMatches refs'] ++ [oc]).
  rewrite <- Hh3. split; [reflexivity|]. split; [|split; [|split]].
  - exists (length h), (length (h1 ++ e)), refs'.
    split; [exact Hc|]. split; [exact Hcts|]. split; [exact Hclms|].
    unfold h3, h2. now do 2 apply refs_grow.
  - rewrite Hh3. apply (HeapFacts.repr_preserved h); [|assumption].
    intros y oy Hy. now apply HeapFacts.nth_error_grow.
  - split; [assumption|].
    exists (SearchResult.title r), (length h), (length (h1 ++ e)), refs',
           (SearchResult.matches r).
    split; [exact Hc|]. split; [lia|]. split; [assumption|].
    split; [exact Hclms|].
    rewrite Forall_forall in Hfresh |- *. intros x Hx.
    destruct (Hfresh x Hx) as (Hbx & ln & t & sp & Hobj & Hsp).
    split; [assumption|]. exists ln, t, sp. split; [|assumption].
    unfold h3, h2. now do 2 apply HeapFacts.nth_error_grow.
  - intros x o Hx. rewrite Hh3. now apply repr_above.
Qed.

Lemma SearchResult_copy_deep_witness :
  Heap.repr Heap.two_results 4%nat Scenario.res_a /\
  exists c e,
    Heap.SearchResult_copy 4%nat Heap.two_results =
      Some (c, Heap.two_results ++ e) /\
    Heap.repr (Heap.two_results ++ e) c Scenario.res_a /\
    Heap.repr (Heap.two_results ++ e) 4%nat Scenario.res_a /\
    fresh_result (length Heap.two_results) (Heap.two_results ++ e) c /\
    forall x o, (length Heap.two_results <= x)%nat ->
                Heap.repr (Heap.update (Heap.two_results ++ e) x o) 4%nat
                  Scenario.res_a.
Proof.
  assert (Hr : Heap.repr Heap.two_results 4%nat Scenario.res_a).
  { exists 0%nat, 3%nat, [2%nat]. repeat split.
    constructor; [|constructor]. exists 1%nat. split; reflexivity. }
  split; [exact Hr|].
  exact (SearchResult_copy_deep Heap.two_results 4%nat Scenario.res_a Hr).
Defined.

(** ** Plurals *)







(** ** The order of the spans *)

Lemma span_leb_antisym (a b : Span) :
  span_leb a b = true -> span_leb b a = true -> a = b.
Proof.
  unfold span_leb. destruct a as [a1 a2], b as [b1 b2]. cbn [fst snd].
  intros H1 H2. f_equal; lia.
Qed.

Lemma ordered_unique {A} (leb : A -> A -> bool) (l l' : list A) :
  (forall x y, leb x y = true -> leb y x = true -> x = y) ->
  StronglySorted (fun a b => leb a b = true) l ->
  StronglySorted (fun a b => leb a b = true) l' ->
  Permutation l l' -> l = l'.
Proof.
  intros Hanti Hl. revert l'.
  induction Hl as [|x l Hs IH Hall]; intros l' Hl' Hperm.
  - apply Permutation_nil in Hperm. now subst.
  - destruct Hl' as [|y l' Hs' Hall'].
    + symmetry in Hperm. apply Permutation_nil in Hperm. discriminate.
    + assert (Hxy : x = y).
      { rewrite Forall_forall in Hall, Hall'.
        assert (Hx : In x (y :: l'))
          by (apply (Permutation_in _ Hperm); now left).
        assert (Hy : In y (x :: l))
          by (apply (Permutation_in _ (Permutation_sym Hperm)); now left).
        destruct Hx as [Hx|Hx]; [now symmetry|].
        destruct Hy as [Hy|Hy]; [assumption|].
        apply Hanti; [now apply Hall | now apply Hall']. }
      subst y. f_equal. apply IH; [assumption|].
      now apply Permutation_cons_inv in Hperm.
Qed.

Lemma sorted_spans_unique (spans spans' : list Span) :
  Permutation spans spans' -> sorted span_leb spans = sorted span_leb spans'.
Proof.
  intros Hperm. apply (ordered_unique span_leb).
  - apply span_leb_antisym.
  - apply sorted_ordered; [apply span_leb_total | apply span_leb_trans].
  - apply sorted_ordered; [apply span_leb_total | apply span_leb_trans].
  - rewrite (sorted_perm span_leb spans), (sorted_perm span_leb spans').
    exact Hperm.
Qed.

(** X19: the highlighted text does not depend on the order in which the
    spans are given: two lists with the same spans, each as often as in the
    other, give the same output, for every text and mode. *)
Theorem ansi_highlight_order (text : str) (spans spans' : list Span)
  (highlight_mode : str) :
  Permutation spans spans' ->
  SearchResult.ansi_highlight text spans highlight_mode =
  SearchResult.ansi_highlight text spans' highlight_mode.
Proof.
  intros Hperm. pose proof (sorted_spans_unique _ _ Hperm) as Hs.
  unfold SearchResult.ansi_highlight.
  destruct spans as [|sp spans], spans' as [|sp' spans'].
  - reflexivity.
  - apply Permutation_nil in Hperm. discriminate.
  - symmetry in Hperm. apply Permutation_nil in Hperm. discriminate.
  - cbv zeta. now rewrite Hs.
Qed.

Lemma ansi_highlight_order_witness :
  Permutation [(2, 5); (0, 3)] [(0, 3); (2, 5)] /\
  SearchResult.ansi_highlight (lit "abcdefghij") [(2, 5); (0, 3)] (lit "DEFAULT") =
  SearchResult.ansi_highlight (lit "abcdefghij") [(0, 3); (2, 5)] (lit "DEFAULT").
Proof.
  assert (Hperm : Permutation [(2, 5); (0, 3)] [(0, 3); (2, 5)])
    by apply perm_swap.
  split; [exact Hperm|].
  exact (ansi_highlight_order (lit "abcdefghij") _ _ (lit "DEFAULT") Hperm).
Defined.

(** ** Letter case in queries *)

Lemma isspace_lower (c : ascii) : isspace (lower_char c) = isspace c.
Proof. destruct c as [[] [] [] [] [] [] [] []]; reflexivity. Qed.

Lemma runs_from_lower (s : str) (i : Z) (cur : option (str * Z)) :
  runs_from i (option_map (fun ts => (lower (fst ts), snd ts)) cur) (lower s) =
  map (fun tp => (lower (fst tp), snd tp)) (runs_from i cur s).
Proof.
  revert i cur. induction s as [|c s IH]; intros i cur.
  - destruct cur as [[tok start]|]; cbn; [|reflexivity].
    unfold lower. now rewrite map_rev.
  - cbn [lower map runs_from]. rewrite isspace_lower.
    destruct (isspace c).
    + rewrite map_app. f_equal.
      * destruct cur as [[tok start]|]; cbn; [|reflexivity].
        unfold lower. now rewrite map_rev.
      * apply (IH (i + 1) None).
    + destruct cur as [[tok start]|]; cbn [option_map fst snd].
      * apply (IH (i + 1) (Some (c :: tok, start))).
      * apply (IH (i + 1) (Some ([c], i))).
Qed.

Lemma split_lower (s : str) : split (lower s) = map lower (split s).
Proof.
  unfold split. pose proof (runs_from_lower s 0 None) as H.
  cbn [option_map] in H. rewrite H, !map_map. reflexivity.
Qed.

Lemma for_each_map {A S} (body : S -> A -> result S) (f : A -> A)
  (l : list A) (st : S) :
  (forall s x, body s (f x) = body s x) ->
  for_each body (map f l) st = for_each body l st.
Proof.
  intros Hf. revert st. induction l as [|x l IH]; intros st; [reflexivity|].
  cbn [map for_each]. rewrite Hf.
  destruct (body st x) as [s1|e]; cbn [bind]; [apply IH | reflexivity].
Qed.

(** X20: queries are case-insensitive.  [Searcher.search] returns for a
    query in lower case what it returns for the query itself, on every
    searcher and in every mode; so does the substring search
    [Sonnet.search_for] of every sonnet. *)
Theorem search_ignores_case (query : str) :
  (forall self search_mode,
     Searcher.search self (lower query) search_mode =
     Searcher.search self query search_mode) /\
  (forall sonnet,
     Sonnet.search_for sonnet (lower query) = Sonnet.search_for sonnet query).
Proof.
  split.
  - intros self search_mode. unfold Searcher.search, Searcher.combined.
    rewrite split_lower, for_each_map; [reflexivity|].
    intros c w. unfold Searcher.word_step, Index.search_for.
    now rewrite !stem_of_normalize, normalize_lower.
  - intros sonnet. unfold Sonnet.search_for. now rewrite lower_idem.
Qed.

(** ** Words that nothing mentions *)

(** X21: a word that no sonnet mentions gives the empty mapping, and only
    such a word.  On an index built from sonnets with pairwise distinct
    identifiers, [search_for(w)] returns the empty mapping if and only if no
    sonnet has a token with the stem of [w] in its title or in a line. *)
Theorem search_for_unmentioned (sonnets : list Sonnet.t) (w : str) :
  NoDup (map Sonnet.id sonnets) ->
  Index.search_for (Index.init sonnets) w = Ok [] <->
  forall d, ~ mentions sonnets d w.
Proof.
  intros Hnd.
  destruct (search_for_good _ w (init_ok sonnets Hnd)) as (results & Hs & _).
  split.
  - intros H0 d Hm. rewrite H0 in Hs. injection Hs as <-.
    now apply (search_for_keys_mentions sonnets w [] d Hnd H0) in Hm.
  - intros Hno. rewrite Hs. f_equal. destruct results as [|[d r] results];
      [reflexivity|].
    exfalso. apply (Hno d).
    apply (search_for_keys_mentions sonnets w _ d Hnd Hs). now left.
Qed.

Lemma search_for_unmentioned_witness :
  NoDup (map Sonnet.id [Scenario.doc1; Scenario.doc2]) /\
  (Index.search_for (Index.init [Scenario.doc1; Scenario.doc2]) (lit "zzz") =
     Ok [] <->
   forall d, ~ mentions [Scenario.doc1; Scenario.doc2] d (lit "zzz")).
Proof.
  split; [exact scenario_ids_distinct|].
  exact (search_for_unmentioned [Scenario.doc1; Scenario.doc2] (lit "zzz")
           scenario_ids_distinct).
Defined.
